(** * eq-questionnaire-validator: answer validation and schema indexing

    A shallow embedding of [app/validation/answer_validator.py] and
    [app/validation/questionnaire_schema.py], and the properties of the
    range resolver, the rule checks and the schema index.

    The schema document is the value [json.load] returns: nested Python
    dicts, lists, strings, numbers, booleans and [None].  Methods that can
    raise return a [result]; methods that append to [self.errors] thread the
    list of error records. *)

From Stdlib Require Import ZArith List String Ascii Bool Lia SpecFloat.
From Stdlib Require Import DecimalString DecimalNat.
From stdpp Require Import gmap strings list.

Local Open Scope string_scope.
Local Open Scope list_scope.

(** ** Python values and exceptions *)

Module Py.

Inductive exn :=
| TypeError
| KeyError
| AttributeError
| ValueError
| IndexError
| ZeroDivisionError
| OverflowError
| JsonPathParseError.

(** The outcome of evaluating a piece of Python: a value, a raised
    exception, or [Unmodelled] where the behaviour depends on library code
    that is not embedded (the C library's [pow], fractional [timedelta]s). *)
Inductive result (A : Type) :=
| Ok (a : A)
| Raise (e : exn)
| Unmodelled.
Arguments Ok {A} a.
Arguments Raise {A} e.
Arguments Unmodelled {A}.

Definition bind {A B} (m : result A) (k : A -> result B) : result B :=
  match m with
  | Ok a => k a
  | Raise e => Raise e
  | Unmodelled => Unmodelled
  end.

Notation "'let*' x := m 'in' k" := (bind m (fun x => k))
  (at level 10, x name, m at level 100, k at level 200).
Notation "'let*' ' p := m 'in' k" := (bind m (fun x => let 'p := x in k))
  (at level 10, p pattern, m at level 100, k at level 200).

Definition is_ok {A} (m : result A) : bool :=
  match m with Ok _ => true | _ => false end.

(** [for x in xs: body] where the body can raise and threads a state. *)
Fixpoint foldM {A S} (body : S -> A -> result S) (xs : list A) (s : S) : result S :=
  match xs with
  | [] => Ok s
  | x :: r => let* s' := body s x in foldM body r s'
  end.

Fixpoint mapM {A B} (f : A -> result B) (xs : list A) : result (list B) :=
  match xs with
  | [] => Ok []
  | x :: r => let* y := f x in let* ys := mapM f r in Ok (y :: ys)
  end.

(** Python floats are IEEE 754 binary64 numbers. *)
Definition prec : Z := 53.
Definition emax : Z := 1024.
Abbreviation float := spec_float.

#[local] Set Warnings "-register-all".
Inductive pyval :=
| PNone
| PBool (b : bool)
| PInt (z : Z)
| PFloat (f : float)
| PStr (s : string)
| PList (l : list pyval)
| PDict (d : list (string * pyval)).

(** A JSON object keeps one binding per key, in document order. *)
Fixpoint dict_get (d : list (string * pyval)) (k : string) : option pyval :=
  match d with
  | [] => None
  | (k', v) :: r => if String.eqb k' k then Some v else dict_get r k
  end.

Definition dict_has (d : list (string * pyval)) (k : string) : bool :=
  match dict_get d k with Some _ => true | None => false end.

(** *** Numbers *)

Definition float_zero : float := S754_zero false.
Definition float_is_zero (f : float) : bool :=
  match f with S754_zero _ => true | _ => false end.
Definition float_is_finite (f : float) : bool :=
  match f with S754_zero _ | S754_finite _ _ _ => true | _ => false end.

(** [float(z)]: the nearest binary64, ties to even; too large an int raises. *)
Definition float_of_int (z : Z) : result float :=
  let f := binary_normalize prec emax z 0 false in
  if float_is_finite f then Ok f else Raise OverflowError.

(** [a / b] on ints: the correctly rounded quotient.  The quotient is
    computed to more than 64 bits and a sticky bit records a remainder. *)
Definition int_true_div (a b : Z) : result float :=
  if (b =? 0)%Z then Raise ZeroDivisionError else
  let neg := xorb (a <? 0)%Z (b <? 0)%Z in
  let a' := Z.abs a in
  let b' := Z.abs b in
  let k := Z.max 0 (66 + Z.log2 b' - Z.log2 a')%Z in
  let n := (a' * 2 ^ k)%Z in
  let q := (n / b')%Z in
  let sticky := if (n mod b' =? 0)%Z then 0%Z else 1%Z in
  let m := (2 * q + sticky)%Z in
  let f := binary_normalize prec emax (if neg then - m else m)%Z (- k - 1)%Z neg in
  if float_is_finite f then Ok f else Raise OverflowError.

(** The exact comparison of an int with a float ([None]: not comparable). *)
Definition compare_int_float (z : Z) (f : float) : option comparison :=
  match f with
  | S754_nan => None
  | S754_infinity s => Some (if s then Gt else Lt)
  | S754_zero _ => Some (z ?= 0)%Z
  | S754_finite s m e =>
      let v := if s then Z.neg m else Z.pos m in
      Some (if (0 <=? e)%Z then (z ?= v * 2 ^ e)%Z
            else (z * 2 ^ (- e) ?= v)%Z)
  end.

(** The operand of an arithmetic operator as a number: [bool] is a subclass
    of [int]. *)
Inductive number := NInt (z : Z) | NFloat (f : float).

Definition as_number (v : pyval) : option number :=
  match v with
  | PBool b => Some (NInt (if b then 1 else 0)%Z)
  | PInt z => Some (NInt z)
  | PFloat f => Some (NFloat f)
  | _ => None
  end.

Definition number_to_float (n : number) : result float :=
  match n with
  | NInt z => float_of_int z
  | NFloat f => Ok f
  end.

Definition arith (fz : Z -> Z -> Z) (ff : float -> float -> float)
    (a b : pyval) : result pyval :=
  match as_number a, as_number b with
  | Some (NInt x), Some (NInt y) => Ok (PInt (fz x y))
  | Some x, Some y =>
      let* fx := number_to_float x in
      let* fy := number_to_float y in
      Ok (PFloat (ff fx fy))
  | _, _ => Raise TypeError
  end.

(** [a + b] and [a - b].  Strings and lists concatenate with their own
    kind; every other pairing that is not numeric raises [TypeError]. *)
Definition py_add (a b : pyval) : result pyval :=
  match a, b with
  | PStr s, PStr t => Ok (PStr (s ++ t))
  | PList l, PList m => Ok (PList (l ++ m))
  | _, _ => arith Z.add (SFadd prec emax) a b
  end.

Definition py_sub (a b : pyval) : result pyval :=
  arith Z.sub (SFsub prec emax) a b.

(** [a / b]. *)
Definition py_truediv (a b : pyval) : result pyval :=
  match as_number a, as_number b with
  | Some (NInt x), Some (NInt y) => let* f := int_true_div x y in Ok (PFloat f)
  | Some x, Some y =>
      let* fx := number_to_float x in
      let* fy := number_to_float y in
      if float_is_zero fy then Raise ZeroDivisionError
      else Ok (PFloat (SFdiv prec emax fx fy))
  | _, _ => Raise TypeError
  end.

(** [a ** b] for an int base.  A non-negative int exponent gives an int; a
    negative or float exponent is computed by the C library's [pow]. *)
Definition py_pow (a b : pyval) : result pyval :=
  match as_number a, as_number b with
  | Some (NInt x), Some (NInt y) =>
      if (0 <=? y)%Z then Ok (PInt (x ^ y)) else Unmodelled
  | Some _, Some _ => Unmodelled
  | _, _ => Raise TypeError
  end.

(** The ordering of two values, for [<] and [>]: numbers with numbers
    (exactly, also across int and float), strings with strings. *)
Definition py_compare (a b : pyval) : result (option comparison) :=
  match a, b with
  | PStr s, PStr t => Ok (Some (String.compare s t))
  | PList _, PList _ => Unmodelled
  | _, _ =>
      match as_number a, as_number b with
      | Some (NInt x), Some (NInt y) => Ok (Some (x ?= y)%Z)
      | Some (NFloat x), Some (NFloat y) => Ok (SFcompare x y)
      | Some (NInt x), Some (NFloat y) => Ok (compare_int_float x y)
      | Some (NFloat x), Some (NInt y) => Ok (option_map CompOpp (compare_int_float y x))
      | _, _ => Raise TypeError
      end
  end.

Definition py_lt (a b : pyval) : result bool :=
  let* c := py_compare a b in
  Ok (match c with Some Lt => true | _ => false end).

Definition py_gt (a b : pyval) : result bool :=
  let* c := py_compare a b in
  Ok (match c with Some Gt => true | _ => false end).

(** *** Equality, truth and membership *)

(** [a == b].  Numbers compare by value across [bool], [int] and [float];
    lists compare element by element; dicts compare as maps. *)
Fixpoint py_eqb (a b : pyval) {struct a} : bool :=
  match a, b with
  | PNone, PNone => true
  | PStr s, PStr t => String.eqb s t
  | PList l, PList m =>
      (fix go (l m : list pyval) {struct l} : bool :=
         match l, m with
         | [], [] => true
         | x :: l', y :: m' => py_eqb x y && go l' m'
         | _, _ => false
         end) l m
  | PDict d, PDict d' =>
      Nat.eqb (List.length d) (List.length d') &&
      (fix go (d : list (string * pyval)) {struct d} : bool :=
         match d with
         | [] => true
         | (k, v) :: r =>
             match dict_get d' k with
             | Some v' => py_eqb v v' && go r
             | None => false
             end
         end) d
  | _, _ =>
      match as_number a, as_number b with
      | Some (NInt x), Some (NInt y) => (x =? y)%Z
      | Some (NFloat x), Some (NFloat y) => SFeqb x y
      | Some (NInt x), Some (NFloat y)
      | Some (NFloat y), Some (NInt x) =>
          match compare_int_float x y with Some Eq => true | _ => false end
      | _, _ => false
      end
  end.

(** [bool(v)]. *)
Definition py_truthy (v : pyval) : bool :=
  match v with
  | PNone => false
  | PBool b => b
  | PInt z => negb (z =? 0)%Z
  | PFloat f => negb (float_is_zero f)
  | PStr s => negb (String.eqb s "")
  | PList l => match l with [] => false | _ => true end
  | PDict d => match d with [] => false | _ => true end
  end.

Definition is_dict (v : pyval) : bool :=
  match v with PDict _ => true | _ => false end.
Definition is_str (v : pyval) : bool :=
  match v with PStr _ => true | _ => false end.
(** [isinstance(v, int)] holds of booleans too. *)
Definition is_int (v : pyval) : bool :=
  match v with PInt _ | PBool _ => true | _ => false end.
Definition is_none (v : pyval) : bool :=
  match v with PNone => true | _ => false end.
Definition hashable (v : pyval) : bool :=
  match v with PList _ | PDict _ => false | _ => true end.

(** [needle in hay] on strings. *)
Definition str_contains (needle hay : string) : bool :=
  match String.index 0 needle hay with Some _ => true | None => false end.

(** [v[k]] with a string key. *)
Definition py_getitem (v : pyval) (k : string) : result pyval :=
  match v with
  | PDict d => match dict_get d k with Some x => Ok x | None => Raise KeyError end
  | _ => Raise TypeError
  end.

(** [v.get(k, default)]. *)
Definition py_get (v : pyval) (k : string) (default : pyval) : result pyval :=
  match v with
  | PDict d => Ok (match dict_get d k with Some x => x | None => default end)
  | _ => Raise AttributeError
  end.

(** [k in v] with a string [k]. *)
Definition py_in (k : string) (v : pyval) : result bool :=
  match v with
  | PDict d => Ok (dict_has d k)
  | PList l => Ok (existsb (fun x => py_eqb x (PStr k)) l)
  | PStr s => Ok (str_contains k s)
  | _ => Raise TypeError
  end.

(** [x in c]. *)
Definition py_contains (x : pyval) (c : pyval) : result bool :=
  match c with
  | PList l => Ok (existsb (fun y => py_eqb y x) l)
  | PDict d =>
      if hashable x
      then Ok (match x with PStr k => dict_has d k | _ => false end)
      else Raise TypeError
  | PStr s =>
      match x with
      | PStr k => Ok (str_contains k s)
      | _ => Raise TypeError
      end
  | _ => Raise TypeError
  end.

(** [k in v.keys()]. *)
Definition py_in_keys (k : string) (v : pyval) : result bool :=
  match v with
  | PDict d => Ok (dict_has d k)
  | _ => Raise AttributeError
  end.

Definition string_chars (s : string) : list pyval :=
  List.map (fun c => PStr (String c EmptyString)) (list_ascii_of_string s).

(** The items a [for] loop over [v] visits. *)
Definition py_iter (v : pyval) : result (list pyval) :=
  match v with
  | PList l => Ok l
  | PDict d => Ok (List.map (fun kv => PStr (fst kv)) d)
  | PStr s => Ok (string_chars s)
  | _ => Raise TypeError
  end.

(** [x in l] for a list [l]. *)
Definition list_contains (x : pyval) (l : list pyval) : bool :=
  existsb (fun y => py_eqb y x) l.

(** [l.remove(x)], where [x in l] has been checked: the first equal item goes. *)
Fixpoint list_remove (x : pyval) (l : list pyval) : list pyval :=
  match l with
  | [] => []
  | y :: r => if py_eqb y x then r else y :: list_remove x r
  end.

(** [s[:n]] and [s[n:]] for an int [n], negative counts from the end. *)
Definition str_take (n : Z) (s : string) : string :=
  let len := Z.of_nat (String.length s) in
  let n' := if (n <? 0)%Z then Z.max 0 (len + n) else n in
  String.substring 0 (Z.to_nat n') s.

Definition str_drop (n : Z) (s : string) : string :=
  let len := Z.of_nat (String.length s) in
  let n' := if (n <? 0)%Z then Z.max 0 (len + n) else n in
  String.substring (Z.to_nat n') (String.length s - Z.to_nat n') s.

(** [s.find(sub)]. *)
Definition str_find (sub s : string) : Z :=
  match String.index 0 sub s with
  | Some i => Z.of_nat i
  | None => (-1)%Z
  end.

End Py.

(** ** The path expressions of [jsonpath_rw]

    The library is not part of the repository; what the index uses of it is
    embedded here from its source: the descendant search [$..name], the
    wildcard [[*]], and the evaluation of a dotted path string. *)

Module JsonPath.
Import Py.

Inductive step :=
| Fields (name : string)
| Index (i : nat).

Definition string_of_nat (n : nat) : string :=
  NilEmpty.string_of_uint (Nat.to_uint n).

(** [str(path)]: a field prints as its name, an index as [[i]], and a child
    path as [left.right]. *)
Definition step_str (s : step) : string :=
  match s with
  | Fields name => name
  | Index i => "[" ++ string_of_nat i ++ "]"
  end.

Definition path_str (p : list step) : string :=
  String.concat "." (List.map step_str p).

(** A match: the full path from the root, and the value found there. *)
Definition jmatch : Type := list step * pyval.

(** [Fields(name).find]: a dict that has the key; indexing anything else
    raises inside the library and yields no match. *)
Definition fields_find (name : string) (m : jmatch) : list jmatch :=
  match snd m with
  | PDict d =>
      match dict_get d name with
      | Some x => [(fst m ++ [Fields name], x)]
      | None => []
      end
  | _ => []
  end.

(** [Descendants.find]'s [match_recursively]: the match at the node itself,
    then the matches below each item or field, in document order. *)
Fixpoint match_recursively (name : string) (p : list step) (v : pyval)
    {struct v} : list jmatch :=
  fields_find name (p, v) ++
  match v with
  | PList l =>
      (fix items (i : nat) (l : list pyval) {struct l} : list jmatch :=
         match l with
         | [] => []
         | x :: r => match_recursively name (p ++ [Index i]) x ++ items (S i) r
         end) 0%nat l
  | PDict d =>
      (fix fields (d : list (string * pyval)) {struct d} : list jmatch :=
         match d with
         | [] => []
         | (k, x) :: r => match_recursively name (p ++ [Fields k]) x ++ fields r
         end) d
  | _ => []
  end.

(** [parse("$..name").find(doc)]. *)
Definition find_descendants (name : string) (doc : pyval) : list jmatch :=
  match_recursively name [] doc.

Fixpoint enumerate_from (i : nat) (p : list step) (l : list pyval) : list jmatch :=
  match l with
  | [] => []
  | x :: r => (p ++ [Index i], x) :: enumerate_from (S i) p r
  end.

(** [Slice().find] for [[*]]: a dict, an int or a string is first wrapped
    in a one-item list; a list gives its items; [len] of anything else
    raises. *)
Definition slice_find (m : jmatch) : result (list jmatch) :=
  match snd m with
  | PList l => Ok (enumerate_from 0 (fst m) l)
  | PDict _ | PInt _ | PBool _ | PStr _ => Ok [(fst m ++ [Index 0], snd m)]
  | PNone | PFloat _ => Raise TypeError
  end.

(** [Index(i).find]: [if datum.value and len(datum.value) > i]. *)
Definition index_find (i : nat) (m : jmatch) : result (list jmatch) :=
  if negb (py_truthy (snd m)) then Ok [] else
  match snd m with
  | PList l =>
      match nth_error l i with
      | Some x => Ok [(fst m ++ [Index i], x)]
      | None => Ok []
      end
  | PStr s =>
      match String.get i s with
      | Some c => Ok [(fst m ++ [Index i], PStr (String c EmptyString))]
      | None => Ok []
      end
  | PDict d => if (i <? List.length d)%nat then Raise KeyError else Ok []
  | _ => Raise TypeError
  end.

Definition step_find (s : step) (m : jmatch) : result (list jmatch) :=
  match s with
  | Fields name => Ok (fields_find name m)
  | Index i => index_find i m
  end.

(** [Child(left, right).find]: the right matches of every left match. *)
Definition child_find (f : jmatch -> result (list jmatch)) (ms : list jmatch)
    : result (list jmatch) :=
  let* mss := mapM f ms in Ok (List.concat mss).

Fixpoint steps_find (p : list step) (ms : list jmatch) : result (list jmatch) :=
  match p with
  | [] => Ok ms
  | s :: r => let* ms' := child_find (step_find s) ms in steps_find r ms'
  end.

(** *** Parsing a dotted path string *)

(** [s.split(".")]. *)
Fixpoint split_dot_aux (acc : string) (s : string) : list string :=
  match s with
  | EmptyString => [acc]
  | String c r =>
      if Ascii.eqb c "."%char then acc :: split_dot_aux "" r
      else split_dot_aux (acc ++ String c "") r
  end.
Definition split_dot (s : string) : list string := split_dot_aux "" s.

Definition is_digit (c : ascii) : bool :=
  let n := nat_of_ascii c in (48 <=? n)%nat && (n <=? 57)%nat.
Definition digit_value (c : ascii) : nat := nat_of_ascii c - 48.

(** The lexer's identifiers: [@?[a-zA-Z_][a-zA-Z0-9_@\-]*]. *)
Definition is_id_start (c : ascii) : bool :=
  let n := nat_of_ascii c in
  ((65 <=? n)%nat && (n <=? 90)%nat) || ((97 <=? n)%nat && (n <=? 122)%nat)
  || (n =? 95)%nat.
Definition is_id_char (c : ascii) : bool :=
  is_id_start c || is_digit c || (nat_of_ascii c =? 45)%nat
  || (nat_of_ascii c =? 64)%nat.

(** Words the lexer reads as something else than a field name. *)
Definition is_reserved (seg : string) : bool :=
  String.eqb seg "where" || String.prefix "true" seg || String.prefix "false" seg.

Fixpoint all_chars (f : ascii -> bool) (s : string) : bool :=
  match s with
  | EmptyString => true
  | String c r => f c && all_chars f r
  end.

Fixpoint digits_value (acc : nat) (s : string) : nat :=
  match s with
  | EmptyString => acc
  | String c r => digits_value (10 * acc + digit_value c) r
  end.

(** One segment between dots.  An identifier is a field and [[digits]] is
    an index.  An opening bracket and digits with no closing bracket before
    the next dot is a syntax error of the grammar; the rest of the path
    language (wildcards, slices, filters, quoted fields) is not embedded. *)
Definition parse_segment (seg : string) : result step :=
  match seg with
  | String "[" r =>
      let n := String.length r in
      let body := String.substring 0 (n - 1) r in
      let last := String.substring (n - 1) 1 r in
      if negb (String.eqb r "") && all_chars is_digit r then Raise JsonPathParseError
      else if String.eqb last "]" && negb (String.eqb body "") && all_chars is_digit body
      then Ok (Index (digits_value 0 body))
      else Unmodelled
  | String c r =>
      if is_id_start c && all_chars is_id_char r && negb (is_reserved seg)
      then Ok (Fields seg)
      else Unmodelled
  | EmptyString => Unmodelled
  end.

Definition parse_path (s : string) : result (list step) :=
  mapM parse_segment (split_dot s).

(** [jp.match1(pattern, data)]: the first value matched, or [None]. *)
Definition match1 (pattern : string) (data : pyval) : result pyval :=
  let* p := parse_path pattern in
  let* ms := steps_find p [([], data)] in
  Ok (match ms with m :: _ => snd m | [] => PNone end).

End JsonPath.

(** ** [QuestionnaireSchema]: the schema index *)

Module QuestionnaireSchema.
Import Py JsonPath.

(** A Python dict with arbitrary hashable keys, in insertion order. *)
Section PyDict.
Context {V : Type}.

Fixpoint pydict_get (d : list (pyval * V)) (k : pyval) : option V :=
  match d with
  | [] => None
  | (k', v) :: r => if py_eqb k' k then Some v else pydict_get r k
  end.

(** [d[k] = v]: an existing key keeps its place. *)
Fixpoint pydict_set (d : list (pyval * V)) (k : pyval) (v : V) : list (pyval * V) :=
  match d with
  | [] => [(k, v)]
  | (k', v') :: r =>
      if py_eqb k' k then (k', v) :: r else (k', v') :: pydict_set r k v
  end.

Definition pydict_store (d : list (pyval * V)) (k : pyval) (v : V)
    : result (list (pyval * V)) :=
  if hashable k then Ok (pydict_set d k v) else Raise TypeError.

(** [d[k]]. *)
Definition pydict_getitem (d : list (pyval * V)) (k : pyval) : result V :=
  if hashable k then
    match pydict_get d k with Some v => Ok v | None => Raise KeyError end
  else Raise TypeError.
End PyDict.

(** [jp.match(pattern, data)] keeps the values of the matches. *)
Definition values (ms : list jmatch) : list pyval := List.map snd ms.

(** The attributes [__init__] sets that the methods below read.
    [sub_block_ids] and [list_names] are computed by searches that cannot
    raise, and no method of the class reads them. *)
Record t := {
  schema : pyval;
  blocks : list pyval;
  blocks_by_id : list (pyval * pyval);
  block_ids : list pyval;
  section_ids : list pyval;
  group_ids : list pyval;
}.

Definition __init__ (schema : pyval) : result t :=
  (* jp.match("$..blocks[*]", self.schema) *)
  let* blocks := child_find slice_find (find_descendants "blocks" schema) in
  let blocks := values blocks in
  (* {block["id"]: block for block in self.blocks} *)
  let* blocks_by_id :=
    foldM (fun d block =>
             let* k := py_getitem block "id" in
             pydict_store d k block) blocks [] in
  let block_ids := List.map fst blocks_by_id in
  (* jp.match("$.sections[*].id", self.schema) *)
  let* sections := child_find slice_find (fields_find "sections" ([], schema)) in
  let section_ids := values (List.concat (List.map (fields_find "id") sections)) in
  (* jp.match("$..groups[*].id", self.schema) *)
  let* groups := child_find slice_find (find_descendants "groups" schema) in
  let group_ids := values (List.concat (List.map (fields_find "id") groups)) in
  Ok {| schema := schema; blocks := blocks; blocks_by_id := blocks_by_id;
        block_ids := block_ids; section_ids := section_ids;
        group_ids := group_ids |}.

(** *** Path helpers *)

(** [int(s)] for a slice of at most one character. *)
Definition int_of_char_string (s : string) : result nat :=
  match s with
  | String c EmptyString => if is_digit c then Ok (digit_value c) else Raise ValueError
  | _ => Raise ValueError
  end.

Definition get_key_index_from_path (key path : string) : result nat :=
  let position := (str_find key path + Z.of_nat (String.length (key ++ ".[")))%Z in
  int_of_char_string (String.substring (Z.to_nat position) 1 path).

Definition get_element_path (key path : string) : string :=
  let position := str_find key path in
  str_take (position + Z.of_nat (String.length (key ++ ".[0]"))) path.

Definition get_path_id (self : t) (path : string) : result pyval :=
  match1 (path ++ ".id") (schema self).

Record context := {
  section : pyval;
  block : pyval;
  group_id : pyval;
}.

Definition sub_block_keys : list string :=
  ["add_block"; "edit_block"; "add_or_edit_block"; "remove_block"].

(** [l[i]] for a list. *)
Definition list_getitem (l : list pyval) (i : nat) : result pyval :=
  match nth_error l i with
  | Some x => Ok x
  | None => Raise IndexError
  end.

Definition get_context_from_path (self : t) (full_path : string) : result context :=
  let* section_index := get_key_index_from_path "sections" full_path in
  let block_path := get_element_path "blocks" full_path in
  let group_path := get_element_path "groups" full_path in
  let* group_id := get_path_id self group_path in
  let* block_id := get_path_id self block_path in
  let* block_id :=
    if existsb (fun sub_block => str_contains sub_block full_path) sub_block_keys
    then
      let key_path := str_drop (Z.of_nat (String.length block_path) + 1) full_path in
      let key := str_take (str_find ".question" key_path) key_path in
      let* b := pydict_getitem (blocks_by_id self) block_id in
      let* sub := py_getitem b key in
      py_getitem sub "id"
    else Ok block_id in
  let* section := list_getitem (section_ids self) section_index in
  Ok {| section := section; block := block_id; group_id := group_id |}.

(** *** Cached properties

    [cached_property] stores what the decorated function returns the first
    time the attribute is read.  For [questions_with_context], [id_paths]
    and [answers] that is a generator object: every later read gives the
    same object, and a generator yields each item once.  Every consumer in
    the class is a [for] loop that runs to the end, so a cached generator
    is either not yet started or exhausted. *)
Inductive generator := Fresh | Exhausted.

Record caches := {
  questions_with_context_gen : generator;
  id_paths_gen : generator;
  answers_gen : generator;
  ids_cache : option (list pyval);
  answers_with_context_cache : option (list (pyval * (pyval * context)));
}.

Definition fresh : caches :=
  {| questions_with_context_gen := Fresh; id_paths_gen := Fresh;
     answers_gen := Fresh; ids_cache := None;
     answers_with_context_cache := None |}.

(** What the body of [questions_with_context] yields when run to the end. *)
Definition questions_with_context_items (self : t) : result (list (pyval * context)) :=
  mapM (fun m : jmatch =>
          let* c := get_context_from_path self (path_str (fst m)) in
          Ok (snd m, c))
       (find_descendants "question" (schema self)).

(** [for question, context in self.questions_with_context]. *)
Definition questions_with_context (self : t) (st : caches)
    : result (list (pyval * context) * caches) :=
  match questions_with_context_gen st with
  | Exhausted => Ok ([], st)
  | Fresh =>
      let* items := questions_with_context_items self in
      Ok (items,
          {| questions_with_context_gen := Exhausted;
             id_paths_gen := id_paths_gen st;
             answers_gen := answers_gen st;
             ids_cache := ids_cache st;
             answers_with_context_cache := answers_with_context_cache st |})
  end.

(** [for answer in self.answers]: the body of [answers] reads
    [self.questions_with_context] when it starts. *)
Definition answers (self : t) (st : caches) : result (list pyval * caches) :=
  match answers_gen st with
  | Exhausted => Ok ([], st)
  | Fresh =>
      let* '(questions, st) := questions_with_context self st in
      let* per_question :=
        mapM (fun qc : pyval * context =>
                let* a := py_getitem (fst qc) "answers" in py_iter a) questions in
      Ok (List.concat per_question,
          {| questions_with_context_gen := questions_with_context_gen st;
             id_paths_gen := id_paths_gen st;
             answers_gen := Exhausted;
             ids_cache := ids_cache st;
             answers_with_context_cache := answers_with_context_cache st |})
  end.

Definition add_detail_answers (c : context) (d : list (pyval * (pyval * context)))
    (option : pyval) : result (list (pyval * (pyval * context))) :=
  let* detail_answer := py_get option "detail_answer" PNone in
  if py_truthy detail_answer then
    let* k := py_getitem detail_answer "id" in
    pydict_store d k (detail_answer, c)
  else Ok d.

Definition add_answer (c : context) (d : list (pyval * (pyval * context)))
    (answer : pyval) : result (list (pyval * (pyval * context))) :=
  let* k := py_getitem answer "id" in
  let* d := pydict_store d k (answer, c) in
  let* options := py_get answer "options" (PList []) in
  let* options := py_iter options in
  foldM (add_detail_answers c) options d.

Definition add_question (d : list (pyval * (pyval * context)))
    (qc : pyval * context) : result (list (pyval * (pyval * context))) :=
  let* answers := py_get (fst qc) "answers" (PList []) in
  let* answers := py_iter answers in
  foldM (add_answer (snd qc)) answers d.

(** [self.answers_with_context]: a dict, computed on the first read. *)
Definition answers_with_context (self : t) (st : caches)
    : result (list (pyval * (pyval * context)) * caches) :=
  match answers_with_context_cache st with
  | Some d => Ok (d, st)
  | None =>
      let* '(questions, st) := questions_with_context self st in
      let* d := foldM add_question questions [] in
      Ok (d,
          {| questions_with_context_gen := questions_with_context_gen st;
             id_paths_gen := id_paths_gen st;
             answers_gen := answers_gen st;
             ids_cache := ids_cache st;
             answers_with_context_cache := Some d |})
  end.

(** *** The generic walk over [id] fields *)

(** Adjacent string literals concatenate: the first item of the list in the
    source is ["routing_rules" "skip_conditions"], one string. *)
Definition ignored_paths : list string :=
  [ ("routing_rules" ++ "skip_conditions")%string;
    "when";
    "edit_block.question.answers";
    "add_block.question.answers";
    "remove_block.question.answers";
    "edit_block.question_variants.answers";
    "add_block.question_variants.answers";
    "remove_block.question_variants.answers" ].

Definition is_ignored (full_path : string) : bool :=
  existsb (fun ignored_path => str_contains ignored_path full_path) ignored_paths.

(** What the body of [id_paths] yields when run to the end. *)
Definition id_paths_items (self : t) : list (string * pyval) :=
  flat_map (fun m : jmatch =>
              let full_path := path_str (fst m) in
              if negb (is_ignored full_path)
              then [(str_take (-3) full_path, snd m)]
              else [])
           (find_descendants "id" (schema self)).

Definition id_paths (self : t) (st : caches) : list (string * pyval) * caches :=
  match id_paths_gen st with
  | Exhausted => ([], st)
  | Fresh =>
      (id_paths_items self,
       {| questions_with_context_gen := questions_with_context_gen st;
          id_paths_gen := Exhausted;
          answers_gen := answers_gen st;
          ids_cache := ids_cache st;
          answers_with_context_cache := answers_with_context_cache st |})
  end.

(** [l.index(x)] on a list of strings. *)
Fixpoint list_index (x : string) (l : list string) : result nat :=
  match l with
  | [] => Raise ValueError
  | y :: r => if String.eqb y x then Ok 0%nat
              else let* i := list_index x r in Ok (S i)
  end.

(** [s.add(x)]: a set is kept as the list of its members in the order they
    were first added; the order in which Python iterates a set is not
    specified, so only membership in the result is meaningful. *)
Definition set_add (s : list pyval) (x : pyval) : list pyval :=
  if list_contains x s then s else s ++ [x].

Fixpoint defaultdict_add (d : list (string * list pyval)) (k : string) (x : pyval)
    : list (string * list pyval) :=
  match d with
  | [] => [(k, set_add [] x)]
  | (k', s) :: r =>
      if String.eqb k' k then (k', set_add s x) :: r
      else (k', s) :: defaultdict_add r k x
  end.

(** One turn of the loop of [ids]. *)
Definition ids_step (acc : list (string * list pyval) * list pyval)
    (pv : string * pyval) : result (list (string * list pyval) * list pyval) :=
  let '(unique_ids_per_block, non_block_ids) := acc in
  let '(path, value) := pv in
  if str_contains "blocks" path then
    let path_list := split_dot path in
    let* i := list_index "blocks" path_list in
    let block_path := firstn (i + 2) path_list in
    let string_path := String.concat "." block_path in
    if hashable value
    then Ok (defaultdict_add unique_ids_per_block string_path value, non_block_ids)
    else Raise TypeError
  else Ok (unique_ids_per_block, non_block_ids ++ [value]).

Definition ids_of (items : list (string * pyval)) : result (list pyval) :=
  let* '(unique_ids_per_block, non_block_ids) := foldM ids_step items ([], []) in
  Ok (List.concat (List.map snd unique_ids_per_block) ++ non_block_ids).

(** [self.ids]: a list, computed on the first read from [self.id_paths]. *)
Definition ids (self : t) (st : caches) : result (list pyval * caches) :=
  match ids_cache st with
  | Some l => Ok (l, st)
  | None =>
      let '(items, st) := id_paths self st in
      let* all_ids := ids_of items in
      Ok (all_ids,
          {| questions_with_context_gen := questions_with_context_gen st;
             id_paths_gen := id_paths_gen st;
             answers_gen := answers_gen st;
             ids_cache := Some all_ids;
             answers_with_context_cache := answers_with_context_cache st |})
  end.

End QuestionnaireSchema.

(** ** Dates: [datetime.strptime] and [dateutil.relativedelta]

    Only the two formats and the three offset fields the validator uses.
    Every [datetime] here is at midnight, so one is kept as its proleptic
    Gregorian ordinal (day 1 is 0001-01-01), which orders them. *)

Module Dates.
Import Py JsonPath.
Local Open Scope Z_scope.

Definition is_leap (y : Z) : bool :=
  ((y mod 4 =? 0) && negb (y mod 100 =? 0)) || (y mod 400 =? 0).

Definition days_in_month (y m : Z) : Z :=
  if m =? 2 then (if is_leap y then 29 else 28)
  else if (m =? 4) || (m =? 6) || (m =? 9) || (m =? 11) then 30
  else 31.

Definition days_before_year (y : Z) : Z :=
  let p := y - 1 in p * 365 + p / 4 - p / 100 + p / 400.

Fixpoint days_before_month_aux (y : Z) (n : nat) : Z :=
  match n with
  | O => 0
  | S k => days_before_month_aux y k + days_in_month y (Z.of_nat (S k))
  end.

Definition days_before_month (y m : Z) : Z :=
  days_before_month_aux y (Z.to_nat (m - 1)).

Definition MINYEAR : Z := 1.
Definition MAXYEAR : Z := 9999.
Definition MAXORDINAL : Z := 3652059.

(** A date as [strptime] builds it. *)
Record ymd := { year : Z; month : Z; day : Z }.

(** [datetime(year, month, day)]: [ValueError] when a field is out of range. *)
Definition make_date (y m d : Z) : result ymd :=
  if (MINYEAR <=? y) && (y <=? MAXYEAR) && (1 <=? m) && (m <=? 12)
     && (1 <=? d) && (d <=? days_in_month y m)
  then Ok {| year := y; month := m; day := d |}
  else Raise ValueError.

Definition toordinal (y m d : Z) : Z :=
  days_before_year y + days_before_month y m + d.

Definition digit_z (c : ascii) : Z := Z.of_nat (digit_value c).

(** The ways the directive's pattern matches at the head of the input, in
    the order the regular expression tries them, each with the rest. *)
Definition match_Y (s : list ascii) : list (Z * list ascii) :=
  match s with
  | a :: b :: c :: d :: r =>
      if is_digit a && is_digit b && is_digit c && is_digit d
      then [(1000 * digit_z a + 100 * digit_z b + 10 * digit_z c + digit_z d, r)]
      else []
  | _ => []
  end.

Definition in_range (lo hi : nat) (c : ascii) : bool :=
  let n := digit_value c in is_digit c && (lo <=? n)%nat && (n <=? hi)%nat.

(** [%m]: [1[0-2]|0[1-9]|[1-9]]. *)
Definition match_m (s : list ascii) : list (Z * list ascii) :=
  (match s with
   | a :: b :: r =>
       (if in_range 1 1 a && in_range 0 2 b then [(10 + digit_z b, r)] else []) ++
       (if in_range 0 0 a && in_range 1 9 b then [(digit_z b, r)] else [])
   | _ => []
   end) ++
  (match s with
   | a :: r => if in_range 1 9 a then [(digit_z a, r)] else []
   | _ => []
   end).

(** [%d]: [3[0-1]|[1-2]\d|0[1-9]|[1-9]| [1-9]]. *)
Definition match_d (s : list ascii) : list (Z * list ascii) :=
  (match s with
   | a :: b :: r =>
       (if in_range 3 3 a && in_range 0 1 b then [(30 + digit_z b, r)] else []) ++
       (if in_range 1 2 a && is_digit b then [(10 * digit_z a + digit_z b, r)] else []) ++
       (if in_range 0 0 a && in_range 1 9 b then [(digit_z b, r)] else [])
   | _ => []
   end) ++
  (match s with
   | a :: r => if in_range 1 9 a then [(digit_z a, r)] else []
   | _ => []
   end) ++
  (match s with
   | a :: b :: r =>
       if Ascii.eqb a " "%char && in_range 1 9 b then [(digit_z b, r)] else []
   | _ => []
   end).

Definition match_dash (s : list ascii) : list (list ascii) :=
  match s with
  | c :: r => if Ascii.eqb c "-"%char then [r] else []
  | [] => []
  end.

(** [datetime.strptime(s, "%Y-%m")]: the first match of the pattern must
    use the whole string. *)
Definition strptime_Ym (s : string) : result ymd :=
  let matches :=
    flat_map (fun '(y, r1) =>
      flat_map (fun r2 =>
        List.map (fun '(m, r3) => (y, m, r3)) (match_m r2))
        (match_dash r1))
      (match_Y (list_ascii_of_string s)) in
  match matches with
  | (y, m, []) :: _ => make_date y m 1
  | _ => Raise ValueError
  end.

(** [datetime.strptime(s, "%Y-%m-%d")]. *)
Definition strptime_Ymd (s : string) : result ymd :=
  let matches :=
    flat_map (fun '(y, r1) =>
      flat_map (fun r2 =>
        flat_map (fun '(m, r3) =>
          flat_map (fun r4 =>
            List.map (fun '(d, r5) => (y, m, d, r5)) (match_d r4))
            (match_dash r3))
          (match_m r2))
        (match_dash r1))
      (match_Y (list_ascii_of_string s)) in
  match matches with
  | (y, m, d, []) :: _ => make_date y m d
  | _ => Raise ValueError
  end.

(** [re.match(r"\d{4}-\d{2}-\d{2}", s)]. *)
Definition looks_like_Ymd (s : string) : bool :=
  match list_ascii_of_string s with
  | y1 :: y2 :: y3 :: y4 :: d1 :: m1 :: m2 :: d2 :: a :: b :: _ =>
      is_digit y1 && is_digit y2 && is_digit y3 && is_digit y4
      && Ascii.eqb d1 "-"%char && is_digit m1 && is_digit m2
      && Ascii.eqb d2 "-"%char && is_digit a && is_digit b
  | _ => false
  end.

(** [relativedelta] first checks [years] and [months] with
    [x is not None and x != int(x)], then stores [int(years)],
    [int(months)] and [days + weeks * 7] (with [weeks = 0]). *)
Definition check_integer (v : pyval) : result unit :=
  match v with
  | PNone | PInt _ | PBool _ => Ok tt
  | PFloat _ => Unmodelled
  | PStr _ => Raise ValueError
  | PList _ | PDict _ => Raise TypeError
  end.

Definition int_argument (v : pyval) : result Z :=
  match v with
  | PInt z => Ok z
  | PBool b => Ok (if b then 1 else 0)
  | PFloat _ => Unmodelled
  | PStr _ => Raise ValueError
  | PNone | PList _ | PDict _ => Raise TypeError
  end.

Definition days_argument (v : pyval) : result Z :=
  match v with
  | PInt z => Ok z
  | PBool b => Ok (if b then 1 else 0)
  | PFloat _ => Unmodelled
  | _ => Raise TypeError
  end.

Record relativedelta := { years : Z; months : Z; days : Z }.

(** [relativedelta(years=.., months=.., days=..)], with [_fix]'s carry of
    whole years out of the months. *)
Definition make_relativedelta (y m d : pyval) : result relativedelta :=
  let* _ := check_integer y in
  let* _ := check_integer m in
  let* y := int_argument y in
  let* m := int_argument m in
  let* d := days_argument d in
  if 11 <? Z.abs m then
    let s := Z.sgn m in
    Ok {| years := y + (m * s / 12) * s; months := (m * s mod 12) * s; days := d |}
  else Ok {| years := y; months := m; days := d |}.

(** [dt + relativedelta]: the years and months move the date, the day is
    cut to the length of the month reached, then the days are added as a
    [timedelta]. *)
Definition add_relativedelta (dt : ymd) (rd : relativedelta) : result Z :=
  let y := year dt + years rd in
  let m := month dt + months rd in
  let '(y, m) :=
    if 12 <? m then (y + 1, m - 12)
    else if m <? 1 then (y - 1, m + 12)
    else (y, m) in
  if negb ((MINYEAR <=? y) && (y <=? MAXYEAR)) then Raise ValueError else
  let d := Z.min (days_in_month y m) (day dt) in
  if 999999999 <? Z.abs (days rd) then Raise OverflowError else
  let o := toordinal y m d + days rd in
  if (1 <=? o) && (o <=? MAXORDINAL) then Ok o else Raise OverflowError.

End Dates.

(** ** [AnswerValidator]: the range resolver and the rule checks *)

Module AnswerValidator.
Import Py.

Definition MAX_NUMBER : Z := 9999999999.
Definition MIN_NUMBER : Z := -999999999.
Definition MAX_DECIMAL_PLACES : Z := 6.

Definition DECIMAL_PLACES_UNDEFINED := "'decimal_places' must be defined and set to 2".
Definition DECIMAL_PLACES_TOO_LONG := "Number of decimal places is greater than system limit".
Definition INVALID_OFFSET_DATE :=
  "The minimum offset date is greater than the maximum offset date".
Definition INVALID_SUGGESTION_URL := "Suggestions url is invalid".
Definition LIST_NAME_MISSING := "List name defined in action params does not exist".
Definition BLOCK_ID_MISSING := "Block id defined in action params does not exist".
Definition VALUE_MISMATCH := "Found mismatching answer value".
Definition DEFAULT_ON_MANDATORY := "Default is being used with a mandatory answer".
Definition MINIMUM_LESS_THAN_LIMIT := "Minimum value is less than system limit".
Definition MAXIMUM_GREATER_THAN_LIMIT := "Maximum value is greater than system limit".

(** A message: [template.format( *args )], with the rendering of the
    arguments left to Python; a constant message has no argument. *)
Record text := Format { template : string; args : list pyval }.

Definition DUPLICATE_LABEL := "Duplicate label found - {}".
Definition DUPLICATE_VALUE := "Duplicate value found - {}".
Definition MISMATCH_TEMPLATE :=
  "Found mismatching answer value for label: {} in answer id: {}".
Definition DEFAULT_ROUTE_TEMPLATE :=
  "Default route not defined for optional question [{}]".
Definition UNROUTED_TEMPLATE :=
  "Routing rule not defined for all answers or default not defined for answer [{}] missing options {}".
(** The double quote character, which the next templates contain. *)
Definition quote : string := String (ascii_of_nat 34) EmptyString.
Definition REFERRED_MINIMUM_TEMPLATE : string :=
  "The referenced answer " ++ quote ++ "{}" ++ quote
  ++ " can not be used to set the minimum of answer " ++ quote ++ "{}" ++ quote.
Definition REFERRED_MAXIMUM_TEMPLATE : string :=
  "The referenced answer " ++ quote ++ "{}" ++ quote
  ++ " can not be used to set the maximum of answer " ++ quote ++ "{}" ++ quote.
Definition INVALID_RANGE_TEMPLATE : string :=
  "Invalid range of min = {} and max = {} is possible for answer " ++ quote ++ "{}"
  ++ quote ++ ".".
Definition GREATER_DECIMALS_TEMPLATE : string :=
  "The referenced answer " ++ quote ++ "{}" ++ quote
  ++ " has a greater number of decimal places than answer " ++ quote ++ "{}" ++ quote.

(** An item of [self.errors]: [{"message": message, **context}]. *)
Record error := {
  message : text;
  context : list (string * pyval);
}.

(** The attributes [__init__] stores; [self.errors] is threaded through the
    methods that append to it. *)
Record t := {
  answer : pyval;
  block : pyval;
  list_names : pyval;
  block_ids : pyval;
}.

Definition __init__ (schema_element block list_names block_ids : pyval) : t :=
  {| answer := schema_element; block := block;
     list_names := list_names; block_ids := block_ids |}.

(** [self.options]: [self.answer.get("options", [])]. *)
Definition options (self : t) : result pyval :=
  py_get (answer self) "options" (PList []).

Definition add_error (self : t) (message : string) (context : list (string * pyval))
    (errors : list error) : result (list error) :=
  let* id := py_getitem (answer self) "id" in
  Ok (errors ++ [ {| message := Format message [];
                     context := context ++ [("id", id)] |} ]).

(** [self.add_error(template.format( *args ))]. *)
Definition add_error_text (self : t) (message : text) (errors : list error)
    : result (list error) :=
  let* id := py_getitem (answer self) "id" in
  Ok (errors ++ [ {| message := message; context := [("id", id)] |} ]).

(** *** Checks on the options *)

(** [x in s] and [s.add(x)] for a set: the item must be hashable. *)
Definition set_contains (s : list pyval) (x : pyval) : result bool :=
  if hashable x then Ok (list_contains x s) else Raise TypeError.

(** One turn of the loop of [_validate_duplicate_options] over the local
    [errors], [labels] and [values]. *)
Definition duplicate_options_step (acc : list text * list pyval * list pyval)
    (option : pyval) : result (list text * list pyval * list pyval) :=
  let '(errors, labels, values) := acc in
  let* label := py_getitem option "label" in
  if is_dict label then Ok acc else
  let* seen := set_contains labels label in
  let errors := if seen then errors ++ [Format DUPLICATE_LABEL [label]] else errors in
  let* value := py_getitem option "value" in
  let* seen := set_contains values value in
  let errors := if seen then errors ++ [Format DUPLICATE_VALUE [value]] else errors in
  Ok (errors, labels ++ [label], values ++ [value]).

Definition _validate_duplicate_options (self : t) : result (list text) :=
  let* options := options self in
  let* options := py_iter options in
  let* '(errors, _, _) := foldM duplicate_options_step options ([], [], []) in
  Ok errors.

Definition labels_and_values_step (self : t) (errors : list text) (option : pyval)
    : result (list text) :=
  let* label := py_getitem option "label" in
  let* plural := py_in "text_plural" label in
  if plural then Ok errors else
  let* label := if is_str label then Ok label else py_getitem label "text" in
  let* value := py_getitem option "value" in
  if negb (py_eqb label value) then
    let* id := py_getitem (answer self) "id" in
    Ok (errors ++ [Format MISMATCH_TEMPLATE [label; id]])
  else Ok errors.

Definition validate_labels_and_values_match (self : t) : result (list text) :=
  let* options := options self in
  let* options := py_iter options in
  foldM (labels_and_values_step self) options [].

Definition are_decimal_places_valid (self : t) : result bool :=
  let* calculated := py_in "calculated" (answer self) in
  if calculated then
    let* present := py_in "decimal_places" (answer self) in
    if present then
      let* d := py_getitem (answer self) "decimal_places" in
      Ok (py_eqb d (PInt 2))
    else Ok false
  else Ok true.

Definition answer_actions_step (self : t) (errors : list error) (option : pyval)
    : result (list error) :=
  let* action := py_get option "action" (PDict []) in
  let* action_params := py_get action "params" PNone in
  if negb (py_truthy action_params) then Ok errors else
  let* list_name := py_get action_params "list_name" PNone in
  let* errors :=
    if py_truthy list_name then
      let* known := py_contains list_name (list_names self) in
      if negb known
      then add_error self LIST_NAME_MISSING [("list_name", list_name)] errors
      else Ok errors
    else Ok errors in
  let* block_id := py_get action_params "block_id" PNone in
  if py_truthy block_id then
    let* known := py_contains block_id (block_ids self) in
    if negb known
    then add_error self BLOCK_ID_MISSING [("block_id", block_id)] errors
    else Ok errors
  else Ok errors.

Definition _validate_answer_actions (self : t) (errors : list error)
    : result (list error) :=
  let* options := options self in
  let* options := py_iter options in
  foldM (answer_actions_step self) options errors.

(** *** Routing over the options *)

(** ["goto" in rule and "when" in rule["goto"].keys()]. *)
Definition has_when (rule : pyval) : result bool :=
  let* goto := py_in "goto" rule in
  if goto then
    let* g := py_getitem rule "goto" in py_in_keys "when" g
  else Ok false.

(** The loop of [has_default_route] returns at the first rule without a
    [when]. *)
Fixpoint has_default_route_rules (rules : list pyval) : result bool :=
  match rules with
  | [] => Ok false
  | rule :: r =>
      let* w := has_when rule in
      if negb w then Ok true else has_default_route_rules r
  end.

Definition has_default_route (self : t) : result bool :=
  let* rules := py_getitem (block self) "routing_rules" in
  let* rules := py_iter rules in
  has_default_route_rules rules.

Definition routing_when_step (self : t) (option_values : list pyval) (when : pyval)
    : result (list pyval) :=
  let* has_id := py_in "id" when in
  if negb has_id then Ok option_values else
  let* has_value := py_in "value" when in
  if negb has_value then Ok option_values else
  let* id := py_getitem when "id" in
  let* my_id := py_getitem (answer self) "id" in
  if negb (py_eqb id my_id) then Ok option_values else
  let* value := py_getitem when "value" in
  if list_contains value option_values
  then Ok (list_remove value option_values)
  else Ok option_values.

Definition routing_rule_step (self : t) (option_values : list pyval) (rule : pyval)
    : result (list pyval) :=
  let* w := has_when rule in
  if w then
    let* goto := py_getitem rule "goto" in
    let* when_clause := py_getitem goto "when" in
    let* when_clause := py_iter when_clause in
    foldM (routing_when_step self) when_clause option_values
  else Ok [].

(** [self.block and "routing_rules" in self.block and
    self.block["routing_rules"] and self.options]. *)
Definition routing_applies (self : t) : result bool :=
  if negb (py_truthy (block self)) then Ok false else
  let* present := py_in "routing_rules" (block self) in
  if negb present then Ok false else
  let* rules := py_getitem (block self) "routing_rules" in
  if negb (py_truthy rules) then Ok false else
  let* options := options self in
  Ok (py_truthy options).

Definition _validate_routing_on_answer_options (self : t) : result (list text) :=
  let* applies := routing_applies self in
  if applies then
    let* options := options self in
    let* options := py_iter options in
    let* option_values := mapM (fun option => py_getitem option "value") options in
    let* rules := py_getitem (block self) "routing_rules" in
    let* rules := py_iter rules in
    let* option_values := foldM (routing_rule_step self) rules option_values in
    let has_unrouted_options :=
      match option_values with
      | [] => false
      | _ => negb (List.length option_values =? List.length options)%nat
      end in
    let* mandatory := py_getitem (answer self) "mandatory" in
    let* answer_errors :=
      (* [is False]: the boolean itself, not a falsy value *)
      match mandatory with
      | PBool false =>
          let* default := has_default_route self in
          if negb default then
            let* id := py_getitem (answer self) "id" in
            Ok [Format DEFAULT_ROUTE_TEMPLATE [id]]
          else Ok []
      | _ => Ok []
      end in
    if has_unrouted_options then
      let* id := py_getitem (answer self) "id" in
      Ok (answer_errors ++ [Format UNROUTED_TEMPLATE [id; PList option_values]])
    else Ok answer_errors
  else Ok [].

(** *** Date offsets *)

Definition _convert_to_datetime (value : pyval) : result (option Dates.ymd) :=
  if py_truthy value then
    match value with
    | PStr s =>
        let* dt := if Dates.looks_like_Ymd s then Dates.strptime_Ymd s
                   else Dates.strptime_Ym s in
        Ok (Some dt)
    | _ => Raise TypeError
    end
  else Ok None.

Definition get_relative_date (date_string offset_object : pyval) : result Z :=
  let* dt := _convert_to_datetime date_string in
  let* years := py_get offset_object "years" (PInt 0) in
  let* months := py_get offset_object "months" (PInt 0) in
  let* days := py_get offset_object "days" (PInt 0) in
  let* delta := Dates.make_relativedelta years months days in
  match dt with
  | Some dt => Dates.add_relativedelta dt delta
  | None => Raise TypeError
  end.

(** [now] is what [datetime.utcnow().strftime("%Y-%m-%d")] gives when the
    method runs. *)
Definition _get_offset_date (now : string) (answer_min_or_max : pyval) : result Z :=
  let* v := py_getitem answer_min_or_max "value" in
  let value := if py_eqb v (PStr "now") then PStr now else v in
  let* offset := py_get answer_min_or_max "offset_by" (PDict []) in
  get_relative_date value offset.

(** The clock is read once for the minimum and once for the maximum. *)
Definition is_offset_date_valid (now_min now_max : string) (self : t) : result bool :=
  let* type := py_getitem (answer self) "type" in
  if negb (py_eqb type (PStr "Date")) then Ok true else
  let* has_min := py_in "minimum" (answer self) in
  if negb has_min then Ok true else
  let* has_max := py_in "maximum" (answer self) in
  if negb has_max then Ok true else
  let* minimum := py_getitem (answer self) "minimum" in
  let* min_has_value := py_in "value" minimum in
  if negb min_has_value then Ok true else
  let* maximum := py_getitem (answer self) "maximum" in
  let* max_has_value := py_in "value" maximum in
  if negb max_has_value then Ok true else
  let* min_value := py_getitem minimum "value" in
  if is_dict min_value then Ok true else
  let* max_value := py_getitem maximum "value" in
  if is_dict max_value then Ok true else
  let* minimum_date := _get_offset_date now_min minimum in
  let* maximum_date := _get_offset_date now_max maximum in
  Ok (minimum_date <? maximum_date)%Z.

(** *** Checks on numeric answers *)

Definition validate_numeric_default (self : t) (errors : list error)
    : result (list error) :=
  let* mandatory := py_get (answer self) "mandatory" PNone in
  if py_truthy mandatory then
    let* default := py_get (answer self) "default" PNone in
    if negb (is_none default) then add_error self DEFAULT_ON_MANDATORY [] errors
    else Ok errors
  else Ok errors.

Definition validate_numeric_answer_value (self : t) (errors : list error)
    : result (list error) :=
  let* minimum := py_get (answer self) "minimum" (PDict []) in
  let* min_value := py_get minimum "value" (PInt 0) in
  let* maximum := py_get (answer self) "maximum" (PDict []) in
  let* max_value := py_get maximum "value" (PInt 0) in
  let* too_small :=
    if is_int min_value then py_lt min_value (PInt MIN_NUMBER) else Ok false in
  let* errors :=
    if too_small
    then add_error self MINIMUM_LESS_THAN_LIMIT
           [("value", min_value); ("limit", PInt MIN_NUMBER)] errors
    else Ok errors in
  let* too_large :=
    if is_int max_value then py_gt max_value (PInt MAX_NUMBER) else Ok false in
  if too_large
  then add_error self MAXIMUM_GREATER_THAN_LIMIT
         [("value", max_value); ("limit", PInt MAX_NUMBER)] errors
  else Ok errors.

Definition validate_numeric_answer_decimals (self : t) (errors : list error)
    : result (list error) :=
  let* decimal_places := py_get (answer self) "decimal_places" (PInt 0) in
  let* too_long := py_gt decimal_places (PInt MAX_DECIMAL_PLACES) in
  if too_long
  then add_error self DECIMAL_PLACES_TOO_LONG
         [("decimal_places", decimal_places); ("limit", PInt MAX_DECIMAL_PLACES)] errors
  else Ok errors.

(** *** The range table *)

(** The dict [get_numeric_range_values] returns, with its six keys. *)
Record RangeEntry := {
  min : pyval;
  max : pyval;
  decimal_places : pyval;
  min_referred : pyval;
  max_referred : pyval;
  default : pyval;
}.

(** [answer_ranges.get(k)]: the table is keyed by answer ids, which are
    strings; a key of another hashable type is not in it, and an
    unhashable key raises. *)
Definition ranges_get (answer_ranges : gmap string RangeEntry) (k : pyval)
    : result (option RangeEntry) :=
  match k with
  | PStr id => Ok (answer_ranges !! id)
  | PList _ | PDict _ => Raise TypeError
  | _ => Ok None
  end.

(** [answer_ranges[k]]. *)
Definition ranges_getitem (answer_ranges : gmap string RangeEntry) (k : pyval)
    : result RangeEntry :=
  let* e := ranges_get answer_ranges k in
  match e with
  | Some e => Ok e
  | None => Raise KeyError
  end.

Definition _get_numeric_value (defined_value system_default : pyval)
    (answer_ranges : gmap string RangeEntry) : result pyval :=
  if negb (is_dict defined_value) then Ok defined_value else
  let* has_source := py_in "source" defined_value in
  let* from_answers :=
    if has_source then
      let* source := py_getitem defined_value "source" in
      Ok (py_eqb source (PStr "answers"))
    else Ok false in
  if from_answers then
    let* identifier := py_getitem defined_value "identifier" in
    let* referred_answer := ranges_get answer_ranges identifier in
    match referred_answer with
    | None => Ok PNone
    | Some referred_answer =>
        (* both branches of the test on the default return [system_default] *)
        if negb (is_none (default referred_answer)) then Ok system_default
        else Ok system_default
    end
  else Ok system_default.

(** [1 / 10 ** decimal_places]. *)
Definition unit_of_precision (decimal_places : pyval) : result pyval :=
  let* p := py_pow (PInt 10) decimal_places in
  py_truediv (PInt 1) p.

Definition _get_answer_minimum (defined_minimum decimal_places exclusive : pyval)
    (answer_ranges : gmap string RangeEntry) : result pyval :=
  let* minimum_value := _get_numeric_value defined_minimum (PInt 0) answer_ranges in
  if py_truthy exclusive then
    let* u := unit_of_precision decimal_places in
    py_add minimum_value u
  else Ok minimum_value.

Definition _get_answer_maximum (defined_maximum decimal_places exclusive : pyval)
    (answer_ranges : gmap string RangeEntry) : result pyval :=
  let* maximum_value :=
    _get_numeric_value defined_maximum (PInt MAX_NUMBER) answer_ranges in
  if py_truthy exclusive then
    let* u := unit_of_precision decimal_places in
    py_sub maximum_value u
  else Ok maximum_value.

(** [self.answer.get(bound, {}).get("value", {})]. *)
Definition bound_value (self : t) (bound : string) : result pyval :=
  let* b := py_get (answer self) bound (PDict []) in
  py_get b "value" (PDict []).

(** [v.get("identifier") if isinstance(v, dict) else None]. *)
Definition referred (v : pyval) : pyval :=
  match v with
  | PDict d => match dict_get d "identifier" with Some x => x | None => PNone end
  | _ => PNone
  end.

Definition get_numeric_range_values (self : t)
    (answer_ranges : gmap string RangeEntry) : result RangeEntry :=
  let* min_value := bound_value self "minimum" in
  let* max_value := bound_value self "maximum" in
  let min_referred := referred min_value in
  let max_referred := referred max_value in
  let* exclusive := py_get (answer self) "exclusive" (PBool false) in
  let* decimal_places := py_get (answer self) "decimal_places" (PInt 0) in
  let* min := _get_answer_minimum min_value decimal_places exclusive answer_ranges in
  let* max := _get_answer_maximum max_value decimal_places exclusive answer_ranges in
  let* default := py_get (answer self) "default" PNone in
  Ok {| min := min; max := max; decimal_places := decimal_places;
        min_referred := min_referred; max_referred := max_referred;
        default := default |}.

(** *** Checks against the range table *)

(** [self.answer[bound]["value"]["identifier"]]. *)
Definition bound_identifier (self : t) (bound : string) : result pyval :=
  let* b := py_getitem (answer self) bound in
  let* v := py_getitem b "value" in
  py_getitem v "identifier".

Definition _validate_referred_numeric_answer (self : t)
    (answer_ranges : gmap string RangeEntry) (errors : list error)
    : result (bool * list error) :=
  let* id := py_get (answer self) "id" PNone in
  let* e := ranges_getitem answer_ranges id in
  if is_none (min e) then
    let* identifier := bound_identifier self "minimum" in
    let* id := py_getitem (answer self) "id" in
    let* errors :=
      add_error_text self (Format REFERRED_MINIMUM_TEMPLATE [identifier; id]) errors in
    Ok (true, errors)
  else
  let* e := ranges_getitem answer_ranges id in
  if is_none (max e) then
    let* identifier := bound_identifier self "maximum" in
    let* id := py_getitem (answer self) "id" in
    let* errors :=
      add_error_text self (Format REFERRED_MAXIMUM_TEMPLATE [identifier; id]) errors in
    Ok (true, errors)
  else Ok (false, errors).

Definition _validate_numeric_range (self : t)
    (answer_ranges : gmap string RangeEntry) (errors : list error)
    : result (list error) :=
  let* id := py_get (answer self) "id" PNone in
  let* e := ranges_getitem answer_ranges id in
  let max_value := max e in
  let min_value := min e in
  let* difference := py_sub max_value min_value in
  let* negative := py_lt difference (PInt 0) in
  if negative then
    let* id := py_getitem (answer self) "id" in
    add_error_text self (Format INVALID_RANGE_TEMPLATE [min_value; max_value; id]) errors
  else Ok errors.

(** One of the two blocks of [_validate_referred_numeric_answer_decimals],
    for the entry's [min_referred] or [max_referred]. *)
Definition referred_decimals (self : t) (answer_ranges : gmap string RangeEntry)
    (answer_values : RangeEntry) (referred : pyval) (errors : list error)
    : result (list error) :=
  if negb (is_none referred) then
    let* referred_values := ranges_getitem answer_ranges referred in
    let* fewer :=
      py_lt (decimal_places answer_values) (decimal_places referred_values) in
    if fewer then
      let* id := py_getitem (answer self) "id" in
      add_error_text self (Format GREATER_DECIMALS_TEMPLATE [referred; id]) errors
    else Ok errors
  else Ok errors.

Definition _validate_referred_numeric_answer_decimals (self : t)
    (answer_ranges : gmap string RangeEntry) (errors : list error)
    : result (list error) :=
  let* id := py_getitem (answer self) "id" in
  let* answer_values := ranges_getitem answer_ranges id in
  let* errors :=
    referred_decimals self answer_ranges answer_values
      (min_referred answer_values) errors in
  referred_decimals self answer_ranges answer_values
    (max_referred answer_values) errors.

Definition validate_numeric_answer_types (self : t)
    (answer_ranges : gmap string RangeEntry) (errors : list error)
    : result (list error) :=
  let* '(referred_errors, errors) :=
    _validate_referred_numeric_answer self answer_ranges errors in
  if referred_errors then Ok errors else
  let* errors := _validate_numeric_range self answer_ranges errors in
  _validate_referred_numeric_answer_decimals self answer_ranges errors.

(** *** [validate] *)

Section Validate.

(** [urllib.parse.urlparse]: the scheme, the network location and the
    path of a URL. *)
Variable urlparse : string -> string * string * string.

(** The readings of the clock, for the minimum and for the maximum. *)
Variables now_min now_max : string.

Definition is_url_char (c : ascii) : bool :=
  JsonPath.is_digit c
  || (let n := nat_of_ascii c in
      ((65 <=? n)%nat && (n <=? 90)%nat) || ((97 <=? n)%nat && (n <=? 122)%nat))
  || existsb (Ascii.eqb c) ["_"; "."; "-"; "/"; "~"]%char.

(** [re.match(r"^[A-Za-z0-9_.\-/~]+$", s) is not None]; [$] also matches
    before a newline that ends the string. *)
Fixpoint matches_path_chars (s : string) : bool :=
  match s with
  | EmptyString => false
  | String c r =>
      is_url_char c
      && (String.eqb r "" || String.eqb r (String (ascii_of_nat 10) "")
          || matches_path_chars r)
  end.

Definition is_suggestion_url_valid (self : t) : result bool :=
  let* u := py_getitem (answer self) "suggestions_url" in
  match u with
  | PStr u =>
      let '(scheme, netloc, path) := urlparse u in
      if negb (String.eqb scheme "") && negb (String.eqb netloc "") then Ok true
      else Ok (matches_path_chars path)
  | _ => Unmodelled
  end.

Definition numeric_types : list pyval :=
  [PStr "Number"; PStr "Currency"; PStr "Percentage"].

Definition validate (self : t) (errors : list error) : result (list error) :=
  (* the three lists these calls return are dropped *)
  let* _ := _validate_duplicate_options self in
  let* errors := _validate_answer_actions self errors in
  let* _ := validate_labels_and_values_match self in
  let* _ := _validate_routing_on_answer_options self in
  let* valid := are_decimal_places_valid self in
  let* errors :=
    if negb valid then add_error self DECIMAL_PLACES_UNDEFINED [] errors
    else Ok errors in
  let* valid := is_offset_date_valid now_min now_max self in
  let* errors :=
    if negb valid then add_error self INVALID_OFFSET_DATE [] errors
    else Ok errors in
  let* type := py_getitem (answer self) "type" in
  let* errors :=
    if py_eqb type (PStr "TextField") then
      let* has_url := py_in "suggestions_url" (answer self) in
      if has_url then
        let* valid := is_suggestion_url_valid self in
        if negb valid then add_error self INVALID_SUGGESTION_URL [] errors
        else Ok errors
      else Ok errors
    else Ok errors in
  let* type := py_getitem (answer self) "type" in
  if list_contains type numeric_types then
    let* errors := validate_numeric_default self errors in
    let* errors := validate_numeric_answer_value self errors in
    validate_numeric_answer_decimals self errors
  else Ok errors.

End Validate.

End AnswerValidator.

(** * Properties *)

(** ** Facts about the Python operations *)

Section PyFacts.
Import Py.

Lemma bind_ok {A B} (m : result A) (k : A -> result B) (b : B) :
  bind m k = Ok b -> exists a, m = Ok a /\ k a = Ok b.
Proof. destruct m; simpl; intros H; try discriminate. eauto. Qed.

Lemma py_eqb_str (v : pyval) (s : string) :
  py_eqb v (PStr s) = true <-> v = PStr s.
Proof.
  split.
  - destruct v; simpl; try discriminate.
    intros H. apply String.eqb_eq in H. now subst.
  - intros ->. simpl. apply String.eqb_refl.
Qed.

Lemma arith_ok fz ff (a b r : pyval) :
  arith fz ff a b = Ok r ->
  (exists z, r = PInt z) \/ (exists f, r = PFloat f).
Proof.
  unfold arith.
  destruct (as_number a) as [[x|x]|], (as_number b) as [[y|y]|];
    simpl; intros H; try discriminate.
  - left. injection H as <-. eauto.
  - right. destruct (float_of_int x); simpl in H; try discriminate.
    injection H as <-. eauto.
  - right. destruct (float_of_int y); simpl in H; try discriminate.
    injection H as <-. eauto.
  - right. injection H as <-. eauto.
Qed.

Lemma arith_none_l fz ff (b : pyval) : arith fz ff PNone b = Raise TypeError.
Proof. reflexivity. Qed.

(** Neither [+] nor [-] returns [None], and neither accepts it on the left. *)
Lemma py_add_ok (a b r : pyval) :
  py_add a b = Ok r -> a <> PNone /\ r <> PNone.
Proof.
  intros H. split.
  - intros ->. discriminate.
  - intros ->. unfold py_add in H.
    destruct a, b; try discriminate;
      apply arith_ok in H as [[? ?]|[? ?]]; discriminate.
Qed.

Lemma py_sub_ok (a b r : pyval) :
  py_sub a b = Ok r -> a <> PNone /\ r <> PNone.
Proof.
  intros H. split.
  - intros ->. discriminate.
  - intros ->. apply arith_ok in H as [[? ?]|[? ?]]; discriminate.
Qed.

Lemma is_none_true (v : pyval) : is_none v = true <-> v = PNone.
Proof. destruct v; simpl; split; congruence. Qed.

End PyFacts.

(** ** Binary64 arithmetic

    What [float(z)], [+] and [-] compute on an int and a float below one:
    the operations of [SpecFloat] round to nearest, ties to even, and the
    lemmas bound the rounding error. *)

Module FloatFacts.
Import Py AnswerValidator.
Local Open Scope Z_scope.

(** *** The number of digits *)

Lemma digits2_pos_bounds p :
  2 ^ (Z.pos (digits2_pos p) - 1) <= Z.pos p < 2 ^ Z.pos (digits2_pos p).
Proof.
  induction p as [p IH|p IH|]; cbn [digits2_pos].
  - rewrite Pos2Z.inj_succ.
    replace (Z.succ (Z.pos (digits2_pos p)) - 1)
      with (Z.succ (Z.pos (digits2_pos p) - 1)) by lia.
    rewrite !Z.pow_succ_r by lia. lia.
  - rewrite Pos2Z.inj_succ.
    replace (Z.succ (Z.pos (digits2_pos p)) - 1)
      with (Z.succ (Z.pos (digits2_pos p) - 1)) by lia.
    rewrite !Z.pow_succ_r by lia. lia.
  - simpl. lia.
Qed.

Lemma digits2_pos_unique p k :
  2 ^ (k - 1) <= Z.pos p < 2 ^ k -> Z.pos (digits2_pos p) = k.
Proof.
  intros Hk. pose proof (digits2_pos_bounds p) as Hd.
  set (d := Z.pos (digits2_pos p)) in *.
  destruct (Z.lt_trichotomy d k) as [Hlt|[Heq|Hgt]]; [|assumption|].
  - assert (2 ^ d <= 2 ^ (k - 1)) by (apply Z.pow_le_mono_r; lia). lia.
  - assert (0 <= k).
    { destruct (Z.le_gt_cases 0 k) as [?|Hneg]; [assumption|].
      rewrite (Z.pow_neg_r 2 k) in Hk by assumption. lia. }
    assert (2 ^ k <= 2 ^ (d - 1)) by (apply Z.pow_le_mono_r; lia). lia.
Qed.

(** *** Shifting right *)

Lemma iter_pos_steps {A} (f : A -> A) (Inv : Z -> A -> Prop) :
  (forall n x, 0 <= n -> Inv n x -> Inv (n + 1) (f x)) ->
  forall p n x,
    0 <= n -> Inv n x -> Inv (n + Z.pos p) (SpecFloat.iter_pos f p x).
Proof.
  intros Hstep. induction p as [p IH|p IH|]; intros n x Hn Hx;
    cbn [SpecFloat.iter_pos].
  - replace (n + Z.pos p~1) with (n + 1 + Z.pos p + Z.pos p) by lia.
    apply IH; [lia|]. apply IH; [lia|]. now apply Hstep.
  - replace (n + Z.pos p~0) with (n + Z.pos p + Z.pos p) by lia.
    apply IH; [lia|]. now apply IH.
  - now apply Hstep.
Qed.

(** After [n] shifts the record holds the quotient of [M] by [2^n], and
    its two bits say where the remainder lies with respect to half of
    [2^n]. *)
Definition shr_inv (M n : Z) (mrs : shr_record) : Prop :=
  0 <= shr_m mrs
  /\ exists rem,
      M = shr_m mrs * 2 ^ n + rem /\ 0 <= rem < 2 ^ n
      /\ match shr_r mrs, shr_s mrs with
         | false, false => rem = 0
         | false, true => 0 < 2 * rem < 2 ^ n
         | true, false => 2 * rem = 2 ^ n
         | true, true => 2 ^ n < 2 * rem
         end.

Lemma shr_inv_start M : 0 <= M -> shr_inv M 0 (shr_record_of_loc M loc_Exact).
Proof. intros HM. split; [assumption|]. exists 0. simpl. lia. Qed.

Lemma shr_inv_step M n mrs :
  0 <= n -> shr_inv M n mrs -> shr_inv M (n + 1) (shr_1 mrs).
Proof.
  intros Hn [Hm (rem & HM & Hrem & Hloc)].
  destruct mrs as [m r s]. unfold shr_inv. cbn [shr_m shr_r shr_s] in *.
  rewrite Z.pow_add_r, Z.pow_1_r by lia.
  pose proof (Z.pow_pos_nonneg 2 n ltac:(lia) Hn) as HP.
  set (P := 2 ^ n) in *.
  destruct m as [|p|p]; [| |lia].
  - split; [simpl; lia|]. exists rem. destruct r, s; simpl; lia.
  - destruct p as [p|p|].
    + split; [simpl; lia|]. exists (rem + P).
      destruct r, s; cbn [shr_1 shr_m shr_r shr_s orb]; lia.
    + split; [simpl; lia|]. exists rem.
      destruct r, s; cbn [shr_1 shr_m shr_r shr_s orb]; lia.
    + split; [simpl; lia|]. exists (rem + P).
      destruct r, s; cbn [shr_1 shr_m shr_r shr_s orb]; lia.
Qed.

Lemma shr_inv_iter M p mrs :
  shr_inv M 0 mrs -> shr_inv M (Z.pos p) (SpecFloat.iter_pos shr_1 p mrs).
Proof.
  intros H.
  apply (iter_pos_steps shr_1 (shr_inv M) (shr_inv_step M) p 0 mrs);
    [lia | assumption].
Qed.

(** Rounding to nearest, ties to even, moves the quotient by at most half
    a unit. *)
Lemma round_nearest_even_error M n mrs :
  0 <= n -> shr_inv M n mrs ->
  let m2 := round_nearest_even (shr_m mrs) (loc_of_shr_record mrs) in
  shr_m mrs <= m2 <= shr_m mrs + 1
  /\ 2 * Z.abs (m2 * 2 ^ n - M) <= 2 ^ n.
Proof.
  intros Hn [Hm (rem & HM & Hrem & Hloc)].
  destruct mrs as [m r s]. cbn [shr_m shr_r shr_s] in *.
  pose proof (Z.pow_pos_nonneg 2 n ltac:(lia) Hn) as HP.
  set (P := 2 ^ n) in *.
  destruct r, s; cbn [loc_of_shr_record round_nearest_even];
    try destruct (Z.even m); lia.
Qed.

(** *** Rounding a large mantissa *)

Lemma fexp_normal e : -1021 <= e -> fexp prec emax e = e - 53.
Proof. unfold fexp, emin, prec, emax. lia. Qed.

Lemma shl_align_noop mx ex e' : ex <= e' -> shl_align mx ex e' = (mx, ex).
Proof.
  intros H. unfold shl_align. destruct (e' - ex) eqn:E; try reflexivity. lia.
Qed.

Lemma shr_fexp_large (M : positive) ex :
  let k := Z.pos (digits2_pos M) in
  53 <= k -> -1021 <= k + ex ->
  exists mrs,
    shr_fexp prec emax (Z.pos M) ex loc_Exact = (mrs, ex + (k - 53))
    /\ shr_inv (Z.pos M) (k - 53) mrs.
Proof.
  intros k Hk Hn. unfold shr_fexp. cbn [Zdigits2]. fold k.
  rewrite fexp_normal by lia.
  replace (k + ex - 53 - ex) with (k - 53) by lia.
  unfold shr. destruct (k - 53) as [|p|p] eqn:E.
  - eexists. split; [f_equal; lia|]. apply shr_inv_start. lia.
  - eexists. split; [reflexivity|]. apply shr_inv_iter, shr_inv_start. lia.
  - lia.
Qed.

(** A mantissa of exactly [prec] digits passes through [shr_fexp]. *)
Lemma shr_fexp_fits (q : positive) e :
  2 ^ 52 <= Z.pos q < 2 ^ 53 -> -1074 <= e ->
  shr_fexp prec emax (Z.pos q) e loc_Exact
  = (shr_record_of_loc (Z.pos q) loc_Exact, e).
Proof.
  intros Hq He. unfold shr_fexp. cbn [Zdigits2].
  rewrite (digits2_pos_unique q 53) by (simpl; lia).
  rewrite fexp_normal by lia.
  replace (53 + e - 53 - e) with 0 by lia. reflexivity.
Qed.

(** The mantissa [2^prec], which rounding up can produce, is shifted once
    more. *)
Lemma shr_fexp_carry e :
  -1074 <= e ->
  shr_fexp prec emax (2 ^ 53) e loc_Exact
  = (shr_record_of_loc (2 ^ 52) loc_Exact, e + 1).
Proof.
  intros He. unfold shr_fexp.
  change (Zdigits2 (2 ^ 53)) with 54.
  rewrite fexp_normal by lia.
  replace (54 + e - 53 - e) with 1 by lia. reflexivity.
Qed.

(** [binary_round] on a mantissa of [k >= prec] digits, in the normal
    range: the result is finite and differs from the exact value by at most
    half a unit of the last place kept. *)
Lemma binary_round_large sx (mx : positive) ex :
  let k := Z.pos (digits2_pos mx) in
  53 <= k -> -1021 <= k + ex -> k + ex <= 1023 ->
  exists m' e',
    binary_round prec emax sx mx ex = S754_finite sx m' e'
    /\ ex + (k - 53) <= e' <= ex + (k - 53) + 1
    /\ 2 * Z.abs (Z.pos m' * 2 ^ (e' - ex) - Z.pos mx) <= 2 ^ (k - 53).
Proof.
  intros k Hk Hlo Hhi.
  unfold binary_round. fold k. rewrite fexp_normal by lia.
  rewrite shl_align_noop by lia.
  unfold binary_round_aux.
  destruct (shr_fexp_large mx ex Hk Hlo) as (mrs & Hshr & Hinv).
  fold k in Hshr, Hinv. rewrite Hshr.
  assert (Hn : 0 <= k - 53) by lia.
  pose proof (round_nearest_even_error _ _ _ Hn Hinv) as [Hm2 Herr].
  pose proof (digits2_pos_bounds mx) as Hd. fold k in Hd.
  destruct Hinv as [Hm (rem & HM & Hrem & _)].
  set (n := k - 53) in *.
  set (m2 := round_nearest_even (shr_m mrs) (loc_of_shr_record mrs)) in *.
  pose proof (Z.pow_pos_nonneg 2 n ltac:(lia) Hn) as HP.
  assert (Hk1 : 2 ^ (k - 1) = 2 ^ 52 * 2 ^ n).
  { rewrite <- Z.pow_add_r by lia. f_equal; lia. }
  assert (Hk2 : 2 ^ k = 2 ^ 53 * 2 ^ n).
  { rewrite <- Z.pow_add_r by lia. f_equal; lia. }
  rewrite Hk1, Hk2 in Hd.
  set (P := 2 ^ n) in *.
  assert (Hm1 : 2 ^ 52 <= shr_m mrs < 2 ^ 53) by nia.
  assert (Hcases : m2 < 2 ^ 53 \/ m2 = 2 ^ 53) by lia.
  destruct Hcases as [Hfit|Hcarry].
  - destruct m2 as [|q|q] eqn:Eq; [lia| |lia].
    rewrite shr_fexp_fits by lia. cbn [shr_record_of_loc shr_m].
    replace (ex + n <=? emax - prec) with true
      by (symmetry; apply Z.leb_le; unfold emax, prec; lia).
    exists q, (ex + n). split; [reflexivity|]. split; [lia|].
    replace (ex + n - ex) with n by lia. fold P. lia.
  - rewrite Hcarry, shr_fexp_carry by lia.
    change (shr_m (shr_record_of_loc (2 ^ 52) loc_Exact))
      with (Z.pos 4503599627370496).
    cbv iota.
    replace (ex + n + 1 <=? emax - prec) with true
      by (symmetry; apply Z.leb_le; unfold emax, prec; lia).
    exists 4503599627370496%positive, (ex + n + 1). split; [reflexivity|].
    split; [lia|].
    replace (ex + n + 1 - ex) with (n + 1) by lia.
    rewrite Z.pow_add_r, Z.pow_1_r by lia. fold P.
    rewrite Hcarry in Herr.
    change (Z.pos 4503599627370496) with (2 ^ 52). lia.
Qed.

(** *** Aligning exponents *)

Lemma iter_xO_value m d : Z.pos (Pos.iter xO m d) = Z.pos m * 2 ^ Z.pos d.
Proof.
  apply (Pos.iter_ind _ xO m (fun p a => Z.pos a = Z.pos m * 2 ^ Z.pos p)).
  - rewrite Z.pow_1_r. lia.
  - intros p a IH. rewrite Pos2Z.inj_succ, Z.pow_succ_r by lia. lia.
Qed.

Lemma shl_align_fst mx ex e' :
  e' <= ex -> Z.pos (fst (shl_align mx ex e')) = Z.pos mx * 2 ^ (ex - e').
Proof.
  intros H. unfold shl_align. destruct (e' - ex) as [|d|d] eqn:E; cbn [fst].
  - replace (ex - e') with 0 by lia. lia.
  - lia.
  - rewrite iter_xO_value. f_equal. f_equal; lia.
Qed.

Lemma shl_align_snd mx ex e' : e' <= ex -> snd (shl_align mx ex e') = e'.
Proof.
  intros H. unfold shl_align. destruct (e' - ex) as [|d|d] eqn:E; cbn [snd]; lia.
Qed.

(** *** The float of an int below [2^prec] is exact *)

Lemma binary_round_small sx (mx : positive) :
  let k := Z.pos (digits2_pos mx) in
  k <= 53 ->
  exists m,
    binary_round prec emax sx mx 0 = S754_finite sx m (k - 53)
    /\ Z.pos m = Z.pos mx * 2 ^ (53 - k).
Proof.
  intros k Hk. unfold binary_round. fold k.
  rewrite fexp_normal by lia.
  destruct (shl_align mx 0 (k + 0 - 53)) as [mz ez] eqn:Ea.
  pose proof (shl_align_fst mx 0 (k + 0 - 53) ltac:(lia)) as Hf.
  pose proof (shl_align_snd mx 0 (k + 0 - 53) ltac:(lia)) as Hs.
  rewrite Ea in Hf, Hs. cbn [fst snd] in Hf, Hs. subst ez.
  replace (0 - (k + 0 - 53)) with (53 - k) in Hf by lia.
  pose proof (digits2_pos_bounds mx) as Hd. fold k in Hd.
  assert (Hmz : 2 ^ 52 <= Z.pos mz < 2 ^ 53).
  { rewrite Hf.
    replace (2 ^ 52) with (2 ^ (k - 1) * 2 ^ (53 - k))
      by (rewrite <- Z.pow_add_r by lia; f_equal; lia).
    replace (2 ^ 53) with (2 ^ k * 2 ^ (53 - k))
      by (rewrite <- Z.pow_add_r by lia; f_equal; lia).
    pose proof (Z.pow_pos_nonneg 2 (53 - k) ltac:(lia) ltac:(lia)). nia. }
  unfold binary_round_aux.
  rewrite shr_fexp_fits by lia.
  cbn [shr_record_of_loc shr_m loc_of_shr_record round_nearest_even].
  rewrite shr_fexp_fits by lia. cbn [shr_record_of_loc shr_m].
  replace (k + 0 - 53 <=? emax - prec) with true
    by (symmetry; apply Z.leb_le; unfold emax, prec; lia).
  exists mz. split; [f_equal; lia | assumption].
Qed.

(** [float(z)] for [0 < |z| < 2^53]. *)
Lemma float_of_int_small z :
  z <> 0 -> Z.abs z < 2 ^ 53 ->
  exists m e,
    float_of_int z = Ok (S754_finite (z <? 0) m e)
    /\ -52 <= e <= 0
    /\ Z.pos m = Z.abs z * 2 ^ (- e).
Proof.
  intros Hz Hlt. unfold float_of_int.
  destruct z as [|p|p]; [contradiction| |]; cbn [binary_normalize Z.ltb Z.compare].
  - pose proof (digits2_pos_bounds p) as Hd.
    assert (Hk : Z.pos (digits2_pos p) <= 53).
    { destruct (Z.le_gt_cases (Z.pos (digits2_pos p)) 53) as [?|Hgt]; [assumption|].
      assert (2 ^ 53 <= 2 ^ (Z.pos (digits2_pos p) - 1))
        by (apply Z.pow_le_mono_r; lia).
      lia. }
    destruct (binary_round_small false p Hk) as (m & -> & Hm).
    exists m, (Z.pos (digits2_pos p) - 53). split; [reflexivity|]. split; [lia|].
    rewrite Hm. f_equal. f_equal; lia.
  - pose proof (digits2_pos_bounds p) as Hd.
    assert (Hk : Z.pos (digits2_pos p) <= 53).
    { destruct (Z.le_gt_cases (Z.pos (digits2_pos p)) 53) as [?|Hgt]; [assumption|].
      assert (2 ^ 53 <= 2 ^ (Z.pos (digits2_pos p) - 1))
        by (apply Z.pow_le_mono_r; lia).
      lia. }
    destruct (binary_round_small true p Hk) as (m & -> & Hm).
    exists m, (Z.pos (digits2_pos p) - 53). split; [reflexivity|]. split; [lia|].
    rewrite Hm. f_equal. f_equal; lia.
Qed.

(** *** Rounding an integer multiple of a power of two *)

(** The value [M * 2^e] with [2^52 <= |M|], in the normal range, is rounded
    to a finite float [+-m' * 2^e'] with the sign of [M], and the error is
    at most half a unit of the last place kept. *)
Lemma binary_normalize_large M e :
  let k := Zdigits2 M in
  2 ^ 52 <= Z.abs M -> -1021 <= k + e -> k + e <= 1023 ->
  53 <= k
  /\ exists m' e',
      binary_normalize prec emax M e false = S754_finite (M <? 0) m' e'
      /\ e + (k - 53) <= e' <= e + (k - 53) + 1
      /\ 2 * Z.abs (cond_Zopp (M <? 0) (Z.pos m') * 2 ^ (e' - e) - M)
         <= 2 ^ (k - 53).
Proof.
  intros k HM Hlo Hhi.
  assert (Hk : 53 <= k).
  { destruct M as [|p|p]; [simpl in HM; lia| |];
      pose proof (digits2_pos_bounds p) as Hd; cbn [Zdigits2] in k; fold k in Hd;
      (destruct (Z.le_gt_cases 53 k) as [?|Hgt]; [assumption|]);
      assert (2 ^ k <= 2 ^ 52) by (apply Z.pow_le_mono_r; lia);
      cbn [Z.abs] in HM; lia. }
  split; [assumption|].
  destruct M as [|p|p]; [simpl in HM; lia| |];
    cbn [Zdigits2] in k; cbn [binary_normalize Z.ltb Z.compare cond_Zopp].
  - destruct (binary_round_large false p e Hk Hlo Hhi) as (m' & e' & -> & He' & Herr).
    exists m', e'. split; [reflexivity|]. split; [exact He'|exact Herr].
  - destruct (binary_round_large true p e Hk Hlo Hhi) as (m' & e' & -> & He' & Herr).
    exists m', e'. split; [reflexivity|]. split; [exact He'|].
    fold k in Herr.
    replace (- Z.pos m' * 2 ^ (e' - e) - Z.neg p)
      with (- (Z.pos m' * 2 ^ (e' - e) - Z.pos p)) by lia.
    now rewrite Z.abs_opp.
Qed.

(** *** An int plus or minus a float below one *)

(** The float of a non-zero int below [2^53] added to a finite float
    [+-mu * 2^eu] with [eu <= -52]: the exact sum is a multiple of [2^eu],
    which is then rounded. *)
Lemma SFadd_int z su mu eu :
  z <> 0 -> Z.abs z < 2 ^ 53 -> eu <= -52 ->
  exists fx,
    float_of_int z = Ok fx
    /\ SFadd prec emax fx (S754_finite su mu eu)
       = binary_normalize prec emax
           (z * 2 ^ (- eu) + cond_Zopp su (Z.pos mu)) eu false.
Proof.
  intros Hz Hlt Heu.
  destruct (float_of_int_small z Hz Hlt) as (m & e & Hfx & He & Hm).
  eexists. split; [exact Hfx|].
  cbn [SFadd]. rewrite Z.min_r by lia.
  rewrite (shl_align_fst m e eu) by lia.
  rewrite (shl_align_fst mu eu eu) by lia.
  replace (eu - eu) with 0 by lia. rewrite Z.mul_1_r.
  f_equal. f_equal.
  rewrite Hm, <- Z.mul_assoc, <- Z.pow_add_r by lia.
  replace (- e + (e - eu)) with (- eu) by lia.
  destruct (Z.ltb_spec z 0); cbn [cond_Zopp]; lia.
Qed.

(** Subtracting a float is adding its opposite. *)
Lemma SFsub_opp fx su mu eu :
  float_is_finite fx = true ->
  SFsub prec emax fx (S754_finite su mu eu)
  = SFadd prec emax fx (S754_finite (negb su) mu eu).
Proof.
  destruct fx as [s| | |s m e]; try discriminate; intros _.
  - reflexivity.
  - cbn [SFsub SFadd]. f_equal. destruct su; cbn [negb cond_Zopp]; lia.
Qed.

Lemma Zdigits2_bounds M :
  M <> 0 -> 2 ^ (Zdigits2 M - 1) <= Z.abs M < 2 ^ Zdigits2 M.
Proof.
  destruct M as [|p|p]; [contradiction| |]; intros _;
    exact (digits2_pos_bounds p).
Qed.

(** *** Closeness to a decimal fraction *)

(** [v] is a binary64 float [x = +-m * 2^e] with [|x - n / 10^d| < 10^-6]
    (both sides of the inequality multiplied by [10^d * 2^(-e) * 10^6]). *)
Definition close_to (d n : Z) (v : pyval) : Prop :=
  match v with
  | PFloat (S754_zero _) => Z.abs n * 10 ^ 6 < 10 ^ d
  | PFloat (S754_finite s m e) =>
      e <= 0
      /\ Z.abs (cond_Zopp s (Z.pos m) * 10 ^ d - n * 2 ^ (- e)) * 10 ^ 6
         < 10 ^ d * 2 ^ (- e)
  | _ => False
  end.

Section Unit.

(** The float [mu * 2^eu] is the one nearest to [10^-d]; it is [1] or lies
    below [1/2]. *)
Variables (d : Z) (mu : positive) (eu : Z).
Hypothesis Hd : 0 <= d.
Hypothesis Heu : -80 <= eu <= -52.
Hypothesis Hmu : 2 ^ 52 <= Z.pos mu < 2 ^ 53.
Hypothesis Hone : eu <= -54 \/ (eu = -52 /\ Z.pos mu = 2 ^ 52).
Hypothesis Hnear : 2 * Z.abs (Z.pos mu * 10 ^ d - 2 ^ (- eu)) <= 10 ^ d.

Lemma unit_alone_close su :
  close_to d (cond_Zopp su 1) (PFloat (S754_finite su mu eu)).
Proof.
  unfold close_to. split; [lia|].
  assert (HT : 0 < 10 ^ d) by (apply Z.pow_pos_nonneg; lia).
  assert (HD : 2 ^ 52 <= 2 ^ (- eu)) by (apply Z.pow_le_mono_r; lia).
  set (T := 10 ^ d) in *. set (D := 2 ^ (- eu)) in *.
  assert (P : 0 <= (D - 2 ^ 52) * T) by (apply Z.mul_nonneg_nonneg; lia).
  destruct su; cbn [cond_Zopp]; lia.
Qed.

Lemma int_plus_unit_close su z :
  z <> 0 -> Z.abs z <= 10 ^ 10 ->
  close_to d (z * 10 ^ d + cond_Zopp su 1)
    (PFloat (binary_normalize prec emax
               (z * 2 ^ (- eu) + cond_Zopp su (Z.pos mu)) eu false)).
Proof.
  intros Hz0 Hz.
  assert (HT : 0 < 10 ^ d) by (apply Z.pow_pos_nonneg; lia).
  assert (HD : 2 ^ 52 <= 2 ^ (- eu)) by (apply Z.pow_le_mono_r; lia).
  assert (HD' : eu <= -54 -> 2 ^ 54 <= 2 ^ (- eu))
    by (intros; apply Z.pow_le_mono_r; lia).
  assert (HD52 : eu = -52 -> 2 ^ (- eu) = 2 ^ 52) by (intros ->; reflexivity).
  set (T := 10 ^ d) in *. set (D := 2 ^ (- eu)) in *.
  set (M := z * D + cond_Zopp su (Z.pos mu)).
  assert (HzD : D <= Z.abs z * D) by nia.
  assert (HzD' : Z.abs z * D <= 10 ^ 10 * D) by nia.
  assert (HabsM : Z.abs (z * D) = Z.abs z * D) by (rewrite Z.abs_mul; lia).
  destruct (Z.eq_dec M 0) as [HM0|HM0].
  - rewrite HM0. cbn [binary_normalize]. unfold close_to.
    destruct Hone as [H54|[H52 Hmu52]].
    + specialize (HD' H54). exfalso. unfold M in HM0.
      destruct su; cbn [cond_Zopp] in HM0; lia.
    + specialize (HD52 H52). fold T.
      assert (HT1 : T = 1) by lia.
      assert (z = - cond_Zopp su 1).
      { unfold M in HM0. destruct su; cbn [cond_Zopp] in *; lia. }
      subst z. rewrite HT1. destruct su; cbn [cond_Zopp]; lia.
  - assert (Hlow : 2 ^ 52 <= Z.abs M).
    { unfold M. destruct Hone as [H54|[H52 Hmu52]].
      - specialize (HD' H54). destruct su; cbn [cond_Zopp]; lia.
      - specialize (HD52 H52). unfold M in HM0.
        destruct su; cbn [cond_Zopp] in *; lia. }
    assert (Hup : Z.abs M < 2 ^ 34 * D).
    { unfold M. destruct su; cbn [cond_Zopp]; lia. }
    pose proof (Zdigits2_bounds M HM0) as Hdig.
    set (k := Zdigits2 M) in *.
    assert (Hk0 : 0 <= k) by (unfold k; destruct M; simpl; lia).
    assert (Hk34 : k <= 34 - eu).
    { destruct (Z.le_gt_cases k (34 - eu)) as [?|Hgt]; [assumption|].
      assert (2 ^ (34 - eu) <= 2 ^ (k - 1)) by (apply Z.pow_le_mono_r; lia).
      assert (2 ^ (34 - eu) = 2 ^ 34 * D).
      { unfold D. rewrite <- Z.pow_add_r by lia. f_equal; lia. }
      lia. }
    destruct (binary_normalize_large M eu Hlow ltac:(fold k; lia) ltac:(fold k; lia))
      as (Hk53 & m' & e' & -> & He' & Herr).
    fold k in Hk53, He', Herr.
    unfold close_to. split; [lia|].
    set (c := cond_Zopp (M <? 0) (Z.pos m')) in *.
    assert (HQ : 0 < 2 ^ (e' - eu)) by (apply Z.pow_pos_nonneg; lia).
    assert (HE : 0 < 2 ^ (- e')) by (apply Z.pow_pos_nonneg; lia).
    assert (HDQ : D = 2 ^ (- e') * 2 ^ (e' - eu)).
    { unfold D. rewrite <- Z.pow_add_r by lia. f_equal; lia. }
    assert (HH : 2 ^ (k - 53) * 2 ^ 19 <= D).
    { assert (2 ^ (k - 53) <= 2 ^ (- 19 - eu)) by (apply Z.pow_le_mono_r; lia).
      assert (2 ^ (- 19 - eu) * 2 ^ 19 = D).
      { unfold D. rewrite <- Z.pow_add_r by lia. f_equal; lia. }
      lia. }
    assert (HHpos : 0 < 2 ^ (k - 53)) by (apply Z.pow_pos_nonneg; lia).
    set (Q := 2 ^ (e' - eu)) in *. set (E' := 2 ^ (- e')) in *.
    set (H := 2 ^ (k - 53)) in *.
    assert (Herr' : - H <= 2 * (c * Q - M) <= H) by lia.
    assert (Hnear' : - T <= 2 * (Z.pos mu * T - D) <= T) by lia.
    assert (P1 : 0 <= (H - 2 * (c * Q - M)) * T) by (apply Z.mul_nonneg_nonneg; lia).
    assert (P2 : 0 <= (H + 2 * (c * Q - M)) * T) by (apply Z.mul_nonneg_nonneg; lia).
    assert (P3 : 0 < (2 * D - (H + 1) * 10 ^ 6) * T) by (apply Z.mul_pos_pos; lia).
    assert (Hgoal : - (T * E') < (c * T - (z * T + cond_Zopp su 1) * E') * 10 ^ 6
                    < T * E').
    { unfold M in P1, P2. rewrite HDQ in P1, P2, P3, Hnear'.
      split; apply (Z.mul_lt_mono_pos_r Q); try assumption;
        destruct su; cbn [cond_Zopp] in *; lia. }
    lia.
Qed.

End Unit.

(** A float within [10^-6] of [z + 10^-d] is strictly above the int [z],
    and one within [10^-6] of [z - 10^-d] strictly below it, as long as
    [d <= 6]: Python's comparison of an int with a float is exact. *)
Lemma close_to_above d z v :
  0 <= d <= 6 -> close_to d (z * 10 ^ d + 1) v -> py_lt (PInt z) v = Ok true.
Proof.
  intros Hd Hv.
  assert (HT : 0 < 10 ^ d) by (apply Z.pow_pos_nonneg; lia).
  assert (HT6 : 10 ^ d <= 10 ^ 6) by (apply Z.pow_le_mono_r; lia).
  set (T := 10 ^ d) in *.
  destruct v as [| | |f| | |]; try contradiction.
  destruct f as [s| | |s m e]; try contradiction; cbn [close_to] in Hv.
  - unfold py_lt, py_compare. cbn [as_number compare_int_float bind].
    assert (Hz : z < 0) by nia.
    now rewrite (proj2 (Z.compare_lt_iff z 0) Hz).
  - destruct Hv as [He Hv].
    assert (HE : 0 < 2 ^ (- e)) by (apply Z.pow_pos_nonneg; lia).
    set (E := 2 ^ (- e)) in *. set (c := cond_Zopp s (Z.pos m)) in *.
    assert (P : 0 <= (10 ^ 6 - T) * E) by (apply Z.mul_nonneg_nonneg; lia).
    assert (Hlt : z * E < c).
    { apply (Z.mul_lt_mono_pos_r T); [assumption|]. lia. }
    unfold py_lt, py_compare. cbn [as_number compare_int_float bind].
    replace (if s then Z.neg m else Z.pos m) with c by (destruct s; reflexivity).
    destruct (Z.leb_spec 0 e) as [H0|H0].
    + assert (e = 0) by lia. subst e. change (2 ^ 0) with 1.
      change (2 ^ (- 0)) with 1 in E. unfold E in Hlt.
      now rewrite (proj2 (Z.compare_lt_iff z (c * 1)) ltac:(lia)).
    + fold E. now rewrite (proj2 (Z.compare_lt_iff (z * E) c) Hlt).
Qed.

Lemma close_to_below d z v :
  0 <= d <= 6 -> close_to d (z * 10 ^ d - 1) v -> py_lt v (PInt z) = Ok true.
Proof.
  intros Hd Hv.
  assert (HT : 0 < 10 ^ d) by (apply Z.pow_pos_nonneg; lia).
  assert (HT6 : 10 ^ d <= 10 ^ 6) by (apply Z.pow_le_mono_r; lia).
  set (T := 10 ^ d) in *.
  destruct v as [| | |f| | |]; try contradiction.
  destruct f as [s| | |s m e]; try contradiction; cbn [close_to] in Hv.
  - unfold py_lt, py_compare. cbn [as_number compare_int_float bind option_map].
    assert (Hz : 0 < z) by nia.
    now rewrite (proj2 (Z.compare_gt_iff z 0) Hz).
  - destruct Hv as [He Hv].
    assert (HE : 0 < 2 ^ (- e)) by (apply Z.pow_pos_nonneg; lia).
    set (E := 2 ^ (- e)) in *. set (c := cond_Zopp s (Z.pos m)) in *.
    assert (P : 0 <= (10 ^ 6 - T) * E) by (apply Z.mul_nonneg_nonneg; lia).
    assert (Hlt : c < z * E).
    { apply (Z.mul_lt_mono_pos_r T); [assumption|]. lia. }
    unfold py_lt, py_compare. cbn [as_number compare_int_float bind option_map].
    replace (if s then Z.neg m else Z.pos m) with c by (destruct s; reflexivity).
    destruct (Z.leb_spec 0 e) as [H0|H0].
    + assert (e = 0) by lia. subst e. change (2 ^ 0) with 1.
      change (2 ^ (- 0)) with 1 in E. unfold E in Hlt.
      now rewrite (proj2 (Z.compare_gt_iff z (c * 1)) ltac:(lia)).
    + fold E. now rewrite (proj2 (Z.compare_gt_iff (z * E) c) Hlt).
Qed.

(** *** The unit of precision *)

(** The checks on [u = 1 / 10 ** d] that the lemmas above ask for. *)
Definition unit_checks (d : Z) (u : pyval) : bool :=
  match u with
  | PFloat (S754_finite false mu eu) =>
      (-80 <=? eu) && (eu <=? -52)
      && (2 ^ 52 <=? Z.pos mu) && (Z.pos mu <? 2 ^ 53)
      && ((eu <=? -54) || ((eu =? -52) && (Z.pos mu =? 2 ^ 52)))
      && (2 * Z.abs (Z.pos mu * 10 ^ d - 2 ^ (- eu)) <=? 10 ^ d)
  | _ => false
  end.

Lemma unit_of_precision_checks d :
  0 <= d <= MAX_DECIMAL_PLACES ->
  exists u, unit_of_precision (PInt d) = Ok u /\ unit_checks d u = true.
Proof.
  intros Hd.
  assert (Hcases : d = 0 \/ d = 1 \/ d = 2 \/ d = 3 \/ d = 4 \/ d = 5 \/ d = 6)
    by (unfold MAX_DECIMAL_PLACES in Hd; lia).
  repeat (destruct Hcases as [->|Hcases]); try subst d;
    (eexists; split; [vm_compute; reflexivity | vm_compute; reflexivity]).
Qed.

Lemma float_of_int_finite z fx :
  float_of_int z = Ok fx -> float_is_finite fx = true.
Proof.
  unfold float_of_int.
  destruct (float_is_finite (binary_normalize prec emax z 0 false)) eqn:E;
    [|discriminate].
  intros H. injection H as <-. exact E.
Qed.

(** An int within the system limits plus, or minus, the unit of precision:
    the float that Python computes lies within [10^-6] of the exact sum
    [z + 10^-d], or difference [z - 10^-d]. *)
Lemma adjusted_bound_close d u z :
  0 <= d -> unit_checks d u = true -> Z.abs z <= 10 ^ 10 ->
  (exists v, py_add (PInt z) u = Ok v /\ close_to d (z * 10 ^ d + 1) v)
  /\ (exists v, py_sub (PInt z) u = Ok v /\ close_to d (z * 10 ^ d - 1) v).
Proof.
  intros Hd Hu Hz. unfold unit_checks in Hu.
  destruct u as [| | |f| | |]; try discriminate.
  destruct f as [| | |s mu eu]; try discriminate.
  destruct s; try discriminate.
  repeat (apply andb_prop in Hu as [Hu ?]).
  assert (Heu : -80 <= eu <= -52) by lia.
  assert (Hmu : 2 ^ 52 <= Z.pos mu < 2 ^ 53) by lia.
  assert (Hone : eu <= -54 \/ (eu = -52 /\ Z.pos mu = 2 ^ 52)) by lia.
  assert (Hnear : 2 * Z.abs (Z.pos mu * 10 ^ d - 2 ^ (- eu)) <= 10 ^ d) by lia.
  destruct (Z.eq_dec z 0) as [->|Hz0].
  - split; eexists; (split; [reflexivity|]).
    + exact (unit_alone_close d mu eu Hd Heu Hmu Hnear false).
    + exact (unit_alone_close d mu eu Hd Heu Hmu Hnear true).
  - assert (Hlt : Z.abs z < 2 ^ 53) by lia.
    destruct (SFadd_int z false mu eu Hz0 Hlt ltac:(lia)) as (fx & Hfx & Hadd).
    destruct (SFadd_int z true mu eu Hz0 Hlt ltac:(lia)) as (fx' & Hfx' & Hsub).
    rewrite Hfx in Hfx'. injection Hfx' as <-.
    pose proof (float_of_int_finite _ _ Hfx) as Hfin.
    split.
    + exists (PFloat (SFadd prec emax fx (S754_finite false mu eu))). split.
      * unfold py_add, arith. cbn [as_number number_to_float].
        rewrite Hfx. reflexivity.
      * rewrite Hadd.
        exact (int_plus_unit_close d mu eu Hd Heu Hmu Hone Hnear false z Hz0 Hz).
    + exists (PFloat (SFsub prec emax fx (S754_finite false mu eu))). split.
      * unfold py_sub, arith. cbn [as_number number_to_float].
        rewrite Hfx. reflexivity.
      * rewrite (SFsub_opp _ _ _ _ Hfin). cbn [negb]. rewrite Hsub.
        exact (int_plus_unit_close d mu eu Hd Heu Hmu Hone Hnear true z Hz0 Hz).
Qed.

End FloatFacts.

(** ** The range resolver *)

Module RangeProperties.
Import Py AnswerValidator FloatFacts.

Ltac inv_bind H :=
  repeat
    match type of H with
    | bind _ _ = Ok _ =>
        let a := fresh "a" in
        let E := fresh "E" in
        apply bind_ok in H as (a & E & H)
    end.

(** [v] is a reference [{source: "answers", identifier: x}] to an answer
    that has no entry in the table. *)
Definition refers_to_absent (answer_ranges : gmap string RangeEntry) (v : pyval) : Prop :=
  exists d x,
    v = PDict d
    /\ dict_get d "source" = Some (PStr "answers")
    /\ dict_get d "identifier" = Some x
    /\ ranges_get answer_ranges x = Ok None.

Lemma get_numeric_value_absent answer_ranges v system_default :
  refers_to_absent answer_ranges v ->
  _get_numeric_value v system_default answer_ranges = Ok PNone.
Proof.
  intros (d & x & -> & Hs & Hi & Hx).
  unfold _get_numeric_value, py_in, py_getitem, dict_has. simpl is_dict. simpl negb.
  cbv iota. rewrite Hs. simpl bind. rewrite Hi. simpl bind. rewrite Hx. reflexivity.
Qed.

(** A value that is not a mapping is returned as it is, the JSON null
    included. *)
Lemma get_numeric_value_literal answer_ranges v system_default :
  is_dict v = false ->
  _get_numeric_value v system_default answer_ranges = Ok v.
Proof. intros Hv. unfold _get_numeric_value. now rewrite Hv. Qed.

Lemma get_numeric_value_sentinel answer_ranges v system_default r :
  system_default <> PNone ->
  _get_numeric_value v system_default answer_ranges = Ok r ->
  r = PNone -> refers_to_absent answer_ranges v \/ v = PNone.
Proof.
  intros Hsd H ->. unfold _get_numeric_value in H.
  destruct v as [| | | | |l|d]; simpl in H;
    try (right; reflexivity); try congruence.
  left. unfold dict_has in H.
  destruct (dict_get d "source") as [src|] eqn:Hs; simpl in H; [|congruence].
  destruct (py_eqb src (PStr "answers")) eqn:Hsrc; [|congruence].
  apply py_eqb_str in Hsrc. subst src.
  destruct (dict_get d "identifier") as [x|] eqn:Hi; simpl in H; [|discriminate].
  destruct (ranges_get answer_ranges x) as [[e|]| |] eqn:Hx; simpl in H;
    try discriminate.
  - destruct (negb (is_none (default e))); congruence.
  - exists d, x. auto.
Qed.

(** The value [_get_numeric_value] returns is never [Unmodelled]. *)
Lemma get_numeric_value_modelled answer_ranges v system_default :
  _get_numeric_value v system_default answer_ranges <> Unmodelled.
Proof.
  unfold _get_numeric_value.
  destruct v as [| | | | |l|d]; simpl; try discriminate.
  unfold dict_has.
  destruct (dict_get d "source") as [src|]; simpl; [|discriminate].
  destruct (py_eqb src (PStr "answers")); [|discriminate].
  destruct (dict_get d "identifier") as [x|]; simpl; [|discriminate].
  destruct x; simpl; try discriminate;
    match goal with
    | |- context [answer_ranges !! ?s] => destruct (answer_ranges !! s) as [e|]
    | _ => idtac
    end; simpl; try discriminate;
    destruct (negb (is_none (default e))); discriminate.
Qed.

Lemma answer_minimum_inv answer_ranges v decimal_places exclusive m :
  _get_answer_minimum v decimal_places exclusive answer_ranges = Ok m ->
  exists m0,
    _get_numeric_value v (PInt 0) answer_ranges = Ok m0
    /\ if py_truthy exclusive
       then exists u, unit_of_precision decimal_places = Ok u /\ py_add m0 u = Ok m
       else m = m0.
Proof.
  unfold _get_answer_minimum. intros H. inv_bind H. exists a. split; [assumption|].
  destruct (py_truthy exclusive).
  - inv_bind H. eauto.
  - congruence.
Qed.

Lemma answer_maximum_inv answer_ranges v decimal_places exclusive m :
  _get_answer_maximum v decimal_places exclusive answer_ranges = Ok m ->
  exists m0,
    _get_numeric_value v (PInt MAX_NUMBER) answer_ranges = Ok m0
    /\ if py_truthy exclusive
       then exists u, unit_of_precision decimal_places = Ok u /\ py_sub m0 u = Ok m
       else m = m0.
Proof.
  unfold _get_answer_maximum. intros H. inv_bind H. exists a. split; [assumption|].
  destruct (py_truthy exclusive).
  - inv_bind H. eauto.
  - congruence.
Qed.

(** What [get_numeric_range_values] read and computed when it returned. *)
Lemma range_values_inv self answer_ranges e :
  get_numeric_range_values self answer_ranges = Ok e ->
  exists min_value max_value exclusive,
    bound_value self "minimum" = Ok min_value
    /\ bound_value self "maximum" = Ok max_value
    /\ py_get (answer self) "exclusive" (PBool false) = Ok exclusive
    /\ py_get (answer self) "decimal_places" (PInt 0) = Ok (decimal_places e)
    /\ _get_answer_minimum min_value (decimal_places e) exclusive answer_ranges
       = Ok (min e)
    /\ _get_answer_maximum max_value (decimal_places e) exclusive answer_ranges
       = Ok (max e)
    /\ min_referred e = referred min_value
    /\ max_referred e = referred max_value.
Proof.
  unfold get_numeric_range_values. intros H. inv_bind H.
  injection H as <-. simpl. eauto 12.
Qed.

(** An entry whose minimum (maximum) is [None] comes from a reference to
    an absent answer, or from a bound whose value is the JSON null itself. *)
Lemma entry_minimum_sentinel self answer_ranges e min_value :
  bound_value self "minimum" = Ok min_value ->
  get_numeric_range_values self answer_ranges = Ok e ->
  min e = PNone -> refers_to_absent answer_ranges min_value \/ min_value = PNone.
Proof.
  intros Hmin H Hnone.
  apply range_values_inv in H as (v1 & v2 & ex & E1 & _ & _ & _ & Hlo & _).
  rewrite Hmin in E1. injection E1 as <-.
  apply answer_minimum_inv in Hlo as (m0 & Hm0 & Hlo).
  destruct (py_truthy ex).
  - destruct Hlo as (u & _ & Hadd). apply py_add_ok in Hadd as [_ Hr]. congruence.
  - subst m0.
    apply (get_numeric_value_sentinel _ _ (PInt 0) (min e));
      [discriminate | assumption | assumption].
Qed.

Lemma entry_maximum_sentinel self answer_ranges e max_value :
  bound_value self "maximum" = Ok max_value ->
  get_numeric_range_values self answer_ranges = Ok e ->
  max e = PNone -> refers_to_absent answer_ranges max_value \/ max_value = PNone.
Proof.
  intros Hmax H Hnone.
  apply range_values_inv in H as (v1 & v2 & ex & _ & E2 & _ & _ & _ & Hhi & _).
  rewrite Hmax in E2. injection E2 as <-.
  apply answer_maximum_inv in Hhi as (M0 & HM0 & Hhi).
  destruct (py_truthy ex).
  - destruct Hhi as (u & _ & Hsub). apply py_sub_ok in Hsub as [_ Hr]. congruence.
  - subst M0.
    apply (get_numeric_value_sentinel _ _ (PInt MAX_NUMBER) (max e));
      [discriminate | assumption | assumption].
Qed.

(** Both a reference to an absent answer and the JSON null resolve to
    [None], whatever the system default. *)
Lemma get_numeric_value_none answer_ranges v system_default :
  refers_to_absent answer_ranges v \/ v = PNone ->
  _get_numeric_value v system_default answer_ranges = Ok PNone.
Proof.
  intros [Habs| ->]; [exact (get_numeric_value_absent _ _ _ Habs) | reflexivity].
Qed.

(** C1, amended.  In the entry [get_numeric_range_values] produces, [min]
    (respectively [max]) is [None] if and only if the answer's minimum
    (respectively maximum) is a reference
    [{source: "answers", identifier: X}] with [X] absent from the table
    passed in, or the value of the bound is itself the JSON null, which is
    returned as it is.  A literal bound other than null, an absent bound and
    a reference to an entry that is present never give [None]. *)
Theorem sentinel_iff_absent_reference_or_null
    self answer_ranges e min_value max_value :
  bound_value self "minimum" = Ok min_value ->
  bound_value self "maximum" = Ok max_value ->
  get_numeric_range_values self answer_ranges = Ok e ->
  (min e = PNone <-> refers_to_absent answer_ranges min_value \/ min_value = PNone)
  /\ (max e = PNone <-> refers_to_absent answer_ranges max_value \/ max_value = PNone).
Proof.
  intros Hmin Hmax H. split; split.
  - exact (entry_minimum_sentinel _ _ _ _ Hmin H).
  - intros Habs.
    apply range_values_inv in H as (v1 & v2 & ex & E1 & _ & _ & _ & Hlo & _).
    rewrite Hmin in E1. injection E1 as <-.
    apply answer_minimum_inv in Hlo as (m0 & Hm0 & Hlo).
    rewrite (get_numeric_value_none _ _ _ Habs) in Hm0.
    injection Hm0 as <-. destruct (py_truthy ex).
    + destruct Hlo as (u & _ & Hadd). apply py_add_ok in Hadd as [Hl _]. congruence.
    + assumption.
  - exact (entry_maximum_sentinel _ _ _ _ Hmax H).
  - intros Habs.
    apply range_values_inv in H as (v1 & v2 & ex & _ & E2 & _ & _ & _ & Hhi & _).
    rewrite Hmax in E2. injection E2 as <-.
    apply answer_maximum_inv in Hhi as (M0 & HM0 & Hhi).
    rewrite (get_numeric_value_none _ _ _ Habs) in HM0.
    injection HM0 as <-. destruct (py_truthy ex).
    + destruct Hhi as (u & _ & Hsub). apply py_sub_ok in Hsub as [Hl _]. congruence.
    + assumption.
Qed.

(** Answer [b] takes its minimum from answer [a] and has the literal
    maximum 50; the table is empty, so [a] has no entry. *)
Definition reference_to (identifier : string) : pyval :=
  PDict [("source", PStr "answers"); ("identifier", PStr identifier)].

Definition answer_b : t :=
  __init__
    (PDict [("id", PStr "b"); ("type", PStr "Number"); ("mandatory", PBool false);
            ("minimum", PDict [("value", reference_to "a")]);
            ("maximum", PDict [("value", PInt 50)]);
            ("decimal_places", PInt 1)])
    PNone PNone PNone.

Definition entry_b : RangeEntry :=
  {| min := PNone; max := PInt 50; decimal_places := PInt 1;
     min_referred := PStr "a"; max_referred := PNone; default := PNone |}.

Lemma sentinel_iff_absent_reference_or_null_witness :
  (min entry_b = PNone
   <-> refers_to_absent ∅ (reference_to "a") \/ reference_to "a" = PNone)
  /\ (max entry_b = PNone <-> refers_to_absent ∅ (PInt 50) \/ PInt 50 = PNone).
Proof.
  apply (sentinel_iff_absent_reference_or_null answer_b ∅ entry_b);
    [reflexivity | reflexivity | reflexivity].
Defined.

(** Answer [n] has the JSON null as the value of its minimum, which is a
    literal, not a reference. *)
Definition null_minimum : t :=
  __init__
    (PDict [("id", PStr "n"); ("type", PStr "Number"); ("mandatory", PBool false);
            ("minimum", PDict [("value", PNone)]);
            ("maximum", PDict [("value", PInt 50)])])
    PNone PNone PNone.

Definition entry_null : RangeEntry :=
  {| min := PNone; max := PInt 50; decimal_places := PInt 0;
     min_referred := PNone; max_referred := PNone; default := PNone |}.

Lemma not_a_reference answer_ranges v :
  is_dict v = false -> ~ refers_to_absent answer_ranges v.
Proof. intros Hv (d & x & -> & _). discriminate. Qed.

(** C1 as stated fails on a literal null: the entry of answer [n] has
    [None] as its minimum although the minimum is a literal and refers to
    no answer. *)
Lemma null_literal_gives_sentinel :
  bound_value null_minimum "minimum" = Ok PNone
  /\ get_numeric_range_values null_minimum ∅ = Ok entry_null
  /\ min entry_null = PNone
  /\ ~ refers_to_absent ∅ PNone.
Proof.
  split; [reflexivity|]. split; [reflexivity|]. split; [reflexivity|].
  now apply not_a_reference.
Qed.

(** With [exclusive] set, a reference to an absent answer does not give an
    entry: the adjustment is applied to [None]. *)
Lemma answer_minimum_exclusive_absent answer_ranges v decimal_places exclusive :
  py_truthy exclusive = true ->
  refers_to_absent answer_ranges v ->
  forall m, _get_answer_minimum v decimal_places exclusive answer_ranges <> Ok m.
Proof.
  intros Hex Habs m H. apply answer_minimum_inv in H as (m0 & Hm0 & H).
  rewrite (get_numeric_value_absent _ _ _ Habs) in Hm0. injection Hm0 as <-.
  rewrite Hex in H. destruct H as (u & _ & H). discriminate.
Qed.

Lemma answer_maximum_exclusive_absent answer_ranges v decimal_places exclusive :
  py_truthy exclusive = true ->
  refers_to_absent answer_ranges v ->
  forall m, _get_answer_maximum v decimal_places exclusive answer_ranges <> Ok m.
Proof.
  intros Hex Habs m H. apply answer_maximum_inv in H as (m0 & Hm0 & H).
  rewrite (get_numeric_value_absent _ _ _ Habs) in Hm0. injection Hm0 as <-.
  rewrite Hex in H. destruct H as (u & _ & H). discriminate.
Qed.

(** With [exclusive] set, no entry is returned when either bound is a
    reference to an answer that is absent from the table. *)
Lemma exclusive_absent_reference_not_ok self answer_ranges exclusive v :
  py_get (answer self) "exclusive" (PBool false) = Ok exclusive ->
  py_truthy exclusive = true ->
  bound_value self "minimum" = Ok v \/ bound_value self "maximum" = Ok v ->
  refers_to_absent answer_ranges v ->
  forall e, get_numeric_range_values self answer_ranges <> Ok e.
Proof.
  intros Hex Ht Hv Habs e H.
  apply range_values_inv in H
    as (v1 & v2 & ex & E1 & E2 & E3 & _ & Hlo & Hhi & _).
  rewrite Hex in E3. injection E3 as <-.
  destruct Hv as [Hv|Hv].
  - rewrite Hv in E1. injection E1 as <-.
    exact (answer_minimum_exclusive_absent _ _ _ _ Ht Habs _ Hlo).
  - rewrite Hv in E2. injection E2 as <-.
    exact (answer_maximum_exclusive_absent _ _ _ _ Ht Habs _ Hhi).
Qed.

(** The arithmetic on a non-negative number of decimal places stays inside
    the embedded fragment: it returns or raises. *)
Lemma bind_unmodelled {A B} (m : result A) (k : A -> result B) :
  bind m k = Unmodelled ->
  m = Unmodelled \/ exists a, m = Ok a /\ k a = Unmodelled.
Proof. destruct m; simpl; intros H; try discriminate; eauto. Qed.

Lemma float_of_int_modelled z : float_of_int z <> Unmodelled.
Proof. unfold float_of_int. destruct (float_is_finite _); discriminate. Qed.

Lemma int_true_div_modelled a b : int_true_div a b <> Unmodelled.
Proof.
  unfold int_true_div. destruct (b =? 0)%Z; [discriminate|].
  cbv zeta. destruct (float_is_finite _); discriminate.
Qed.

Lemma arith_modelled fz ff a b : arith fz ff a b <> Unmodelled.
Proof.
  unfold arith.
  destruct (as_number a) as [[x|x]|], (as_number b) as [[y|y]|]; simpl;
    try discriminate.
  - pose proof (float_of_int_modelled x). destruct (float_of_int x); simpl; congruence.
  - pose proof (float_of_int_modelled y). destruct (float_of_int y); simpl; congruence.
Qed.

Lemma py_add_modelled a b : py_add a b <> Unmodelled.
Proof.
  unfold py_add. destruct a, b; try discriminate; apply arith_modelled.
Qed.

Lemma unit_of_precision_modelled d :
  (0 <= d)%Z -> unit_of_precision (PInt d) <> Unmodelled.
Proof.
  intros Hd H. unfold unit_of_precision in H.
  apply bind_unmodelled in H as [H|(p & Hp & H)];
    unfold py_pow in *; simpl as_number in *; cbv iota in *;
    destruct (Z.leb_spec 0 d); try lia; try discriminate.
  injection Hp as <-. unfold py_truediv in H. simpl as_number in H. cbv iota in H.
  apply bind_unmodelled in H as [H|(f & _ & H)]; [|discriminate].
  exact (int_true_div_modelled _ _ H).
Qed.

Lemma answer_minimum_modelled answer_ranges v d exclusive :
  (0 <= d)%Z -> _get_answer_minimum v (PInt d) exclusive answer_ranges <> Unmodelled.
Proof.
  intros Hd H. unfold _get_answer_minimum in H.
  apply bind_unmodelled in H as [H|(m0 & _ & H)].
  - exact (get_numeric_value_modelled _ _ _ H).
  - destruct (py_truthy exclusive); [|discriminate].
    apply bind_unmodelled in H as [H|(u & _ & H)].
    + exact (unit_of_precision_modelled _ Hd H).
    + exact (py_add_modelled _ _ H).
Qed.

Lemma answer_maximum_modelled answer_ranges v d exclusive :
  (0 <= d)%Z -> _get_answer_maximum v (PInt d) exclusive answer_ranges <> Unmodelled.
Proof.
  intros Hd H. unfold _get_answer_maximum in H.
  apply bind_unmodelled in H as [H|(m0 & _ & H)].
  - exact (get_numeric_value_modelled _ _ _ H).
  - destruct (py_truthy exclusive); [|discriminate].
    apply bind_unmodelled in H as [H|(u & _ & H)].
    + exact (unit_of_precision_modelled _ Hd H).
    + exact (arith_modelled _ _ _ _ H).
Qed.

Lemma py_get_modelled v k default : py_get v k default <> Unmodelled.
Proof. destruct v; discriminate. Qed.

Lemma range_values_modelled self answer_ranges d :
  py_get (answer self) "decimal_places" (PInt 0) = Ok (PInt d) ->
  (0 <= d)%Z ->
  get_numeric_range_values self answer_ranges <> Unmodelled.
Proof.
  intros Hdp Hd H. unfold get_numeric_range_values, bound_value in H.
  repeat
    match type of H with
    | bind ?m _ = Unmodelled =>
        let a := fresh "a" in
        apply bind_unmodelled in H as [H|(a & ? & H)];
        [ first [ exact (py_get_modelled _ _ _ H)
                | apply bind_unmodelled in H as [H|(? & ? & H)];
                  exact (py_get_modelled _ _ _ H)
                | idtac ] | ]
    end; try discriminate.
  - match goal with E : py_get _ "decimal_places" _ = Ok ?x |- _ =>
      rewrite Hdp in E; injection E as E; subst x end.
    exact (answer_minimum_modelled _ _ _ _ Hd H).
  - match goal with E : py_get _ "decimal_places" _ = Ok ?x |- _ =>
      rewrite Hdp in E; injection E as E; subst x end.
    exact (answer_maximum_modelled _ _ _ _ Hd H).
Qed.

(** C9.  There are inputs on which [get_numeric_range_values] returns no
    entry: whenever [exclusive] is set and the minimum or the maximum is a
    reference to an answer that is absent from the table (here with a
    number of decimal places that is a non-negative int), the adjustment by
    a unit of precision is applied to [None] and the call raises, instead
    of returning an entry with the sentinel. *)
Theorem exclusive_absent_reference_fails self answer_ranges exclusive v d :
  py_get (answer self) "exclusive" (PBool false) = Ok exclusive ->
  py_truthy exclusive = true ->
  py_get (answer self) "decimal_places" (PInt 0) = Ok (PInt d) ->
  (0 <= d)%Z ->
  bound_value self "minimum" = Ok v \/ bound_value self "maximum" = Ok v ->
  refers_to_absent answer_ranges v ->
  exists ex, get_numeric_range_values self answer_ranges = Raise ex.
Proof.
  intros Hex Ht Hdp Hd Hv Habs.
  pose proof (exclusive_absent_reference_not_ok _ _ _ _ Hex Ht Hv Habs) as Hno.
  pose proof (range_values_modelled _ answer_ranges _ Hdp Hd) as Hmod.
  destruct (get_numeric_range_values self answer_ranges) as [e|ex|].
  - exfalso. exact (Hno e eq_refl).
  - exists ex. reflexivity.
  - exfalso. exact (Hmod eq_refl).
Qed.

Definition exclusive_answer_b : t :=
  __init__
    (PDict [("id", PStr "b"); ("type", PStr "Number"); ("exclusive", PBool true);
            ("minimum", PDict [("value", reference_to "a")]);
            ("maximum", PDict [("value", PInt 50)])])
    PNone PNone PNone.

(** On that answer the call raises [TypeError]. *)
Lemma exclusive_answer_b_raises :
  get_numeric_range_values exclusive_answer_b ∅ = Raise TypeError.
Proof. vm_compute. reflexivity. Qed.

Lemma reference_to_absent (identifier : string) :
  refers_to_absent ∅ (reference_to identifier).
Proof.
  exists [("source", PStr "answers"); ("identifier", PStr identifier)], (PStr identifier).
  repeat split.
Qed.

Lemma exclusive_absent_reference_fails_witness :
  exists ex, get_numeric_range_values exclusive_answer_b ∅ = Raise ex.
Proof.
  apply (exclusive_absent_reference_fails exclusive_answer_b ∅ (PBool true)
           (reference_to "a") 0);
    [reflexivity | reflexivity | reflexivity | lia | left; reflexivity
    | apply reference_to_absent].
Defined.

(** C7, amended.  In the entry [get_numeric_range_values] returns, with
    [exclusive] set the minimum is Python's sum of the value resolved
    without it and the float [1 / 10 ** decimal_places], and the maximum is
    Python's difference of the value resolved without it and that float;
    with [exclusive] unset both are the resolved values unchanged.  The sum
    and the difference are rounded to binary64: for a number [d] of decimal
    places within the system limit and an int bound [lo] (respectively
    [hi]) of magnitude at most [MAX_NUMBER], the minimum is a float within
    [10^-6] of [lo + 10^-d] and strictly above [lo], and the maximum is a
    float within [10^-6] of [hi - 10^-d] and strictly below [hi]. *)
Theorem exclusive_adjusts_by_rounded_unit
    self answer_ranges e min_value max_value exclusive d lo hi :
  bound_value self "minimum" = Ok min_value ->
  bound_value self "maximum" = Ok max_value ->
  py_get (answer self) "exclusive" (PBool false) = Ok exclusive ->
  get_numeric_range_values self answer_ranges = Ok e ->
  py_get (answer self) "decimal_places" (PInt 0) = Ok (decimal_places e)
  /\ exists resolved_min resolved_max,
      _get_numeric_value min_value (PInt 0) answer_ranges = Ok resolved_min
      /\ _get_numeric_value max_value (PInt MAX_NUMBER) answer_ranges = Ok resolved_max
      /\ if py_truthy exclusive
         then (exists u,
                 unit_of_precision (decimal_places e) = Ok u
                 /\ py_add resolved_min u = Ok (min e)
                 /\ py_sub resolved_max u = Ok (max e))
              /\ (decimal_places e = PInt d ->
                  (0 <= d <= MAX_DECIMAL_PLACES)%Z ->
                  (resolved_min = PInt lo -> (Z.abs lo <= MAX_NUMBER)%Z ->
                   close_to d (lo * 10 ^ d + 1) (min e)
                   /\ py_lt (PInt lo) (min e) = Ok true)
                  /\ (resolved_max = PInt hi -> (Z.abs hi <= MAX_NUMBER)%Z ->
                      close_to d (hi * 10 ^ d - 1) (max e)
                      /\ py_lt (max e) (PInt hi) = Ok true))
         else min e = resolved_min /\ max e = resolved_max.
Proof.
  intros Hmin Hmax Hex H.
  apply range_values_inv in H
    as (v1 & v2 & ex & E1 & E2 & E3 & Hdp & Hlo & Hhi & _).
  rewrite Hmin in E1. rewrite Hmax in E2. rewrite Hex in E3.
  injection E1 as <-. injection E2 as <-. injection E3 as <-.
  split; [assumption|].
  apply answer_minimum_inv in Hlo as (m0 & Hm0 & Hlo).
  apply answer_maximum_inv in Hhi as (M0 & HM0 & Hhi).
  exists m0, M0. split; [assumption|]. split; [assumption|].
  destruct (py_truthy exclusive); [|auto].
  destruct Hlo as (u & Hu & Hadd). destruct Hhi as (u' & Hu' & Hsub).
  rewrite Hu in Hu'. injection Hu' as <-.
  split; [eauto|].
  intros Hd Hrange.
  destruct (unit_of_precision_checks d Hrange) as (u0 & Hu0 & Hchecks).
  rewrite Hd, Hu0 in Hu. injection Hu as <-.
  assert (H6 : (0 <= d <= 6)%Z) by (unfold MAX_DECIMAL_PLACES in Hrange; lia).
  split.
  - intros -> Hlim.
    destruct (adjusted_bound_close d u0 lo ltac:(lia) Hchecks
                ltac:(unfold MAX_NUMBER in Hlim; lia))
      as [(v & Hv & Hclose) _].
    rewrite Hadd in Hv. injection Hv as <-.
    split; [assumption | exact (close_to_above _ _ _ H6 Hclose)].
  - intros -> Hlim.
    destruct (adjusted_bound_close d u0 hi ltac:(lia) Hchecks
                ltac:(unfold MAX_NUMBER in Hlim; lia))
      as [_ (v & Hv & Hclose)].
    rewrite Hsub in Hv. injection Hv as <-.
    split; [assumption | exact (close_to_below _ _ _ H6 Hclose)].
Qed.

(** What the unit is: for a number of decimal places within the system
    limit, [1 / 10 ** d] is the binary64 float nearest to [10^-d], that is
    a float [m * 2^e] with [|m * 2^e - 10^-d| <= 2^(e-1)]. *)
Definition nearest_to_unit (d : Z) (u : pyval) : Prop :=
  exists m e,
    u = PFloat (S754_finite false m e)
    /\ (e <= 0)%Z
    /\ (2 ^ 52 <= Z.pos m < 2 ^ 53)%Z
    /\ (2 * Z.abs (Z.pos m * 10 ^ d - 2 ^ (- e)) <= 10 ^ d)%Z.

Definition nearest_to_unit_dec (d : Z) : bool :=
  match unit_of_precision (PInt d) with
  | Ok (PFloat (S754_finite false m e)) =>
      (e <=? 0)%Z && (2 ^ 52 <=? Z.pos m)%Z && (Z.pos m <? 2 ^ 53)%Z
      && (2 * Z.abs (Z.pos m * 10 ^ d - 2 ^ (- e)) <=? 10 ^ d)%Z
  | _ => false
  end.

Lemma nearest_to_unit_dec_sound d :
  nearest_to_unit_dec d = true ->
  exists u, unit_of_precision (PInt d) = Ok u /\ nearest_to_unit d u.
Proof.
  unfold nearest_to_unit_dec.
  destruct (unit_of_precision (PInt d)) as [u| |]; try discriminate.
  destruct u as [| | |f| | |]; try discriminate.
  destruct f as [| | |s m e]; try discriminate.
  destruct s; try discriminate.
  intros H. repeat (apply andb_prop in H as [H ?]).
  eexists. split; [reflexivity|]. exists m, e. repeat split; lia.
Qed.

Lemma unit_of_precision_nearest d :
  (0 <= d <= MAX_DECIMAL_PLACES)%Z ->
  exists u, unit_of_precision (PInt d) = Ok u /\ nearest_to_unit d u.
Proof.
  intros Hd. apply nearest_to_unit_dec_sound.
  assert (Hcases : (d = 0 \/ d = 1 \/ d = 2 \/ d = 3 \/ d = 4 \/ d = 5 \/ d = 6)%Z)
    by (unfold MAX_DECIMAL_PLACES in Hd; lia).
  repeat (destruct Hcases as [->|Hcases]); try subst d; vm_compute; reflexivity.
Qed.

(** An exclusive range from 0 to 100 at two decimal places: the entry runs
    from 0.01 to 99.99 (as floats). *)
Definition exclusive_answer_a : t :=
  __init__
    (PDict [("id", PStr "a"); ("type", PStr "Number"); ("exclusive", PBool true);
            ("minimum", PDict [("value", PInt 0)]);
            ("maximum", PDict [("value", PInt 100)]);
            ("decimal_places", PInt 2)])
    PNone PNone PNone.

Definition exclusive_entry_a : RangeEntry :=
  {| min := PFloat (S754_finite false 5764607523034235 (-59));
     max := PFloat (S754_finite false 7036170730324623 (-46));
     decimal_places := PInt 2;
     min_referred := PNone; max_referred := PNone; default := PNone |}.

Lemma exclusive_adjusts_by_rounded_unit_witness :
  py_get (answer exclusive_answer_a) "decimal_places" (PInt 0)
  = Ok (decimal_places exclusive_entry_a)
  /\ exists resolved_min resolved_max,
      _get_numeric_value (PInt 0) (PInt 0) ∅ = Ok resolved_min
      /\ _get_numeric_value (PInt 100) (PInt MAX_NUMBER) ∅ = Ok resolved_max
      /\ if py_truthy (PBool true)
         then (exists u,
                 unit_of_precision (decimal_places exclusive_entry_a) = Ok u
                 /\ py_add resolved_min u = Ok (min exclusive_entry_a)
                 /\ py_sub resolved_max u = Ok (max exclusive_entry_a))
              /\ (decimal_places exclusive_entry_a = PInt 2 ->
                  (0 <= 2 <= MAX_DECIMAL_PLACES)%Z ->
                  (resolved_min = PInt 0 -> (Z.abs 0 <= MAX_NUMBER)%Z ->
                   close_to 2 (0 * 10 ^ 2 + 1) (min exclusive_entry_a)
                   /\ py_lt (PInt 0) (min exclusive_entry_a) = Ok true)
                  /\ (resolved_max = PInt 100 -> (Z.abs 100 <= MAX_NUMBER)%Z ->
                      close_to 2 (100 * 10 ^ 2 - 1) (max exclusive_entry_a)
                      /\ py_lt (max exclusive_entry_a) (PInt 100) = Ok true))
         else min exclusive_entry_a = resolved_min
              /\ max exclusive_entry_a = resolved_max.
Proof.
  apply (exclusive_adjusts_by_rounded_unit exclusive_answer_a ∅ exclusive_entry_a);
    [reflexivity | reflexivity | reflexivity | vm_compute; reflexivity].
Defined.

(** Exclusive answers without bounds: the maximum is the system default
    [MAX_NUMBER], where binary64 floats are [2^-19] apart. *)
Definition exclusive_places (d : Z) : t :=
  __init__
    (PDict [("id", PStr "c"); ("type", PStr "Number"); ("exclusive", PBool true);
            ("decimal_places", PInt d)])
    PNone PNone PNone.

(** The float of [MAX_NUMBER], and the float just below it. *)
Definition float_max_number : float := S754_finite false 5242879999475712 (-19).
Definition float_below_max_number : float := S754_finite false 5242879999475711 (-19).

(** C7 as stated fails at seven decimal places: the maximum of the entry
    is the float of [MAX_NUMBER] itself, equal to the maximum resolved
    without [exclusive]; nothing was subtracted from it. *)
Lemma exclusive_maximum_unchanged :
  bound_value (exclusive_places 7) "maximum" = Ok (PDict [])
  /\ _get_numeric_value (PDict []) (PInt MAX_NUMBER) ∅ = Ok (PInt MAX_NUMBER)
  /\ exists e,
      get_numeric_range_values (exclusive_places 7) ∅ = Ok e
      /\ decimal_places e = PInt 7
      /\ max e = PFloat float_max_number
      /\ py_eqb (max e) (PInt MAX_NUMBER) = true.
Proof.
  split; [reflexivity|]. split; [reflexivity|].
  eexists. split; [vm_compute; reflexivity|]. repeat split.
Qed.

(** At six decimal places, within the system limit, the maximum is the
    next float below [MAX_NUMBER], which is [MAX_NUMBER - 2^-19]: nearly two
    units of precision below [MAX_NUMBER], and [2^-19 - 10^-6] away from
    [MAX_NUMBER - 10^-6]. *)
Lemma exclusive_maximum_six_places :
  exists e,
    get_numeric_range_values (exclusive_places 6) ∅ = Ok e
    /\ max e = PFloat float_below_max_number
    /\ (5242879999475711 * 10 ^ 6 - (MAX_NUMBER * 10 ^ 6 - 1) * 2 ^ 19
        = 2 ^ 19 - 10 ^ 6)%Z.
Proof.
  eexists. split; [vm_compute; reflexivity|]. split; [reflexivity|].
  vm_compute. reflexivity.
Qed.

(** ** Checks against the range table *)

Lemma py_get_id self id :
  py_get (answer self) "id" PNone = Ok (PStr id) ->
  py_getitem (answer self) "id" = Ok (PStr id).
Proof.
  unfold py_get, py_getitem. destruct (answer self); try discriminate.
  destruct (dict_get d "id"); [tauto | discriminate].
Qed.

(** A bound whose value holds an identifier was read from the answer
    itself, so the subscripts of [bound_identifier] succeed. *)
Lemma bound_identifier_of_value self bound d x :
  bound_value self bound = Ok (PDict d) ->
  dict_get d "identifier" = Some x ->
  bound_identifier self bound = Ok x.
Proof.
  unfold bound_value, bound_identifier, py_get, py_getitem.
  intros H Hx.
  destruct (answer self) as [| | | | | |a]; try discriminate. simpl in *.
  destruct (dict_get a bound) as [b|]; simpl in *.
  - destruct b as [| | | | | |bd]; try discriminate.
    destruct (dict_get bd "value") as [v|]; simpl in *.
    + injection H as ->. now rewrite Hx.
    + injection H as <-. discriminate.
  - injection H as <-. discriminate.
Qed.

(** Without [exclusive], a minimum that refers to an absent answer does
    give an entry, with [None] as its minimum. *)
Lemma absent_reference_gives_sentinel
    self answer_ranges min_value max_value exclusive resolved_max :
  bound_value self "minimum" = Ok min_value ->
  bound_value self "maximum" = Ok max_value ->
  py_get (answer self) "exclusive" (PBool false) = Ok exclusive ->
  py_truthy exclusive = false ->
  refers_to_absent answer_ranges min_value ->
  _get_numeric_value max_value (PInt MAX_NUMBER) answer_ranges = Ok resolved_max ->
  exists e,
    get_numeric_range_values self answer_ranges = Ok e
    /\ min e = PNone /\ max e = resolved_max.
Proof.
  intros Hmin Hmax Hex Ht Habs HM. unfold get_numeric_range_values.
  rewrite Hmin, Hmax, Hex. simpl bind.
  destruct (answer self) as [| | | | | |a] eqn:Ha; try discriminate.
  unfold py_get at 1. simpl bind.
  unfold _get_answer_minimum, _get_answer_maximum.
  rewrite (get_numeric_value_absent _ _ _ Habs), HM, Ht. simpl.
  eexists. repeat split.
Qed.

(** The one record the check appends for a dangling reference. *)
Definition referred_error (template : string) (identifier : pyval) (id : string) : error :=
  {| message := Format template [identifier; PStr id];
     context := [("id", PStr id)] |}.

(** [bound] of the answer is a reference to [identifier], which had no
    entry in the table the answer's own entry was computed from. *)
Definition dangling (self : t) (built_from : gmap string RangeEntry)
    (bound : string) (identifier : pyval) : Prop :=
  exists d,
    bound_value self bound = Ok (PDict d)
    /\ dict_get d "identifier" = Some identifier
    /\ refers_to_absent built_from (PDict d).

Lemma referred_numeric_answer_min self answer_ranges id e d x errors :
  py_get (answer self) "id" PNone = Ok (PStr id) ->
  answer_ranges !! id = Some e ->
  min e = PNone ->
  bound_value self "minimum" = Ok (PDict d) ->
  dict_get d "identifier" = Some x ->
  _validate_referred_numeric_answer self answer_ranges errors
  = Ok (true, errors ++ [referred_error REFERRED_MINIMUM_TEMPLATE x id]).
Proof.
  intros Hid He Hmin Hv Hx. unfold _validate_referred_numeric_answer.
  rewrite Hid. simpl bind. unfold ranges_getitem, ranges_get. rewrite He. simpl bind.
  rewrite Hmin. simpl is_none. cbv iota.
  rewrite (bound_identifier_of_value _ _ _ _ Hv Hx). simpl bind.
  unfold add_error_text. rewrite (py_get_id _ _ Hid). reflexivity.
Qed.

Lemma referred_numeric_answer_max self answer_ranges id e d x errors :
  py_get (answer self) "id" PNone = Ok (PStr id) ->
  answer_ranges !! id = Some e ->
  min e <> PNone -> max e = PNone ->
  bound_value self "maximum" = Ok (PDict d) ->
  dict_get d "identifier" = Some x ->
  _validate_referred_numeric_answer self answer_ranges errors
  = Ok (true, errors ++ [referred_error REFERRED_MAXIMUM_TEMPLATE x id]).
Proof.
  intros Hid He Hmin Hmax Hv Hx. unfold _validate_referred_numeric_answer.
  rewrite Hid. simpl bind. unfold ranges_getitem, ranges_get. rewrite He. simpl bind.
  destruct (is_none (min e)) eqn:Hn; [apply is_none_true in Hn; contradiction|].
  rewrite Hmax. simpl is_none. cbv iota.
  rewrite (bound_identifier_of_value _ _ _ _ Hv Hx). simpl bind.
  unfold add_error_text. rewrite (py_get_id _ _ Hid). reflexivity.
Qed.

Lemma referred_numeric_answer_none self answer_ranges id e errors :
  py_get (answer self) "id" PNone = Ok (PStr id) ->
  answer_ranges !! id = Some e ->
  min e <> PNone -> max e <> PNone ->
  _validate_referred_numeric_answer self answer_ranges errors = Ok (false, errors).
Proof.
  intros Hid He Hmin Hmax. unfold _validate_referred_numeric_answer.
  rewrite Hid. simpl bind. unfold ranges_getitem, ranges_get. rewrite He. simpl bind.
  destruct (is_none (min e)) eqn:Hn; [apply is_none_true in Hn; contradiction|].
  destruct (is_none (max e)) eqn:Hx; [apply is_none_true in Hx; contradiction|].
  reflexivity.
Qed.

(** C2, amended.  Take an answer, the entry [e] that
    [get_numeric_range_values] computed for it (from the table
    [built_from]), and a table that holds [e] under the answer's id.  If
    [min] of [e] is [None] and the value of the minimum is not the JSON
    null, or else [max] is [None] and the value of the maximum is not the
    JSON null, [validate_numeric_answer_types] appends exactly one record,
    which names the identifier of the dangling reference (of the minimum
    when [min] is [None], else of the maximum), and nothing else: no range
    and no precision error.  If neither is [None], it runs the range check
    and then the precision check. *)
Theorem dangling_reference_short_circuits
    self answer_ranges built_from id e min_value max_value errors :
  py_get (answer self) "id" PNone = Ok (PStr id) ->
  answer_ranges !! id = Some e ->
  get_numeric_range_values self built_from = Ok e ->
  bound_value self "minimum" = Ok min_value ->
  bound_value self "maximum" = Ok max_value ->
  (min e = PNone -> min_value <> PNone ->
     exists x, dangling self built_from "minimum" x
       /\ validate_numeric_answer_types self answer_ranges errors
          = Ok (errors ++ [referred_error REFERRED_MINIMUM_TEMPLATE x id]))
  /\ (min e <> PNone -> max e = PNone -> max_value <> PNone ->
     exists x, dangling self built_from "maximum" x
       /\ validate_numeric_answer_types self answer_ranges errors
          = Ok (errors ++ [referred_error REFERRED_MAXIMUM_TEMPLATE x id]))
  /\ (min e <> PNone -> max e <> PNone ->
     validate_numeric_answer_types self answer_ranges errors
     = let* errors := _validate_numeric_range self answer_ranges errors in
       _validate_referred_numeric_answer_decimals self answer_ranges errors).
Proof.
  intros Hid He Hbuilt Hmin Hmax.
  pose proof (entry_minimum_sentinel _ _ _ _ Hmin Hbuilt) as Hlo.
  pose proof (entry_maximum_sentinel _ _ _ _ Hmax Hbuilt) as Hhi.
  split; [|split].
  - intros Hnone Nmin.
    destruct (Hlo Hnone) as [(d & x & -> & Hs & Hx & Ha)|Hnull]; [|contradiction].
    exists x. split.
    + exists d. repeat split; try assumption. exists d, x. auto.
    + unfold validate_numeric_answer_types.
      now rewrite (referred_numeric_answer_min _ _ _ _ _ _ _ Hid He Hnone Hmin Hx).
  - intros Hsome Hnone Nmax.
    destruct (Hhi Hnone) as [(d & x & -> & Hs & Hx & Ha)|Hnull]; [|contradiction].
    exists x. split.
    + exists d. repeat split; try assumption. exists d, x. auto.
    + unfold validate_numeric_answer_types.
      now rewrite
        (referred_numeric_answer_max _ _ _ _ _ _ _ Hid He Hsome Hnone Hmax Hx).
  - intros H1 H2. unfold validate_numeric_answer_types.
    now rewrite (referred_numeric_answer_none _ _ _ _ _ Hid He H1 H2).
Qed.

Lemma dangling_reference_short_circuits_witness :
  (min entry_b = PNone -> reference_to "a" <> PNone ->
     exists x, dangling answer_b ∅ "minimum" x
       /\ validate_numeric_answer_types answer_b {[ "b" := entry_b ]} []
          = Ok ([] ++ [referred_error REFERRED_MINIMUM_TEMPLATE x "b"]))
  /\ (min entry_b <> PNone -> max entry_b = PNone -> PInt 50 <> PNone ->
     exists x, dangling answer_b ∅ "maximum" x
       /\ validate_numeric_answer_types answer_b {[ "b" := entry_b ]} []
          = Ok ([] ++ [referred_error REFERRED_MAXIMUM_TEMPLATE x "b"]))
  /\ (min entry_b <> PNone -> max entry_b <> PNone ->
     validate_numeric_answer_types answer_b {[ "b" := entry_b ]} []
     = let* errors := _validate_numeric_range answer_b {[ "b" := entry_b ]} [] in
       _validate_referred_numeric_answer_decimals answer_b {[ "b" := entry_b ]} errors).
Proof.
  apply (dangling_reference_short_circuits answer_b {[ "b" := entry_b ]} ∅ "b" entry_b
           (reference_to "a") (PInt 50) []);
    [reflexivity | reflexivity | reflexivity | reflexivity | reflexivity].
Defined.

(** C2 as stated fails on a literal null: the entry of answer [n] has
    [None] as its minimum, and the check does not append a record but
    raises, on the subscript [self.answer["minimum"]["value"]["identifier"]]
    of the null. *)
Lemma null_literal_is_not_reported :
  get_numeric_range_values null_minimum ∅ = Ok entry_null
  /\ min entry_null = PNone
  /\ validate_numeric_answer_types null_minimum {[ "n" := entry_null ]} []
     = Raise TypeError.
Proof. repeat split. Qed.

(** On answer [b] the check appends the one record naming [a]. *)
Lemma answer_b_one_error :
  validate_numeric_answer_types answer_b {[ "b" := entry_b ]} []
  = Ok [referred_error REFERRED_MINIMUM_TEMPLATE (PStr "a") "b"].
Proof. vm_compute. reflexivity. Qed.

End RangeProperties.

(** ** The schema index *)

Module SchemaProperties.
Import Py JsonPath QuestionnaireSchema.

(** A document with one section, one group and two blocks.  The first
    block has a default routing rule that names its target by [id]. *)
Definition number_answer (id : string) : pyval :=
  PDict [("id", PStr id); ("type", PStr "Number"); ("mandatory", PBool false)].

Definition question_block (id answer_id : string) (more : list (string * pyval)) : pyval :=
  PDict ([("id", PStr id); ("type", PStr "Question");
          ("question",
           PDict [("id", PStr (id ++ "-question")); ("type", PStr "General");
                  ("answers", PList [number_answer answer_id])])] ++ more).

Definition two_blocks : pyval :=
  PDict [("sections",
          PList [PDict [("id", PStr "section-1");
                        ("groups",
                         PList [PDict [("id", PStr "group-1");
                                       ("blocks",
                                        PList [question_block "block-1" "answer-1"
                                                 [("routing_rules",
                                                   PList [PDict [("goto", PDict [("id", PStr "block-2")])]])];
                                               question_block "block-2" "answer-2" []])]])]])].

(** The matches [id_paths] keeps are those of [$..id] whose path contains
    none of the ignored strings. *)
Lemma id_paths_items_spec self path value :
  In (path, value) (id_paths_items self) <->
  exists m, In m (find_descendants "id" (schema self))
    /\ is_ignored (path_str (fst m)) = false
    /\ path = str_take (-3) (path_str (fst m)) /\ value = snd m.
Proof.
  unfold id_paths_items. rewrite in_flat_map. split.
  - intros (m & Hm & Hin). exists m.
    destruct (is_ignored (path_str (fst m))); simpl in Hin; [contradiction|].
    destruct Hin as [Heq|[]]. injection Heq as <- <-. auto.
  - intros (m & Hm & Hig & -> & ->). exists m. split; [assumption|].
    rewrite Hig. simpl. auto.
Qed.

(** C3.  An [id] under [routing_rules] that is not under a [when] is not
    excluded: the walk yields the target of the default routing rule of
    [block-1], and [ids] then holds [block-2] twice, once for the block
    itself and once for the rule that names it. *)
Theorem routing_rule_id_not_excluded :
  (let* self := __init__ two_blocks in Ok (id_paths_items self))
  = Ok [("sections.[0]", PStr "section-1");
        ("sections.[0].groups.[0]", PStr "group-1");
        ("sections.[0].groups.[0].blocks.[0]", PStr "block-1");
        ("sections.[0].groups.[0].blocks.[0].question", PStr "block-1-question");
        ("sections.[0].groups.[0].blocks.[0].question.answers.[0]", PStr "answer-1");
        ("sections.[0].groups.[0].blocks.[0].routing_rules.[0].goto", PStr "block-2");
        ("sections.[0].groups.[0].blocks.[1]", PStr "block-2");
        ("sections.[0].groups.[0].blocks.[1].question", PStr "block-2-question");
        ("sections.[0].groups.[0].blocks.[1].question.answers.[0]", PStr "answer-2")]
  /\ (let* self := __init__ two_blocks in
      let* '(all_ids, _) := ids self fresh in Ok all_ids)
     = Ok [PStr "block-1"; PStr "block-1-question"; PStr "answer-1"; PStr "block-2";
           PStr "block-2"; PStr "block-2-question"; PStr "answer-2";
           PStr "section-1"; PStr "group-1"].
Proof. split; vm_compute; reflexivity. Qed.

(** Paths the list of ignored strings was meant to cover and does not:
    under [routing_rules] or [skip_conditions] without a [when], and under
    the answers of a question variant of a sub-block, where the path has an
    index and [question] between [question_variants] and [answers]. *)
Lemma paths_not_ignored :
  is_ignored "sections.[0].groups.[0].blocks.[0].routing_rules.[0].goto.id" = false
  /\ is_ignored "sections.[0].groups.[0].blocks.[0].skip_conditions.[0].id" = false
  /\ is_ignored
       "sections.[0].groups.[0].blocks.[0].add_block.question_variants.[0].question.answers.[0].id"
     = false.
Proof. repeat split; vm_compute; reflexivity. Qed.

(** Paths it does cover. *)
Lemma paths_ignored :
  is_ignored "sections.[0].groups.[0].blocks.[0].routing_rules.[0].goto.when.[0].id" = true
  /\ is_ignored "sections.[0].groups.[0].blocks.[0].add_block.question.answers.[0].id"
     = true.
Proof. repeat split; vm_compute; reflexivity. Qed.

(** *** Cached generators *)

Ltac inv_bind H :=
  repeat
    match type of H with
    | bind _ _ = Ok _ =>
        let a := fresh "a" in
        let E := fresh "E" in
        apply bind_ok in H as (a & E & H)
    end.

(** Once [questions_with_context] has been iterated, iterating it again
    yields nothing. *)
Lemma questions_with_context_exhausted self st items st' :
  questions_with_context self st = Ok (items, st') ->
  questions_with_context self st' = Ok ([], st').
Proof.
  unfold questions_with_context. intros H.
  destruct (questions_with_context_gen st) eqn:Hg.
  - inv_bind H. injection H as <- <-. reflexivity.
  - injection H as <- <-. now rewrite Hg.
Qed.

(** Once [answers] has been iterated, iterating it again yields nothing,
    whatever the document holds. *)
Lemma answers_exhausted self st items st' :
  answers self st = Ok (items, st') ->
  answers self st' = Ok ([], st').
Proof.
  unfold answers. intros H.
  destruct (answers_gen st) eqn:Hg.
  - inv_bind H. destruct a as [questions st1]. inv_bind H.
    injection H as <- <-. reflexivity.
  - injection H as <- <-. now rewrite Hg.
Qed.


(** C4.  The collections derived from the document are not the same on a
    second iteration: on the document with two blocks, [answers] yields
    its two answers the first time and nothing the second time, and
    [answers_with_context], read afterwards, is empty. *)
Theorem second_iteration_is_empty :
  (let* self := __init__ two_blocks in
   let* '(first, st) := answers self fresh in
   let* '(second, st) := answers self st in
   let* '(with_context, _) := answers_with_context self st in
   Ok (first, second, with_context))
  = Ok ([number_answer "answer-1"; number_answer "answer-2"], [], []).
Proof. vm_compute. reflexivity. Qed.

(** Read first, [answers_with_context] holds both answers. *)
Lemma answers_with_context_first :
  (let* self := __init__ two_blocks in
   let* '(with_context, _) := answers_with_context self fresh in
   Ok (List.map fst with_context))
  = Ok [PStr "answer-1"; PStr "answer-2"].
Proof. vm_compute. reflexivity. Qed.

(** *** The index read from a path *)

(** The first decimal digit of [n]. *)
Definition first_digit (n : nat) : nat :=
  match Nat.to_uint n with
  | Decimal.Nil | Decimal.D0 _ => 0
  | Decimal.D1 _ => 1
  | Decimal.D2 _ => 2
  | Decimal.D3 _ => 3
  | Decimal.D4 _ => 4
  | Decimal.D5 _ => 5
  | Decimal.D6 _ => 6
  | Decimal.D7 _ => 7
  | Decimal.D8 _ => 8
  | Decimal.D9 _ => 9
  end.

Lemma first_digit_examples :
  first_digit 7 = 7 /\ first_digit 12 = 1 /\ first_digit 10 = 1
  /\ first_digit 25 = 2 /\ first_digit 104 = 1.
Proof. repeat split. Qed.

(** For an index of two digits the first digit is the number of tens. *)
Lemma first_digit_tens n :
  10 <= n < 100 -> first_digit n = n / 10.
Proof.
  intros Hn.
  assert (H : forallb (fun k => Nat.eqb (first_digit k) (k / 10)) (seq 10 90) = true)
    by (vm_compute; reflexivity).
  rewrite forallb_forall in H.
  apply Nat.eqb_eq, H, in_seq. lia.
Qed.

Lemma to_uint_nonnil n : Nat.to_uint n <> Decimal.Nil.
Proof.
  pose proof (DecimalNat.Unsigned.to_of (Nat.to_uint n)) as H.
  rewrite DecimalNat.Unsigned.of_to in H. rewrite H.
  unfold Decimal.unorm. destruct (Decimal.nzhead (Nat.to_uint n)); discriminate.
Qed.

(** The text of an index starts with the character of its first digit. *)
Lemma string_of_nat_head n rest :
  exists c tail,
    (string_of_nat n ++ rest)%string = String c tail
    /\ is_digit c = true /\ digit_value c = first_digit n.
Proof.
  unfold string_of_nat, first_digit. pose proof (to_uint_nonnil n) as Hn.
  destruct (Nat.to_uint n); [contradiction| ..]; simpl;
    eexists; eexists; (split; [reflexivity|]); split; reflexivity.
Qed.

Lemma str_app_assoc (a b c : string) : ((a ++ b) ++ c = a ++ b ++ c)%string.
Proof.
  induction a as [|x a IH]; [reflexivity|].
  change (String x ((a ++ b) ++ c) = String x (a ++ b ++ c))%string. now rewrite IH.
Qed.

Lemma str_length_app (a b : string) :
  String.length (a ++ b) = (String.length a + String.length b)%nat.
Proof.
  induction a as [|x a IH]; [reflexivity|].
  change (S (String.length (a ++ b)) = S (String.length a + String.length b)).
  now rewrite IH.
Qed.

Lemma substring_skip (pre s : string) (m : nat) :
  String.substring (String.length pre) m (pre ++ s) = String.substring 0 m s.
Proof. induction pre as [|c pre IH]; [reflexivity | exact IH]. Qed.

(** [get_key_index_from_path] reads one character: where the key is first
    found at the head of [key.[n]...], it returns the first digit of [n]. *)
Lemma key_index_is_first_digit key pre n rest :
  let path := (pre ++ key ++ ".[" ++ string_of_nat n ++ "]" ++ rest)%string in
  str_find key path = Z.of_nat (String.length pre) ->
  get_key_index_from_path key path = Ok (first_digit n).
Proof.
  intros path Hfind. unfold get_key_index_from_path. rewrite Hfind.
  rewrite <- Nat2Z.inj_add, Nat2Z.id.
  destruct (string_of_nat_head n ("]" ++ rest)) as (c & tail & Hs & Hc & Hv).
  assert (Hpath : path = ((pre ++ key ++ ".[") ++ String c tail)%string).
  { unfold path. rewrite <- Hs.
    now rewrite !str_app_assoc. }
  rewrite Hpath.
  assert (Hlen : (String.length pre + String.length (key ++ ".["))%nat
                 = String.length (pre ++ key ++ ".[")).
  { now rewrite !str_length_app. }
  rewrite Hlen, substring_skip.
  change (String.substring 0 1 (String c tail))
    with (String c (String.substring 0 0 tail)).
  replace (String.substring 0 0 tail) with EmptyString by (destruct tail; reflexivity).
  simpl. rewrite Hc, Hv. reflexivity.
Qed.

Lemma sections_index_is_first_digit n rest :
  get_key_index_from_path "sections" ("sections.[" ++ string_of_nat n ++ "]" ++ rest)
  = Ok (first_digit n).
Proof.
  apply (key_index_is_first_digit "sections" "" n rest). reflexivity.
Qed.

(** Documents with thirteen sections, and with thirteen groups in one
    section; each group has one block. *)
Definition group_of (name : string) : pyval :=
  PDict [("id", PStr ("group-" ++ name));
         ("blocks", PList [question_block ("block-" ++ name) ("answer-" ++ name) []])].

Definition thirteen_sections : pyval :=
  PDict [("sections",
          PList (List.map
                   (fun i => PDict [("id", PStr ("section-" ++ string_of_nat i));
                                    ("groups", PList [group_of (string_of_nat i)])])
                   (seq 0 13)))].

Definition thirteen_groups : pyval :=
  PDict [("sections",
          PList [PDict [("id", PStr "section-0");
                        ("groups",
                         PList (List.map (fun i => group_of (string_of_nat i))
                                  (seq 0 13)))]])].

(** The index object of a document whose [__init__] succeeds. *)
Definition index_of (doc : pyval) : t :=
  match __init__ doc with
  | Ok self => self
  | _ => {| schema := doc; blocks := []; blocks_by_id := []; block_ids := [];
            section_ids := []; group_ids := [] |}
  end.

(** C10 as stated fails for groups: the path of the question in the
    thirteenth group is cut to [sections.[0].groups.[12], which is not a
    path, and [get_context_from_path] raises; it does not resolve the
    group with index 1. *)
Lemma group_index_is_not_first_digit :
  is_ok (__init__ thirteen_groups) = true
  /\ get_element_path "groups" "sections.[0].groups.[12].blocks.[0].question"
     = "sections.[0].groups.[12"
  /\ get_context_from_path (index_of thirteen_groups)
       "sections.[0].groups.[12].blocks.[0].question"
     = Raise JsonPathParseError
  /\ get_context_from_path (index_of thirteen_groups)
       "sections.[0].groups.[1].blocks.[0].question"
     = Ok {| section := PStr "section-0"; block := PStr "block-1";
             group_id := PStr "group-1" |}.
Proof. repeat split; vm_compute; reflexivity. Qed.

(** The same for blocks: the element path of a block with index 12 loses
    its closing bracket. *)
Lemma block_index_is_not_first_digit :
  get_element_path "blocks" "sections.[0].groups.[0].blocks.[12].question"
  = "sections.[0].groups.[0].blocks.[12".
Proof. vm_compute. reflexivity. Qed.

(** C10, amended.  [get_key_index_from_path] reads exactly one character
    after the bracket that follows the key, so for a path that starts with
    [sections.[n]] it returns the first digit of [n]; and whenever
    [get_context_from_path] returns a context for such a path, its section
    is the entry of [section_ids] at that first digit (for [n] from 10 to
    99 the number of tens, so index 12 is read as index 1). *)
Theorem section_index_is_first_digit self n rest ctx :
  let full_path := ("sections.[" ++ string_of_nat n ++ "]" ++ rest)%string in
  get_context_from_path self full_path = Ok ctx ->
  get_key_index_from_path "sections" full_path = Ok (first_digit n)
  /\ list_getitem (section_ids self) (first_digit n) = Ok (section ctx).
Proof.
  intros full_path H.
  pose proof (sections_index_is_first_digit n rest) as Hidx.
  fold full_path in Hidx. split; [assumption|].
  unfold get_context_from_path in H. rewrite Hidx in H.
  inv_bind H. injection H as <-. simpl.
  match goal with E : Ok (first_digit n) = Ok _ |- _ => injection E as <- end.
  assumption.
Qed.

Lemma section_index_is_first_digit_witness :
  get_key_index_from_path "sections"
    ("sections.[" ++ string_of_nat 12 ++ "]" ++ ".groups.[0].blocks.[0].question")
  = Ok (first_digit 12)
  /\ list_getitem (section_ids (index_of thirteen_sections)) (first_digit 12)
     = Ok (section {| section := PStr "section-1"; block := PStr "block-12";
                      group_id := PStr "group-12" |}).
Proof.
  apply (section_index_is_first_digit (index_of thirteen_sections) 12
           ".groups.[0].blocks.[0].question").
  vm_compute. reflexivity.
Defined.

End SchemaProperties.

(** ** The rule checks run by [validate] *)

Module ValidateProperties.
Import Py AnswerValidator.

Ltac inv_bind H :=
  repeat
    match type of H with
    | bind _ _ = Ok _ =>
        let a := fresh "a" in
        let E := fresh "E" in
        apply bind_ok in H as (a & E & H)
    end.

(** A record whose message is the constant [msg], as [add_error] makes. *)
Definition has_message (msg : string) (e : error) : bool :=
  String.eqb (template (message e)) msg
  && match args (message e) with [] => true | _ => false end.

(** A record whose message is built from [template]. *)
Definition has_template (tpl : string) (e : error) : bool :=
  String.eqb (template (message e)) tpl.

Definition count_message (msg : string) (errors : list error) : nat :=
  List.length (List.filter (has_message msg) errors).

Definition count_template (tpl : string) (errors : list error) : nat :=
  List.length (List.filter (has_template tpl) errors).

(** The constant messages [validate] can append. *)
Definition validate_messages : list string :=
  [ LIST_NAME_MISSING; BLOCK_ID_MISSING; DECIMAL_PLACES_UNDEFINED;
    INVALID_OFFSET_DATE; INVALID_SUGGESTION_URL; DEFAULT_ON_MANDATORY;
    MINIMUM_LESS_THAN_LIMIT; MAXIMUM_GREATER_THAN_LIMIT; DECIMAL_PLACES_TOO_LONG ].

(** [f] only appends, and only records with a message of [msgs]. *)
Definition appends (msgs : list string) (f : list error -> result (list error)) : Prop :=
  forall errors errors',
    f errors = Ok errors' ->
    exists added,
      errors' = errors ++ added
      /\ Forall (fun e => In (template (message e)) msgs /\ args (message e) = []) added.

Lemma appends_nothing msgs : appends msgs (fun errors => Ok errors).
Proof.
  intros errors errors' H. injection H as <-. exists []. split.
  - now rewrite app_nil_r.
  - constructor.
Qed.

Lemma appends_add_error msgs self msg ctx :
  In msg msgs -> appends msgs (add_error self msg ctx).
Proof.
  intros Hin errors errors' H. unfold add_error in H. inv_bind H.
  injection H as <-. eexists. split; [reflexivity|].
  constructor; [|constructor]. simpl. auto.
Qed.

Lemma appends_bind msgs (f g : list error -> result (list error)) :
  appends msgs f -> appends msgs g ->
  appends msgs (fun errors => let* errors := f errors in g errors).
Proof.
  intros Hf Hg errors errors' H. inv_bind H.
  destruct (Hf _ _ E) as (a1 & -> & F1). destruct (Hg _ _ H) as (a2 & -> & F2).
  exists (a1 ++ a2). split.
  - now rewrite app_assoc.
  - apply Forall_app. split; assumption.
Qed.

Lemma appends_weaken msgs msgs' f :
  (forall m, In m msgs -> In m msgs') -> appends msgs f -> appends msgs' f.
Proof.
  intros Hsub Hf errors errors' H. destruct (Hf _ _ H) as (added & -> & F).
  exists added. split; [reflexivity|].
  eapply Forall_impl; [exact F|]. intros e [H1 H2]. auto.
Qed.

Lemma appends_foldM {A} msgs (body : list error -> A -> result (list error)) xs :
  (forall x, appends msgs (fun errors => body errors x)) ->
  appends msgs (foldM body xs).
Proof.
  intros Hbody. induction xs as [|x xs IH].
  - apply appends_nothing.
  - simpl. apply (appends_bind msgs (fun errors => body errors x) (foldM body xs));
      [apply Hbody | exact IH].
Qed.

Lemma appends_bind_val {A} msgs (m : result A) (k : A -> list error -> result (list error)) :
  (forall a, appends msgs (k a)) ->
  appends msgs (fun errors => let* a := m in k a errors).
Proof.
  intros Hk errors errors' H. inv_bind H. exact (Hk _ _ _ H).
Qed.

Ltac appends_tac :=
  repeat
    first
      [ apply appends_nothing
      | apply appends_add_error; simpl; tauto
      | apply appends_bind_val; intros ?
      | apply appends_bind
      | match goal with
        | |- appends _ (fun _ => if ?c then _ else _) => destruct c
        end ].

Lemma appends_answer_actions self :
  appends [LIST_NAME_MISSING; BLOCK_ID_MISSING] (_validate_answer_actions self).
Proof.
  unfold _validate_answer_actions.
  apply appends_bind_val; intros options. apply appends_bind_val; intros items.
  apply appends_foldM. intros option. unfold answer_actions_step.
  appends_tac.
Qed.

Lemma appends_numeric_default self :
  appends [DEFAULT_ON_MANDATORY] (validate_numeric_default self).
Proof. unfold validate_numeric_default. appends_tac. Qed.

Lemma appends_numeric_answer_value self :
  appends [MINIMUM_LESS_THAN_LIMIT; MAXIMUM_GREATER_THAN_LIMIT]
    (validate_numeric_answer_value self).
Proof. unfold validate_numeric_answer_value. appends_tac. Qed.

Lemma appends_numeric_answer_decimals self :
  appends [DECIMAL_PLACES_TOO_LONG] (validate_numeric_answer_decimals self).
Proof. unfold validate_numeric_answer_decimals. appends_tac. Qed.

Section Validate.

Variable urlparse : string -> string * string * string.
Variables now_min now_max : string.

Lemma count_message_app msg (l1 l2 : list error) :
  count_message msg (l1 ++ l2) = (count_message msg l1 + count_message msg l2)%nat.
Proof. unfold count_message. now rewrite List.filter_app, List.length_app. Qed.

Lemma count_template_app tpl (l1 l2 : list error) :
  count_template tpl (l1 ++ l2) = (count_template tpl l1 + count_template tpl l2)%nat.
Proof. unfold count_template. now rewrite List.filter_app, List.length_app. Qed.

Lemma count_template_other tpl msgs (added : list error) :
  ~ In tpl msgs ->
  Forall (fun e => In (template (message e)) msgs /\ args (message e) = []) added ->
  count_template tpl added = 0%nat.
Proof.
  intros Hnot F. unfold count_template. induction F as [|e l [He _] _ IH]; [reflexivity|].
  simpl. unfold has_template at 1.
  destruct (String.eqb_spec (template (message e)) tpl) as [Heq|_]; [|exact IH].
  subst tpl. contradiction.
Qed.

Lemma count_message_le_template msg (l : list error) :
  (count_message msg l <= count_template msg l)%nat.
Proof.
  unfold count_message, count_template, has_message, has_template.
  induction l as [|e l IH]; simpl; [lia|].
  destruct (String.eqb (template (message e)) msg); simpl; [|exact IH].
  destruct (args (message e)); simpl; lia.
Qed.

Lemma count_message_other msg msgs (added : list error) :
  ~ In msg msgs ->
  Forall (fun e => In (template (message e)) msgs /\ args (message e) = []) added ->
  count_message msg added = 0%nat.
Proof.
  intros Hnot F. pose proof (count_message_le_template msg added).
  rewrite (count_template_other _ _ _ Hnot F) in H. lia.
Qed.

(** The records [validate] appends: those of the checks that run before
    the date check, at most one for the date check, and those of the checks
    that run after it. *)
Lemma validate_shape self errors errors' :
  validate urlparse now_min now_max self errors = Ok errors' ->
  exists valid before middle after,
    is_offset_date_valid now_min now_max self = Ok valid
    /\ errors' = errors ++ before ++ middle ++ after
    /\ Forall (fun e => In (template (message e))
                          [LIST_NAME_MISSING; BLOCK_ID_MISSING; DECIMAL_PLACES_UNDEFINED]
                        /\ args (message e) = []) before
    /\ Forall (fun e => In (template (message e)) [INVALID_OFFSET_DATE]
                        /\ args (message e) = []) middle
    /\ List.length middle = (if valid then 0 else 1)%nat
    /\ Forall (fun e => In (template (message e))
                          [INVALID_SUGGESTION_URL; DEFAULT_ON_MANDATORY;
                           MINIMUM_LESS_THAN_LIMIT; MAXIMUM_GREATER_THAN_LIMIT;
                           DECIMAL_PLACES_TOO_LONG]
                        /\ args (message e) = []) after.
Proof.
  intros H. unfold validate in H. inv_bind H.
  match goal with
  | E : is_offset_date_valid _ _ _ = Ok ?v |- _ => exists v
  end.
  assert (Hpre : appends [LIST_NAME_MISSING; BLOCK_ID_MISSING; DECIMAL_PLACES_UNDEFINED]
                   (fun errors =>
                      let* errors := _validate_answer_actions self errors in
                      if negb a3 then add_error self DECIMAL_PLACES_UNDEFINED [] errors
                      else Ok errors)).
  { apply appends_bind.
    - eapply appends_weaken; [|apply appends_answer_actions]. simpl. tauto.
    - appends_tac. }
  assert (Hmid : appends [INVALID_OFFSET_DATE]
                   (fun errors =>
                      if negb a5 then add_error self INVALID_OFFSET_DATE [] errors
                      else Ok errors)) by appends_tac.
  assert (Hpost : appends [INVALID_SUGGESTION_URL; DEFAULT_ON_MANDATORY;
                           MINIMUM_LESS_THAN_LIMIT; MAXIMUM_GREATER_THAN_LIMIT;
                           DECIMAL_PLACES_TOO_LONG]
                    (fun errors =>
                       let* errors :=
                         if py_eqb a7 (PStr "TextField") then
                           let* has_url := py_in "suggestions_url" (answer self) in
                           if has_url then
                             let* valid := is_suggestion_url_valid urlparse self in
                             if negb valid
                             then add_error self INVALID_SUGGESTION_URL [] errors
                             else Ok errors
                           else Ok errors
                         else Ok errors in
                       if list_contains a9 numeric_types then
                         let* errors := validate_numeric_default self errors in
                         let* errors := validate_numeric_answer_value self errors in
                         validate_numeric_answer_decimals self errors
                       else Ok errors)).
  { apply appends_bind.
    - appends_tac.
    - destruct (list_contains a9 numeric_types); [|apply appends_nothing].
      apply appends_bind;
        [eapply appends_weaken; [|apply appends_numeric_default]; simpl; tauto|].
      apply appends_bind;
        [eapply appends_weaken; [|apply appends_numeric_answer_value]; simpl; tauto|].
      eapply appends_weaken; [|apply appends_numeric_answer_decimals]. simpl. tauto. }
  destruct (Hpre errors a4) as (before & -> & Fb).
  { rewrite E0. exact E4. }
  destruct (Hmid _ _ E6) as (middle & -> & Fm).
  destruct (Hpost ((errors ++ before) ++ middle) errors') as (after & -> & Fa).
  { cbv beta. rewrite E8. exact H. }
  exists before, middle, after. repeat split; try assumption.
  - now rewrite <- !List.app_assoc.
  - destruct a5; simpl in E6.
    + injection E6 as E6. apply (f_equal (@List.length _)) in E6.
      rewrite !List.length_app in E6. destruct middle; [reflexivity|simpl in E6; lia].
    + unfold add_error in E6. inv_bind E6. injection E6 as E6.
      apply (f_equal (@List.length _)) in E6.
      rewrite !List.length_app in E6. simpl in E6.
      destruct middle as [|? [|? ?]]; simpl in *; lia.
Qed.

(** [validate] appends no record built from a template that is not one of
    its constant messages. *)
Lemma validate_never_reports tpl self errors errors' :
  ~ In tpl validate_messages ->
  validate urlparse now_min now_max self errors = Ok errors' ->
  count_template tpl errors' = count_template tpl errors.
Proof.
  intros Hnot H.
  apply validate_shape in H as (valid & before & middle & after & _ & -> & Fb & Fm & _ & Fa).
  rewrite !count_template_app.
  assert (Hb : count_template tpl before = 0%nat)
    by (eapply count_template_other; [|exact Fb];
        intros Hin; apply Hnot; unfold validate_messages; simpl in *; tauto).
  assert (Hm : count_template tpl middle = 0%nat)
    by (eapply count_template_other; [|exact Fm];
        intros Hin; apply Hnot; unfold validate_messages; simpl in *; tauto).
  assert (Ha : count_template tpl after = 0%nat)
    by (eapply count_template_other; [|exact Fa];
        intros Hin; apply Hnot; unfold validate_messages; simpl in *; tauto).
  lia.
Qed.

Lemma py_getitem_in v k x : py_getitem v k = Ok x -> py_in k v = Ok true.
Proof.
  unfold py_getitem, py_in, dict_has. destruct v; try discriminate.
  destruct (dict_get d k); [reflexivity | discriminate].
Qed.

(** On a Date answer whose minimum and maximum both have a value that is
    not a mapping, the check compares the two offset dates. *)
Lemma offset_date_valid_on_literals self minimum maximum min_value max_value :
  py_getitem (answer self) "type" = Ok (PStr "Date") ->
  py_getitem (answer self) "minimum" = Ok minimum ->
  py_getitem (answer self) "maximum" = Ok maximum ->
  py_getitem minimum "value" = Ok min_value -> is_dict min_value = false ->
  py_getitem maximum "value" = Ok max_value -> is_dict max_value = false ->
  is_offset_date_valid now_min now_max self
  = let* minimum_date := _get_offset_date now_min minimum in
    let* maximum_date := _get_offset_date now_max maximum in
    Ok (minimum_date <? maximum_date)%Z.
Proof.
  intros Ht Hmin Hmax Hv1 Hd1 Hv2 Hd2. unfold is_offset_date_valid.
  rewrite Ht. simpl bind.
  rewrite (py_getitem_in _ _ _ Hmin). simpl bind.
  rewrite (py_getitem_in _ _ _ Hmax). simpl bind.
  rewrite Hmin. simpl bind.
  rewrite (py_getitem_in _ _ _ Hv1). simpl bind.
  rewrite Hmax. simpl bind.
  rewrite (py_getitem_in _ _ _ Hv2). simpl bind.
  rewrite Hv1. simpl bind. rewrite Hd1.
  rewrite Hv2. simpl bind. rewrite Hd2. reflexivity.
Qed.


End Validate.

(** The example of the specification: January 2020 moved by one month
    against February 2020.  Both resolve to 2020-02-01 and the error is
    reported. *)
Definition offset_minimum : pyval :=
  PDict [("value", PStr "2020-01"); ("offset_by", PDict [("months", PInt 1)])].
Definition offset_maximum : pyval := PDict [("value", PStr "2020-02")].

Definition date_answer : t :=
  __init__
    (PDict [("id", PStr "date-1"); ("type", PStr "Date"); ("mandatory", PBool false);
            ("minimum", offset_minimum); ("maximum", offset_maximum)])
    PNone PNone PNone.

Definition offset_error : error :=
  {| message := Format INVALID_OFFSET_DATE []; context := [("id", PStr "date-1")] |}.

(** A stand-in for [urlparse] and for the clock, which a Date answer with
    literal dates does not use. *)
Definition path_only (url : string) : string * string * string := ("", "", url).


Lemma equal_offset_dates :
  _get_offset_date "2020-06-01" offset_minimum = Ok 737456%Z
  /\ _get_offset_date "2020-06-01" offset_maximum = Ok 737456%Z
  /\ validate path_only "2020-06-01" "2020-06-01" date_answer [] = Ok [offset_error].
Proof. repeat split. Qed.

(** *** Lists that [validate] drops *)

(** Two options with the same value. *)
Definition option_of (label value : string) : pyval :=
  PDict [("label", PStr label); ("value", PStr value)].

Definition duplicate_values : t :=
  __init__
    (PDict [("id", PStr "radio-1"); ("type", PStr "Radio"); ("mandatory", PBool true);
            ("options", PList [option_of "Yes" "a"; option_of "No" "a"])])
    PNone PNone PNone.

(** C5.  [_validate_duplicate_options] finds the duplicated value, once,
    but [validate] drops the list it returns: no record is appended. *)
Theorem duplicate_value_not_reported urlparse now_min now_max :
  _validate_duplicate_options duplicate_values
  = Ok [Format DUPLICATE_VALUE [PStr "a"]]
  /\ validate urlparse now_min now_max duplicate_values [] = Ok [].
Proof. split; reflexivity. Qed.

(** Whatever the answer, [validate] appends no duplicate-value record. *)
Lemma validate_reports_no_duplicate urlparse now_min now_max self errors :
  validate urlparse now_min now_max self [] = Ok errors ->
  count_template DUPLICATE_VALUE errors = 0%nat
  /\ count_template DUPLICATE_LABEL errors = 0%nat.
Proof.
  intros H. split.
  - rewrite (validate_never_reports _ _ _ DUPLICATE_VALUE _ _ _ ltac:(vm_compute; intuition discriminate) H).
    reflexivity.
  - rewrite (validate_never_reports _ _ _ DUPLICATE_LABEL _ _ _ ltac:(vm_compute; intuition discriminate) H).
    reflexivity.
Qed.

(** What [_validate_duplicate_options] returns on options with plain
    labels and values: a value that occurs [k] times is named by [k - 1]
    duplicate-value items, so a value that occurs twice is named once. *)
Definition count_text (x : text) (l : list text) : nat :=
  List.length
    (List.filter
       (fun y => String.eqb (template y) (template x)
                 && match args y, args x with
                    | [PStr a], [PStr b] => String.eqb a b
                    | _, _ => false
                    end) l).

Definition occurrences (v : string) (l : list string) : nat :=
  List.length (List.filter (String.eqb v) l).

Lemma list_contains_strings (v : string) (seen : list string) :
  list_contains (PStr v) (List.map PStr seen) = negb (Nat.eqb (occurrences v seen) 0).
Proof.
  unfold list_contains, occurrences. induction seen as [|x seen IH]; [reflexivity|].
  simpl. rewrite IH. rewrite (String.eqb_sym x v).
  destruct (String.eqb v x); reflexivity.
Qed.

Lemma count_text_app x (l1 l2 : list text) :
  count_text x (l1 ++ l2) = (count_text x l1 + count_text x l2)%nat.
Proof. unfold count_text. now rewrite List.filter_app, List.length_app. Qed.

Lemma occurrences_app v (l1 l2 : list string) :
  occurrences v (l1 ++ l2) = (occurrences v l1 + occurrences v l2)%nat.
Proof. unfold occurrences. now rewrite List.filter_app, List.length_app. Qed.

Lemma occurrences_cons v x (l : list string) :
  occurrences v (x :: l) = ((if String.eqb v x then 1 else 0) + occurrences v l)%nat.
Proof. unfold occurrences. simpl. destruct (String.eqb v x); reflexivity. Qed.

Lemma foldM_cons {A S} (body : S -> A -> result S) x r s :
  foldM body (x :: r) s = let* s' := body s x in foldM body r s'.
Proof. reflexivity. Qed.

(** One turn of the loop on an option with a plain label and value. *)
Lemma duplicate_options_step_plain errors labels values l x :
  duplicate_options_step (errors, List.map PStr labels, List.map PStr values)
    (option_of l x)
  = Ok ((let errors1 :=
           if negb (Nat.eqb (occurrences l labels) 0)
           then errors ++ [Format DUPLICATE_LABEL [PStr l]] else errors in
         if negb (Nat.eqb (occurrences x values) 0)
         then errors1 ++ [Format DUPLICATE_VALUE [PStr x]] else errors1),
        List.map PStr (labels ++ [l]), List.map PStr (values ++ [x])).
Proof.
  unfold duplicate_options_step, option_of, set_contains. simpl.
  rewrite !list_contains_strings, !List.map_app. reflexivity.
Qed.

Lemma duplicate_options_loop (v : string) (options : list (string * string)) :
  forall (errors : list text) (labels values : list string),
  exists errors' labels',
    foldM duplicate_options_step
      (List.map (fun lv => option_of (fst lv) (snd lv)) options)
      (errors, List.map PStr labels, List.map PStr values)
    = Ok (errors', labels', List.map PStr (values ++ List.map snd options))
    /\ count_text (Format DUPLICATE_VALUE [PStr v]) errors'
       = (count_text (Format DUPLICATE_VALUE [PStr v]) errors
          + occurrences v (List.map snd options)
          - (if Nat.eqb (occurrences v values) 0
             then (if Nat.eqb (occurrences v (List.map snd options)) 0 then 0 else 1)
             else 0))%nat.
Proof.
  induction options as [|[l x] options IH]; intros errors labels values.
  - exists errors, (List.map PStr labels). simpl. rewrite app_nil_r.
    split; [reflexivity|].
    change (occurrences v []) with 0%nat. destruct (Nat.eqb _ 0); simpl; lia.
  - simpl List.map. rewrite foldM_cons, duplicate_options_step_plain.
    cbv zeta. simpl bind.
    set (errors1 := if negb (Nat.eqb (occurrences l labels) 0)
                    then errors ++ [Format DUPLICATE_LABEL [PStr l]] else errors).
    set (errors2 := if negb (Nat.eqb (occurrences x values) 0)
                    then errors1 ++ [Format DUPLICATE_VALUE [PStr x]] else errors1).
    destruct (IH errors2 (labels ++ [l]) (values ++ [x]))
      as (errors' & labels' & Hrun & Hcount).
    exists errors', labels'. split.
    + rewrite Hrun. now rewrite <- List.app_assoc.
    + rewrite Hcount. clear Hrun Hcount IH.
      assert (H1 : count_text (Format DUPLICATE_VALUE [PStr v]) errors1
                   = count_text (Format DUPLICATE_VALUE [PStr v]) errors).
      { unfold errors1. destruct (negb _); [|reflexivity].
        rewrite count_text_app. unfold count_text at 2. simpl. lia. }
      assert (H2 : count_text (Format DUPLICATE_VALUE [PStr v]) errors2
                   = (count_text (Format DUPLICATE_VALUE [PStr v]) errors
                      + if String.eqb v x
                        then (if Nat.eqb (occurrences v values) 0 then 0 else 1)
                        else 0)%nat).
      { unfold errors2. rewrite <- H1.
        destruct (String.eqb_spec v x) as [<-|Hne].
        - destruct (Nat.eqb (occurrences v values) 0); simpl; [lia|].
          rewrite count_text_app. unfold count_text at 2. simpl.
          rewrite String.eqb_refl. simpl. lia.
        - cbv iota. destruct (negb (Nat.eqb (occurrences x values) 0)); [|lia].
          rewrite count_text_app.
          unfold count_text at 2. simpl.
          destruct (String.eqb_spec x v) as [->|_]; [contradiction|]. simpl. lia. }
      rewrite H2, occurrences_app, !occurrences_cons.
      change (occurrences v []) with 0%nat.
      destruct (String.eqb v x);
        repeat match goal with
               | |- context [Nat.eqb ?n 0] =>
                   let E := fresh in
                   destruct (Nat.eqb n 0) eqn:E;
                   [apply Nat.eqb_eq in E | apply Nat.eqb_neq in E]
               end; lia.
Qed.

(** A value that occurs twice among the options is named by exactly one
    item of the list [_validate_duplicate_options] returns. *)
Lemma duplicate_value_found self (options : list (string * string)) (v : string) :
  AnswerValidator.options self
  = Ok (PList (List.map (fun lv => option_of (fst lv) (snd lv)) options)) ->
  occurrences v (List.map snd options) = 2%nat ->
  exists errors,
    _validate_duplicate_options self = Ok errors
    /\ count_text (Format DUPLICATE_VALUE [PStr v]) errors = 1%nat.
Proof.
  intros Hopts Htwice. unfold _validate_duplicate_options. rewrite Hopts.
  simpl bind.
  destruct (duplicate_options_loop v options [] [] []) as (errors & labels & Hrun & Hcount).
  simpl in Hrun. rewrite Hrun. simpl bind. exists errors. split; [reflexivity|].
  rewrite Hcount, Htwice. reflexivity.
Qed.


(** A block whose routing rules cover both option values with a [when]
    clause each, and have no default rule. *)
Definition routing_rule (value : string) : pyval :=
  PDict [("goto",
          PDict [("block", PStr "block-2");
                 ("when", PList [PDict [("id", PStr "radio-2");
                                        ("condition", PStr "equals");
                                        ("value", PStr value)]])])].

Definition routed_block : pyval :=
  PDict [("id", PStr "block-1"); ("type", PStr "Question");
         ("routing_rules", PList [routing_rule "Yes"; routing_rule "No"])].

Definition routed_answer (mandatory : bool) : t :=
  __init__
    (PDict [("id", PStr "radio-2"); ("type", PStr "Radio"); ("mandatory", PBool mandatory);
            ("options", PList [option_of "Yes" "Yes"; option_of "No" "No"])])
    routed_block PNone PNone.

(** C6.  On the mandatory answer [_validate_routing_on_answer_options]
    finds nothing, and on the optional one it finds the missing default
    route, once; but [validate] drops the list it returns, so no record is
    appended for the optional answer either. *)
Theorem default_route_not_reported urlparse now_min now_max :
  _validate_routing_on_answer_options (routed_answer true) = Ok []
  /\ validate urlparse now_min now_max (routed_answer true) [] = Ok []
  /\ _validate_routing_on_answer_options (routed_answer false)
     = Ok [Format DEFAULT_ROUTE_TEMPLATE [PStr "radio-2"]]
  /\ validate urlparse now_min now_max (routed_answer false) [] = Ok [].
Proof. repeat split. Qed.

(** Whatever the answer and its block, [validate] appends no routing
    record. *)
Lemma validate_reports_no_routing urlparse now_min now_max self errors :
  validate urlparse now_min now_max self [] = Ok errors ->
  count_template DEFAULT_ROUTE_TEMPLATE errors = 0%nat
  /\ count_template UNROUTED_TEMPLATE errors = 0%nat.
Proof.
  intros H. split.
  - rewrite (validate_never_reports _ _ _ DEFAULT_ROUTE_TEMPLATE _ _ _ ltac:(vm_compute; intuition discriminate) H).
    reflexivity.
  - rewrite (validate_never_reports _ _ _ UNROUTED_TEMPLATE _ _ _ ltac:(vm_compute; intuition discriminate) H).
    reflexivity.
Qed.

(** What [_validate_routing_on_answer_options] returns where the check
    applies: for an optional answer on a block with no default route, the
    missing default route first and once, then at most the unrouted
    options; for a mandatory answer at most the unrouted options. *)
Lemma routing_reports_missing_default self errors :
  routing_applies self = Ok true ->
  py_getitem (answer self) "mandatory" = Ok (PBool false) ->
  has_default_route self = Ok false ->
  _validate_routing_on_answer_options self = Ok errors ->
  exists id rest,
    py_getitem (answer self) "id" = Ok id
    /\ errors = Format DEFAULT_ROUTE_TEMPLATE [id] :: rest
    /\ (rest = [] \/ exists missing, rest = [Format UNROUTED_TEMPLATE [id; PList missing]]).
Proof.
  intros Happlies Hm Hd H. unfold _validate_routing_on_answer_options in H.
  rewrite Happlies in H. simpl bind in H. inv_bind H.
  rewrite Hm in *.
  repeat match goal with E : Ok (PBool false) = Ok ?m |- _ => injection E as <- end.
  match goal with
  | E : bind (has_default_route self) _ = Ok _ |- _ =>
      rewrite Hd in E; simpl in E;
      apply bind_ok in E as (id & Hid & E); injection E as <-
  end.
  exists id.
  match type of H with
  | (if ?c then _ else _) = _ => destruct c
  end.
  - apply bind_ok in H as (id' & Hid' & H). rewrite Hid in Hid'.
    injection Hid' as <-. injection H as <-.
    eexists. repeat split; eauto.
  - injection H as <-. eexists. repeat split; eauto.
Qed.

Lemma routing_on_mandatory self errors :
  py_getitem (answer self) "mandatory" = Ok (PBool true) ->
  _validate_routing_on_answer_options self = Ok errors ->
  errors = []
  \/ exists id missing, errors = [Format UNROUTED_TEMPLATE [id; PList missing]].
Proof.
  intros Hm H. unfold _validate_routing_on_answer_options in H.
  apply bind_ok in H as (applies & _ & H).
  destruct applies; [|injection H as <-; auto].
  inv_bind H. rewrite Hm in *.
  repeat match goal with E : Ok (PBool true) = Ok ?m |- _ => injection E as <- end.
  repeat match goal with E : Ok [] = Ok ?l |- _ => injection E as <- end.
  match type of H with
  | (if ?c then _ else _) = _ => destruct c
  end.
  - inv_bind H. injection H as <-. right. eauto.
  - injection H as <-. auto.
Qed.

End ValidateProperties.

(** ** What [validate] appends *)

Module ErrorRecords.
Import Py AnswerValidator ValidateProperties.

(** [f] appends to [self.errors] without reading it: run on any list it
    gives that list followed by what it gives on the empty list, and it
    fails on one exactly when it fails on the other. *)
Definition accumulates (f : list error -> result (list error)) : Prop :=
  forall errors, f errors = let* added := f [] in Ok (errors ++ added).

Lemma accumulates_nothing : accumulates (fun errors => Ok errors).
Proof. intros errors. simpl. now rewrite app_nil_r. Qed.

Lemma accumulates_add_error self msg ctx : accumulates (add_error self msg ctx).
Proof.
  intros errors. unfold add_error.
  destruct (py_getitem (answer self) "id"); reflexivity.
Qed.

Lemma accumulates_add_error_text self msg : accumulates (add_error_text self msg).
Proof.
  intros errors. unfold add_error_text.
  destruct (py_getitem (answer self) "id"); reflexivity.
Qed.

Lemma accumulates_bind (f g : list error -> result (list error)) :
  accumulates f -> accumulates g ->
  accumulates (fun errors => let* errors := f errors in g errors).
Proof.
  intros Hf Hg errors. cbv beta. rewrite (Hf errors).
  destruct (f []) as [a| |]; simpl; try reflexivity.
  rewrite (Hg (errors ++ a)), (Hg a).
  destruct (g []) as [b| |]; simpl; try reflexivity.
  now rewrite List.app_assoc.
Qed.

Lemma accumulates_bind_val {A} (m : result A)
    (k : A -> list error -> result (list error)) :
  (forall a, accumulates (k a)) ->
  accumulates (fun errors => let* a := m in k a errors).
Proof.
  intros Hk errors. destruct m as [a| |]; simpl; try reflexivity. apply Hk.
Qed.

Lemma accumulates_foldM {A} (body : list error -> A -> result (list error)) xs :
  (forall x, accumulates (fun errors => body errors x)) ->
  accumulates (foldM body xs).
Proof.
  intros Hbody. induction xs as [|x xs IH].
  - apply accumulates_nothing.
  - simpl. apply (accumulates_bind (fun errors => body errors x) (foldM body xs));
      [apply Hbody | exact IH].
Qed.

Lemma accumulates_ok f errors errors' :
  accumulates f -> f errors = Ok errors' ->
  exists added, f [] = Ok added /\ errors' = errors ++ added.
Proof.
  intros Hf H. rewrite (Hf errors) in H.
  destruct (f []) as [a| |]; simpl in H; try discriminate.
  injection H as <-. eauto.
Qed.

Ltac accumulates_tac :=
  repeat
    first
      [ apply accumulates_nothing
      | apply accumulates_add_error
      | apply accumulates_add_error_text
      | apply accumulates_bind_val; intros ?
      | apply accumulates_bind
      | match goal with
        | |- accumulates (fun _ => if ?c then _ else _) => destruct c
        end ].

Lemma accumulates_answer_actions self : accumulates (_validate_answer_actions self).
Proof.
  unfold _validate_answer_actions.
  apply accumulates_bind_val; intros options.
  apply accumulates_bind_val; intros items.
  apply accumulates_foldM. intros option. unfold answer_actions_step.
  accumulates_tac.
Qed.

Lemma accumulates_numeric_default self : accumulates (validate_numeric_default self).
Proof. unfold validate_numeric_default. accumulates_tac. Qed.

Lemma accumulates_numeric_answer_value self :
  accumulates (validate_numeric_answer_value self).
Proof. unfold validate_numeric_answer_value. accumulates_tac. Qed.

Lemma accumulates_numeric_answer_decimals self :
  accumulates (validate_numeric_answer_decimals self).
Proof. unfold validate_numeric_answer_decimals. accumulates_tac. Qed.

Lemma accumulates_numeric_range self answer_ranges :
  accumulates (_validate_numeric_range self answer_ranges).
Proof. unfold _validate_numeric_range. accumulates_tac. Qed.

Lemma accumulates_referred_decimals self answer_ranges answer_values referred :
  accumulates (referred_decimals self answer_ranges answer_values referred).
Proof. unfold referred_decimals. accumulates_tac. Qed.

Lemma accumulates_referred_numeric_answer_decimals self answer_ranges :
  accumulates (_validate_referred_numeric_answer_decimals self answer_ranges).
Proof.
  unfold _validate_referred_numeric_answer_decimals.
  apply accumulates_bind_val; intros id.
  apply accumulates_bind_val; intros answer_values.
  apply accumulates_bind; apply accumulates_referred_decimals.
Qed.

(** The numeric checks of [validate], in the order it runs them. *)
Definition numeric_checks (self : t) (errors : list error) : result (list error) :=
  let* errors := validate_numeric_default self errors in
  let* errors := validate_numeric_answer_value self errors in
  validate_numeric_answer_decimals self errors.

Lemma accumulates_numeric_checks self : accumulates (numeric_checks self).
Proof.
  unfold numeric_checks.
  apply accumulates_bind; [apply accumulates_numeric_default|].
  apply accumulates_bind;
    [apply accumulates_numeric_answer_value | apply accumulates_numeric_answer_decimals].
Qed.

Lemma count_message_add_error msg self m ctx errors errors' :
  add_error self m ctx errors = Ok errors' ->
  count_message msg errors'
  = (count_message msg errors + if String.eqb m msg then 1 else 0)%nat.
Proof.
  unfold add_error. intros H. inv_bind H. injection H as <-.
  rewrite count_message_app. f_equal.
  unfold count_message, has_message. simpl.
  destruct (String.eqb m msg); reflexivity.
Qed.

Lemma count_message_guarded msg self m ctx (c : bool) errors errors' :
  (if c then add_error self m ctx errors else Ok errors) = Ok errors' ->
  count_message msg errors'
  = (count_message msg errors + if c && String.eqb m msg then 1 else 0)%nat.
Proof.
  destruct c; simpl; intros H.
  - exact (count_message_add_error _ _ _ _ _ _ H).
  - injection H as <-. lia.
Qed.

Lemma count_message_through msg msgs f errors errors' :
  appends msgs f -> ~ In msg msgs -> f errors = Ok errors' ->
  count_message msg errors' = count_message msg errors.
Proof.
  intros Hf Hnot H. destruct (Hf _ _ H) as (added & -> & F).
  rewrite count_message_app, (count_message_other _ _ _ Hnot F). lia.
Qed.

Lemma py_get_total v k1 d1 x k2 d2 :
  py_get v k1 d1 = Ok x -> exists y, py_get v k2 d2 = Ok y.
Proof. destruct v; simpl; intros H; try discriminate. eauto. Qed.

(** The contribution of each numeric check to the count of a message. *)
Lemma count_numeric_default msg self errors errors' :
  validate_numeric_default self errors = Ok errors' ->
  exists mandatory default,
    py_get (answer self) "mandatory" PNone = Ok mandatory
    /\ py_get (answer self) "default" PNone = Ok default
    /\ count_message msg errors'
       = (count_message msg errors
          + if py_truthy mandatory && negb (is_none default)
               && String.eqb DEFAULT_ON_MANDATORY msg
            then 1 else 0)%nat.
Proof.
  unfold validate_numeric_default. intros H.
  apply bind_ok in H as (mandatory & Hm & H).
  destruct (py_get_total _ _ _ _ "default" PNone Hm) as (default & Hd).
  exists mandatory, default. repeat (split; [assumption|]).
  destruct (py_truthy mandatory); simpl.
  - rewrite Hd in H. simpl in H. exact (count_message_guarded _ _ _ _ _ _ _ H).
  - injection H as <-. lia.
Qed.

Definition below_limit (v : pyval) : bool :=
  match v with PInt z => (z <? MIN_NUMBER)%Z | _ => false end.

Definition above_limit (v : pyval) : bool :=
  match v with PInt z => (MAX_NUMBER <? z)%Z | _ => false end.

Lemma below_limit_spec v :
  (if is_int v then py_lt v (PInt MIN_NUMBER) else Ok false) = Ok (below_limit v).
Proof. destruct v as [|[]| | | | |]; reflexivity. Qed.

Lemma above_limit_spec v :
  (if is_int v then py_gt v (PInt MAX_NUMBER) else Ok false) = Ok (above_limit v).
Proof.
  destruct v as [|[]|z| | | |]; try reflexivity.
  simpl. unfold py_gt. simpl. f_equal. unfold Z.ltb.
  rewrite (Z.compare_antisym z MAX_NUMBER). now destruct (z ?= MAX_NUMBER)%Z.
Qed.

Lemma count_numeric_answer_value msg self errors errors' :
  validate_numeric_answer_value self errors = Ok errors' ->
  exists minimum min_value maximum max_value,
    py_get (answer self) "minimum" (PDict []) = Ok minimum
    /\ py_get minimum "value" (PInt 0) = Ok min_value
    /\ py_get (answer self) "maximum" (PDict []) = Ok maximum
    /\ py_get maximum "value" (PInt 0) = Ok max_value
    /\ count_message msg errors'
       = (count_message msg errors
          + (if below_limit min_value && String.eqb MINIMUM_LESS_THAN_LIMIT msg
             then 1 else 0)
          + (if above_limit max_value && String.eqb MAXIMUM_GREATER_THAN_LIMIT msg
             then 1 else 0))%nat.
Proof.
  unfold validate_numeric_answer_value. intros H.
  apply bind_ok in H as (minimum & H1 & H).
  apply bind_ok in H as (min_value & H2 & H).
  apply bind_ok in H as (maximum & H3 & H).
  apply bind_ok in H as (max_value & H4 & H).
  rewrite below_limit_spec, above_limit_spec in H. simpl bind in H.
  apply bind_ok in H as (e1 & E1 & H).
  apply count_message_guarded with (msg := msg) in E1.
  apply count_message_guarded with (msg := msg) in H.
  exists minimum, min_value, maximum, max_value. repeat (split; [assumption|]).
  rewrite H, E1. reflexivity.
Qed.

Lemma count_numeric_answer_decimals msg self errors errors' :
  validate_numeric_answer_decimals self errors = Ok errors' ->
  exists places too_long,
    py_get (answer self) "decimal_places" (PInt 0) = Ok places
    /\ py_gt places (PInt MAX_DECIMAL_PLACES) = Ok too_long
    /\ count_message msg errors'
       = (count_message msg errors
          + if too_long && String.eqb DECIMAL_PLACES_TOO_LONG msg then 1 else 0)%nat.
Proof.
  unfold validate_numeric_answer_decimals. intros H.
  apply bind_ok in H as (places & H1 & H).
  apply bind_ok in H as (too_long & H2 & H).
  apply count_message_guarded with (msg := msg) in H.
  exists places, too_long. auto.
Qed.

Lemma numeric_checks_counts msg self errors errors' :
  numeric_checks self errors = Ok errors' ->
  exists mandatory default minimum min_value maximum max_value places too_long,
    py_get (answer self) "mandatory" PNone = Ok mandatory
    /\ py_get (answer self) "default" PNone = Ok default
    /\ py_get (answer self) "minimum" (PDict []) = Ok minimum
    /\ py_get minimum "value" (PInt 0) = Ok min_value
    /\ py_get (answer self) "maximum" (PDict []) = Ok maximum
    /\ py_get maximum "value" (PInt 0) = Ok max_value
    /\ py_get (answer self) "decimal_places" (PInt 0) = Ok places
    /\ py_gt places (PInt MAX_DECIMAL_PLACES) = Ok too_long
    /\ count_message msg errors'
       = (count_message msg errors
          + (if py_truthy mandatory && negb (is_none default)
                && String.eqb DEFAULT_ON_MANDATORY msg
             then 1 else 0)
          + (if below_limit min_value && String.eqb MINIMUM_LESS_THAN_LIMIT msg
             then 1 else 0)
          + (if above_limit max_value && String.eqb MAXIMUM_GREATER_THAN_LIMIT msg
             then 1 else 0)
          + (if too_long && String.eqb DECIMAL_PLACES_TOO_LONG msg then 1 else 0))%nat.
Proof.
  unfold numeric_checks. intros H.
  apply bind_ok in H as (e1 & H1 & H).
  apply bind_ok in H as (e2 & H2 & H).
  apply (count_numeric_default msg) in H1 as (mandatory & default & ? & ? & C1).
  apply (count_numeric_answer_value msg) in H2
    as (minimum & min_value & maximum & max_value & ? & ? & ? & ? & C2).
  apply (count_numeric_answer_decimals msg) in H as (places & too_long & ? & ? & C3).
  exists mandatory, default, minimum, min_value, maximum, max_value, places, too_long.
  repeat (split; [assumption|]).
  rewrite C3, C2, C1. reflexivity.
Qed.

Section Validate.

Variable urlparse : string -> string * string * string.
Variables now_min now_max : string.

Lemma accumulates_validate self : accumulates (validate urlparse now_min now_max self).
Proof.
  unfold validate.
  apply accumulates_bind_val; intros _.
  apply accumulates_bind; [apply accumulates_answer_actions|].
  apply accumulates_bind_val; intros _.
  apply accumulates_bind_val; intros _.
  apply accumulates_bind_val; intros valid_places.
  apply accumulates_bind; [accumulates_tac|].
  apply accumulates_bind_val; intros valid_dates.
  apply accumulates_bind; [accumulates_tac|].
  apply accumulates_bind_val; intros type.
  apply accumulates_bind; [accumulates_tac|].
  apply accumulates_bind_val; intros type'.
  destruct (list_contains type' numeric_types); [|apply accumulates_nothing].
  apply accumulates_numeric_checks.
Qed.


(** The count of a message among the records [validate] appends, check by
    check.  The two messages of [_validate_answer_actions] are counted by
    the loop over the options and are left out here. *)
Lemma validate_counts msg self errors :
  msg <> LIST_NAME_MISSING -> msg <> BLOCK_ID_MISSING ->
  validate urlparse now_min now_max self [] = Ok errors ->
  exists valid_places valid_dates type (invalid_url : bool) numeric,
    are_decimal_places_valid self = Ok valid_places
    /\ is_offset_date_valid now_min now_max self = Ok valid_dates
    /\ py_getitem (answer self) "type" = Ok type
    /\ (if py_eqb type (PStr "TextField") then
          let* has_url := py_in "suggestions_url" (answer self) in
          if has_url then
            let* valid := is_suggestion_url_valid urlparse self in Ok (negb valid)
          else Ok false
        else Ok false) = Ok invalid_url
    /\ (if list_contains type numeric_types then numeric_checks self [] else Ok [])
       = Ok numeric
    /\ count_message msg errors
       = ((if negb valid_places && String.eqb DECIMAL_PLACES_UNDEFINED msg
           then 1 else 0)
          + (if negb valid_dates && String.eqb INVALID_OFFSET_DATE msg then 1 else 0)
          + (if invalid_url && String.eqb INVALID_SUGGESTION_URL msg then 1 else 0)
          + count_message msg numeric)%nat.
Proof.
  intros Hl Hb H. unfold validate in H.
  apply bind_ok in H as (_ & _ & H).
  apply bind_ok in H as (e1 & E1 & H).
  apply bind_ok in H as (_ & _ & H).
  apply bind_ok in H as (_ & _ & H).
  apply bind_ok in H as (valid_places & Hplaces & H).
  apply bind_ok in H as (e2 & E2 & H).
  apply bind_ok in H as (valid_dates & Hdates & H).
  apply bind_ok in H as (e3 & E3 & H).
  apply bind_ok in H as (type & Htype & H).
  apply bind_ok in H as (e4 & E4 & H).
  apply bind_ok in H as (type' & Htype' & H).
  rewrite Htype in Htype'. injection Htype' as <-.
  assert (C1 : count_message msg e1 = 0%nat).
  { rewrite (count_message_through msg _ _ _ _ (appends_answer_actions self)
               ltac:(simpl; intuition congruence) E1).
    reflexivity. }
  apply count_message_guarded with (msg := msg) in E2.
  apply count_message_guarded with (msg := msg) in E3.
  assert (exists invalid_url : bool,
             (if py_eqb type (PStr "TextField") then
                let* has_url := py_in "suggestions_url" (answer self) in
                if has_url then
                  let* valid := is_suggestion_url_valid urlparse self in Ok (negb valid)
                else Ok false
              else Ok false) = Ok invalid_url
             /\ count_message msg e4
                = (count_message msg e3
                   + if invalid_url && String.eqb INVALID_SUGGESTION_URL msg
                     then 1 else 0)%nat) as (invalid_url & Hurl & C4).
  { destruct (py_eqb type (PStr "TextField")).
    - apply bind_ok in E4 as (has_url & Hhas & E4). rewrite Hhas. simpl bind.
      destruct has_url.
      + apply bind_ok in E4 as (valid & Hvalid & E4). rewrite Hvalid. simpl bind.
        apply count_message_guarded with (msg := msg) in E4. eauto.
      + injection E4 as <-. exists false. split; [reflexivity|simpl; lia].
    - injection E4 as <-. exists false. split; [reflexivity|simpl; lia]. }
  assert (exists numeric,
             (if list_contains type numeric_types then numeric_checks self []
              else Ok []) = Ok numeric
             /\ errors = e4 ++ numeric) as (numeric & Hnum & ->).
  { destruct (list_contains type numeric_types).
    - apply (accumulates_ok _ _ _ (accumulates_numeric_checks self)) in H.
      exact H.
    - injection H as <-. exists []. now rewrite app_nil_r. }
  exists valid_places, valid_dates, type, invalid_url, numeric.
  repeat (split; [assumption|]).
  rewrite count_message_app, C4, E3, E2, C1. reflexivity.
Qed.

(** X1.  [validate] only appends to [self.errors]: run on a list that
    already holds records it gives that list followed by what it gives on
    the empty list, and it raises on one exactly when it raises on the
    other.  Nothing resets the list, so running [validate] a second time on
    the same validator appends every record a second time. *)
Theorem validate_appends_to_errors self errors :
  validate urlparse now_min now_max self errors
  = let* added := validate urlparse now_min now_max self [] in Ok (errors ++ added).
Proof. apply accumulates_validate. Qed.

(** X2.  Whenever [validate] returns, the records it appended hold
    [DEFAULT_ON_MANDATORY] once when the answer's type is Number, Currency
    or Percentage, its [mandatory] is truthy and it has a [default] that is
    not [None]; otherwise they do not hold it. *)
Theorem default_on_mandatory_iff self d type errors :
  answer self = PDict d ->
  dict_get d "type" = Some type ->
  validate urlparse now_min now_max self [] = Ok errors ->
  count_message DEFAULT_ON_MANDATORY errors
  = if list_contains type numeric_types
       && match dict_get d "mandatory" with Some m => py_truthy m | None => false end
       && match dict_get d "default" with
          | Some default => negb (is_none default)
          | None => false
          end
    then 1%nat else 0%nat.
Proof.
  intros Hd Ht H.
  apply (validate_counts DEFAULT_ON_MANDATORY) in H
    as (valid_places & valid_dates & type' & invalid_url & numeric
        & _ & _ & Htype & _ & Hnum & ->); [|discriminate|discriminate].
  rewrite Hd in Htype. simpl in Htype. rewrite Ht in Htype. injection Htype as <-.
  rewrite !andb_false_r. cbn [Nat.add andb].
  destruct (list_contains type numeric_types); cbn [andb].
  - apply (numeric_checks_counts DEFAULT_ON_MANDATORY) in Hnum
      as (mandatory & default & minimum & min_value & maximum & max_value & places
          & too_long & Hm & Hdf & _ & _ & _ & _ & _ & _ & ->).
    rewrite Hd in Hm, Hdf. simpl in Hm, Hdf.
    injection Hm as <-. injection Hdf as <-.
    rewrite !andb_false_r, ?andb_true_r. cbn [Nat.add andb].
    destruct (dict_get d "mandatory") as [m|]; simpl; [|reflexivity].
    destruct (py_truthy m); simpl; [|reflexivity].
    destruct (dict_get d "default") as [df|]; simpl; [|reflexivity].
    destruct (is_none df); reflexivity.
  - injection Hnum as <-. reflexivity.
Qed.


(** X3.  Whenever [validate] returns, the records it appended hold
    [MINIMUM_LESS_THAN_LIMIT] once when the answer's type is Number,
    Currency or Percentage and the value of its minimum is an int below
    [MIN_NUMBER], and [MAXIMUM_GREATER_THAN_LIMIT] once when the value of
    its maximum is an int above [MAX_NUMBER]; otherwise they do not hold
    them.  A float, a boolean or a reference to another answer is never
    held against the limits. *)
Theorem system_limits_iff self type minimum min_value maximum max_value errors :
  py_getitem (answer self) "type" = Ok type ->
  py_get (answer self) "minimum" (PDict []) = Ok minimum ->
  py_get minimum "value" (PInt 0) = Ok min_value ->
  py_get (answer self) "maximum" (PDict []) = Ok maximum ->
  py_get maximum "value" (PInt 0) = Ok max_value ->
  validate urlparse now_min now_max self [] = Ok errors ->
  count_message MINIMUM_LESS_THAN_LIMIT errors
  = (if list_contains type numeric_types
        && match min_value with PInt z => (z <? MIN_NUMBER)%Z | _ => false end
     then 1%nat else 0%nat)
  /\ count_message MAXIMUM_GREATER_THAN_LIMIT errors
     = (if list_contains type numeric_types
           && match max_value with PInt z => (MAX_NUMBER <? z)%Z | _ => false end
        then 1%nat else 0%nat).
Proof.
  intros Ht Hmin Hminv Hmax Hmaxv H. split.
  - apply (validate_counts MINIMUM_LESS_THAN_LIMIT) in H
      as (valid_places & valid_dates & type' & invalid_url & numeric
          & _ & _ & Htype & _ & Hnum & ->); [|discriminate|discriminate].
    rewrite Ht in Htype. injection Htype as <-.
    rewrite !andb_false_r. cbn [Nat.add andb].
    destruct (list_contains type numeric_types); cbn [andb].
    + apply (numeric_checks_counts MINIMUM_LESS_THAN_LIMIT) in Hnum
        as (mandatory & default & minimum' & min_value' & maximum' & max_value' & places
            & too_long & _ & _ & Hm1 & Hm2 & _ & _ & _ & _ & ->).
      rewrite Hmin in Hm1. injection Hm1 as <-.
      rewrite Hminv in Hm2. injection Hm2 as <-.
      rewrite !andb_false_r, ?andb_true_r. cbn [Nat.add andb].
      fold (below_limit min_value). destruct (below_limit min_value); reflexivity.
    + injection Hnum as <-. reflexivity.
  - apply (validate_counts MAXIMUM_GREATER_THAN_LIMIT) in H
      as (valid_places & valid_dates & type' & invalid_url & numeric
          & _ & _ & Htype & _ & Hnum & ->); [|discriminate|discriminate].
    rewrite Ht in Htype. injection Htype as <-.
    rewrite !andb_false_r. cbn [Nat.add andb].
    destruct (list_contains type numeric_types); cbn [andb].
    + apply (numeric_checks_counts MAXIMUM_GREATER_THAN_LIMIT) in Hnum
        as (mandatory & default & minimum' & min_value' & maximum' & max_value' & places
            & too_long & _ & _ & _ & _ & Hm1 & Hm2 & _ & _ & ->).
      rewrite Hmax in Hm1. injection Hm1 as <-.
      rewrite Hmaxv in Hm2. injection Hm2 as <-.
      rewrite !andb_false_r, ?andb_true_r. cbn [Nat.add andb].
      fold (above_limit max_value). destruct (above_limit max_value); reflexivity.
    + injection Hnum as <-. reflexivity.
Qed.

(** X4.  Whenever [validate] returns, the records it appended hold
    [DECIMAL_PLACES_TOO_LONG] once when the answer's type is Number,
    Currency or Percentage and its [decimal_places] is greater than
    [MAX_DECIMAL_PLACES]; otherwise they do not hold it. *)
Theorem decimal_places_too_long_iff self type places errors :
  py_getitem (answer self) "type" = Ok type ->
  py_get (answer self) "decimal_places" (PInt 0) = Ok places ->
  validate urlparse now_min now_max self [] = Ok errors ->
  count_message DECIMAL_PLACES_TOO_LONG errors
  = if list_contains type numeric_types
    then match py_gt places (PInt MAX_DECIMAL_PLACES) with
         | Ok true => 1%nat
         | _ => 0%nat
         end
    else 0%nat.
Proof.
  intros Ht Hp H.
  apply (validate_counts DECIMAL_PLACES_TOO_LONG) in H
    as (valid_places & valid_dates & type' & invalid_url & numeric
        & _ & _ & Htype & _ & Hnum & ->); [|discriminate|discriminate].
  rewrite Ht in Htype. injection Htype as <-.
  rewrite !andb_false_r. cbn [Nat.add andb].
  destruct (list_contains type numeric_types); cbn [andb].
  - apply (numeric_checks_counts DECIMAL_PLACES_TOO_LONG) in Hnum
      as (mandatory & default & minimum' & min_value' & maximum' & max_value' & places'
          & too_long & _ & _ & _ & _ & _ & _ & Hp' & Hgt & ->).
    rewrite Hp in Hp'. injection Hp' as <-. rewrite Hgt.
    rewrite !andb_false_r, ?andb_true_r. cbn [Nat.add andb]. destruct too_long; reflexivity.
  - injection Hnum as <-. reflexivity.
Qed.

(** X5.  Whenever [validate] returns, whatever the answer's type, the
    records it appended hold [DECIMAL_PLACES_UNDEFINED] once when the
    answer has a [calculated] key and its [decimal_places] is missing or
    not equal to 2; otherwise they do not hold it. *)
Theorem decimal_places_undefined_iff self d errors :
  answer self = PDict d ->
  validate urlparse now_min now_max self [] = Ok errors ->
  count_message DECIMAL_PLACES_UNDEFINED errors
  = if dict_has d "calculated"
       && negb match dict_get d "decimal_places" with
               | Some places => py_eqb places (PInt 2)
               | None => false
               end
    then 1%nat else 0%nat.
Proof.
  intros Hd H.
  apply (validate_counts DECIMAL_PLACES_UNDEFINED) in H
    as (valid_places & valid_dates & type & invalid_url & numeric
        & Hplaces & _ & Htype & _ & Hnum & ->); [|discriminate|discriminate].
  rewrite !andb_false_r, ?andb_true_r. cbn [Nat.add andb].
  assert (Hn : count_message DECIMAL_PLACES_UNDEFINED numeric = 0%nat).
  { destruct (list_contains type numeric_types).
    - apply (numeric_checks_counts DECIMAL_PLACES_UNDEFINED) in Hnum
        as (? & ? & ? & ? & ? & ? & ? & ? & _ & _ & _ & _ & _ & _ & _ & _ & ->).
      rewrite !andb_false_r. reflexivity.
    - injection Hnum as <-. reflexivity. }
  rewrite Hn. unfold are_decimal_places_valid in Hplaces.
  rewrite Hd in Hplaces. simpl in Hplaces. unfold dict_has in *.
  destruct (dict_get d "calculated"); simpl in *.
  - destruct (dict_get d "decimal_places"); simpl in *;
      injection Hplaces as <-; simpl.
    + destruct (py_eqb p0 (PInt 2)); reflexivity.
    + reflexivity.
  - injection Hplaces as <-. reflexivity.
Qed.

(** X6.  Whenever [validate] returns, the records it appended hold
    [INVALID_SUGGESTION_URL] once when the answer's type is TextField, it
    has a [suggestions_url], and that URL has no scheme with a network
    location and a path that is not made of letters, digits and [_.-/~]
    only; otherwise they do not hold it. *)
Theorem invalid_suggestion_url_iff self d type errors :
  answer self = PDict d ->
  dict_get d "type" = Some type ->
  validate urlparse now_min now_max self [] = Ok errors ->
  count_message INVALID_SUGGESTION_URL errors
  = if py_eqb type (PStr "TextField")
    then match dict_get d "suggestions_url" with
         | Some (PStr u) =>
             let '(scheme, netloc, path) := urlparse u in
             if (negb (String.eqb scheme "") && negb (String.eqb netloc ""))
                || matches_path_chars path
             then 0%nat else 1%nat
         | _ => 0%nat
         end
    else 0%nat.
Proof.
  intros Hd Ht H.
  apply (validate_counts INVALID_SUGGESTION_URL) in H
    as (valid_places & valid_dates & type' & invalid_url & numeric
        & _ & _ & Htype & Hurl & Hnum & ->); [|discriminate|discriminate].
  rewrite Hd in Htype. simpl in Htype. rewrite Ht in Htype. injection Htype as <-.
  rewrite !andb_false_r, ?andb_true_r. cbn [Nat.add andb].
  assert (Hn : count_message INVALID_SUGGESTION_URL numeric = 0%nat).
  { destruct (list_contains type numeric_types).
    - apply (numeric_checks_counts INVALID_SUGGESTION_URL) in Hnum
        as (? & ? & ? & ? & ? & ? & ? & ? & _ & _ & _ & _ & _ & _ & _ & _ & ->).
      rewrite !andb_false_r. reflexivity.
    - injection Hnum as <-. reflexivity. }
  rewrite Hn, Nat.add_0_r. clear Hn Hnum.
  destruct (py_eqb type (PStr "TextField")); [|injection Hurl as <-; reflexivity].
  rewrite Hd in Hurl. unfold py_in, dict_has in Hurl. simpl bind in Hurl.
  unfold is_suggestion_url_valid, py_getitem in Hurl. rewrite Hd in Hurl.
  destruct (dict_get d "suggestions_url") as [u|];
    [|injection Hurl as <-; reflexivity].
  simpl bind in Hurl.
  destruct u; try discriminate.
  destruct (urlparse s) as [[scheme netloc] path].
  destruct (negb (String.eqb scheme "") && negb (String.eqb netloc "")).
  - injection Hurl as <-. reflexivity.
  - injection Hurl as <-. cbn [orb]. destruct (matches_path_chars path); reflexivity.
Qed.

End Validate.

(** A mandatory Number answer with a default, bounds beyond both system
    limits and seven decimal places. *)
Definition out_of_limits_fields : list (string * pyval) :=
  [("id", PStr "number-1"); ("type", PStr "Number"); ("mandatory", PBool true);
   ("default", PInt 0); ("decimal_places", PInt 7);
   ("minimum", PDict [("value", PInt (-1000000000))]);
   ("maximum", PDict [("value", PInt 10000000000)])].

Definition out_of_limits : t := __init__ (PDict out_of_limits_fields) PNone PNone PNone.

Definition out_of_limits_errors : list error :=
  [ {| message := Format DEFAULT_ON_MANDATORY []; context := [("id", PStr "number-1")] |};
    {| message := Format MINIMUM_LESS_THAN_LIMIT [];
       context := [("value", PInt (-1000000000)); ("limit", PInt MIN_NUMBER);
                   ("id", PStr "number-1")] |};
    {| message := Format MAXIMUM_GREATER_THAN_LIMIT [];
       context := [("value", PInt 10000000000); ("limit", PInt MAX_NUMBER);
                   ("id", PStr "number-1")] |};
    {| message := Format DECIMAL_PLACES_TOO_LONG [];
       context := [("decimal_places", PInt 7); ("limit", PInt MAX_DECIMAL_PLACES);
                   ("id", PStr "number-1")] |} ].

Lemma default_on_mandatory_iff_witness :
  count_message DEFAULT_ON_MANDATORY out_of_limits_errors = 1%nat.
Proof.
  apply (default_on_mandatory_iff path_only "2020-06-01" "2020-06-01" out_of_limits
           out_of_limits_fields (PStr "Number") out_of_limits_errors);
    reflexivity.
Defined.

Lemma system_limits_iff_witness :
  count_message MINIMUM_LESS_THAN_LIMIT out_of_limits_errors = 1%nat
  /\ count_message MAXIMUM_GREATER_THAN_LIMIT out_of_limits_errors = 1%nat.
Proof.
  apply (system_limits_iff path_only "2020-06-01" "2020-06-01" out_of_limits
           (PStr "Number") (PDict [("value", PInt (-1000000000))]) (PInt (-1000000000))
           (PDict [("value", PInt 10000000000)]) (PInt 10000000000)
           out_of_limits_errors);
    reflexivity.
Defined.

Lemma decimal_places_too_long_iff_witness :
  count_message DECIMAL_PLACES_TOO_LONG out_of_limits_errors = 1%nat.
Proof.
  apply (decimal_places_too_long_iff path_only "2020-06-01" "2020-06-01" out_of_limits
           (PStr "Number") (PInt 7) out_of_limits_errors);
    reflexivity.
Defined.

(** A calculated answer whose [decimal_places] is 3. *)
Definition calculated_fields : list (string * pyval) :=
  [("id", PStr "total-1"); ("type", PStr "Currency"); ("mandatory", PBool false);
   ("calculated", PBool true); ("decimal_places", PInt 3)].

Definition calculated_answer : t := __init__ (PDict calculated_fields) PNone PNone PNone.

Lemma decimal_places_undefined_iff_witness :
  count_message DECIMAL_PLACES_UNDEFINED
    [ {| message := Format DECIMAL_PLACES_UNDEFINED [];
         context := [("id", PStr "total-1")] |} ] = 1%nat.
Proof.
  apply (decimal_places_undefined_iff path_only "2020-06-01" "2020-06-01"
           calculated_answer calculated_fields);
    reflexivity.
Defined.

(** A text field whose suggestions URL has a space in its path. *)
Definition suggestions_fields : list (string * pyval) :=
  [("id", PStr "text-1"); ("type", PStr "TextField"); ("mandatory", PBool false);
   ("suggestions_url", PStr "not a url")].

Definition suggestions_answer : t := __init__ (PDict suggestions_fields) PNone PNone PNone.

Lemma invalid_suggestion_url_iff_witness :
  count_message INVALID_SUGGESTION_URL
    [ {| message := Format INVALID_SUGGESTION_URL [];
         context := [("id", PStr "text-1")] |} ] = 1%nat.
Proof.
  apply (invalid_suggestion_url_iff path_only "2020-06-01" "2020-06-01"
           suggestions_answer suggestions_fields (PStr "TextField"));
    reflexivity.
Defined.

End ErrorRecords.

(** ** The range table and the checks against it *)

Module RangeChecks.
Import Py AnswerValidator RangeProperties.

(** [_get_numeric_value] looks an identifier up in the table only to see
    whether it is there. *)
Lemma get_numeric_value_same_ids (t1 t2 : gmap string RangeEntry) v system_default :
  (forall id, is_Some (t1 !! id) <-> is_Some (t2 !! id)) ->
  _get_numeric_value v system_default t1 = _get_numeric_value v system_default t2.
Proof.
  intros H. unfold _get_numeric_value.
  destruct (negb (is_dict v)); [reflexivity|].
  destruct (py_in "source" v) as [has_source| |]; cbn [bind]; try reflexivity.
  destruct (if has_source
            then let* source := py_getitem v "source" in
                 Ok (py_eqb source (PStr "answers"))
            else Ok false) as [from_answers| |]; cbn [bind]; try reflexivity.
  destruct from_answers; [|reflexivity].
  destruct (py_getitem v "identifier") as [x| |]; cbn [bind]; try reflexivity.
  destruct x; cbn [ranges_get bind]; try reflexivity.
  specialize (H s).
  destruct (t1 !! s) as [e1|] eqn:E1, (t2 !! s) as [e2|] eqn:E2.
  - destruct (negb (is_none (default e1))), (negb (is_none (default e2))); reflexivity.
  - destruct H as [H _]. destruct (H (ex_intro _ e1 eq_refl)) as [? ?]. discriminate.
  - destruct H as [_ H]. destruct (H (ex_intro _ e2 eq_refl)) as [? ?]. discriminate.
  - reflexivity.
Qed.

(** X7.  The entry [get_numeric_range_values] computes depends on the
    table only through the set of identifiers that have an entry: the
    values, decimal places and defaults recorded for the other answers are
    never read, so two tables with the same identifiers give the same
    outcome, an exception included. *)
Theorem range_values_ignore_entries self (t1 t2 : gmap string RangeEntry) :
  (forall id, is_Some (t1 !! id) <-> is_Some (t2 !! id)) ->
  get_numeric_range_values self t1 = get_numeric_range_values self t2.
Proof.
  intros H. unfold get_numeric_range_values.
  destruct (bound_value self "minimum") as [min_value| |]; cbn [bind]; try reflexivity.
  destruct (bound_value self "maximum") as [max_value| |]; cbn [bind]; try reflexivity.
  destruct (py_get (answer self) "exclusive" (PBool false)) as [exclusive| |];
    cbn [bind]; try reflexivity.
  destruct (py_get (answer self) "decimal_places" (PInt 0)) as [places| |];
    cbn [bind]; try reflexivity.
  unfold _get_answer_minimum, _get_answer_maximum.
  rewrite (get_numeric_value_same_ids t1 t2 min_value _ H).
  rewrite (get_numeric_value_same_ids t1 t2 max_value _ H).
  reflexivity.
Qed.

(** An answer whose minimum refers to answer [a]. *)
Definition refers_to_a : t :=
  __init__
    (PDict [("id", PStr "b"); ("type", PStr "Number"); ("mandatory", PBool false);
            ("minimum", PDict [("value", reference_to "a")])])
    PNone PNone PNone.

Definition narrow_entry : RangeEntry :=
  {| min := PInt 10; max := PInt 20; decimal_places := PInt 0;
     min_referred := PNone; max_referred := PNone; default := PNone |}.

Definition wide_entry : RangeEntry :=
  {| min := PInt (-5); max := PInt 5000; decimal_places := PInt 2;
     min_referred := PNone; max_referred := PNone; default := PInt 1 |}.

Lemma range_values_ignore_entries_witness :
  get_numeric_range_values refers_to_a {[ "a" := narrow_entry ]}
  = get_numeric_range_values refers_to_a {[ "a" := wide_entry ]}.
Proof.
  apply (range_values_ignore_entries refers_to_a
           {[ "a" := narrow_entry ]} {[ "a" := wide_entry ]}).
  intros id. rewrite !lookup_singleton.
  destruct (decide ("a" = id)); split; intros [? ?]; eauto; discriminate.
Defined.

(** What a mapping resolves to. *)
Lemma get_numeric_value_of_dict answer_ranges d system_default r :
  _get_numeric_value (PDict d) system_default answer_ranges = Ok r ->
  r = system_default \/ r = PNone.
Proof.
  unfold _get_numeric_value. cbn [is_dict negb].
  intros H. apply bind_ok in H as (has_source & _ & H).
  apply bind_ok in H as (from_answers & _ & H).
  destruct from_answers; [|injection H as <-; auto].
  apply bind_ok in H as (x & _ & H).
  apply bind_ok in H as ([e|] & _ & H).
  - destruct (negb (is_none (default e))); injection H as <-; auto.
  - injection H as <-. auto.
Qed.

(** X8.  Without [exclusive], a bound that is missing or whose value is a
    mapping never takes a number from the table: the entry's [min] is 0 and
    its [max] is [MAX_NUMBER], or [None] when the mapping refers to an
    answer that has no entry.  The range of the referred answer is not used. *)
Theorem reference_resolves_to_default self answer_ranges exclusive e :
  py_get (answer self) "exclusive" (PBool false) = Ok exclusive ->
  py_truthy exclusive = false ->
  get_numeric_range_values self answer_ranges = Ok e ->
  (forall d, bound_value self "minimum" = Ok (PDict d) ->
             min e = PInt 0 \/ min e = PNone)
  /\ (forall d, bound_value self "maximum" = Ok (PDict d) ->
                max e = PInt MAX_NUMBER \/ max e = PNone).
Proof.
  intros Hx Hfalse H.
  apply range_values_inv in H
    as (min_value & max_value & exclusive' & Hmin & Hmax & Hx' & _ & Hlo & Hhi & _ & _).
  rewrite Hx in Hx'. injection Hx' as <-.
  apply answer_minimum_inv in Hlo as (m0 & Hm0 & Hlo).
  apply answer_maximum_inv in Hhi as (m1 & Hm1 & Hhi).
  rewrite Hfalse in Hlo, Hhi. subst m0 m1.
  split; intros d Hd.
  - rewrite Hd in Hmin. injection Hmin as <-.
    exact (get_numeric_value_of_dict _ _ _ _ Hm0).
  - rewrite Hd in Hmax. injection Hmax as <-.
    exact (get_numeric_value_of_dict _ _ _ _ Hm1).
Qed.

Lemma reference_resolves_to_default_witness :
  (forall d, bound_value refers_to_a "minimum" = Ok (PDict d) ->
             PInt 0 = PInt 0 \/ PInt 0 = PNone)
  /\ (forall d, bound_value refers_to_a "maximum" = Ok (PDict d) ->
                PInt MAX_NUMBER = PInt MAX_NUMBER \/ PInt MAX_NUMBER = PNone).
Proof.
  apply (reference_resolves_to_default refers_to_a {[ "a" := narrow_entry ]}
           (PBool false)
           {| min := PInt 0; max := PInt MAX_NUMBER; decimal_places := PInt 0;
              min_referred := PStr "a"; max_referred := PNone; default := PNone |});
    reflexivity.
Defined.

(** The record of [_validate_numeric_range]. *)
Definition range_error (min_value max_value : pyval) (id : string) : error :=
  {| message := Format INVALID_RANGE_TEMPLATE [min_value; max_value; PStr id];
     context := [("id", PStr id)] |}.

Lemma ranges_getitem_insert (answer_ranges : gmap string RangeEntry) id e :
  ranges_getitem (<[id := e]> answer_ranges) (PStr id) = Ok e.
Proof. unfold ranges_getitem, ranges_get. now rewrite lookup_insert_eq. Qed.

(** X9.  For an answer without [exclusive] whose bounds resolve to the
    ints [lo] and [hi] and refer to no other answer, the entry
    [get_numeric_range_values] computes holds [lo] and [hi], and the checks
    of [validate_numeric_answer_types] against a table that holds this entry
    append the invalid-range record exactly when [hi < lo]: a range of a
    single value ([lo = hi]) is accepted. *)
Theorem literal_range_checked
    self answer_ranges id min_value max_value exclusive lo hi errors :
  py_get (answer self) "id" PNone = Ok (PStr id) ->
  bound_value self "minimum" = Ok min_value ->
  bound_value self "maximum" = Ok max_value ->
  py_get (answer self) "exclusive" (PBool false) = Ok exclusive ->
  py_truthy exclusive = false ->
  _get_numeric_value min_value (PInt 0) answer_ranges = Ok (PInt lo) ->
  _get_numeric_value max_value (PInt MAX_NUMBER) answer_ranges = Ok (PInt hi) ->
  referred min_value = PNone -> referred max_value = PNone ->
  exists e,
    get_numeric_range_values self answer_ranges = Ok e
    /\ min e = PInt lo /\ max e = PInt hi
    /\ validate_numeric_answer_types self (<[id := e]> answer_ranges) errors
       = Ok (if (hi <? lo)%Z
             then errors ++ [range_error (PInt lo) (PInt hi) id]
             else errors).
Proof.
  intros Hid Hmin Hmax Hx Hfalse Hlo Hhi Hrmin Hrmax.
  destruct (ErrorRecords.py_get_total _ _ _ _ "decimal_places" (PInt 0) Hid)
    as (places & Hplaces).
  destruct (ErrorRecords.py_get_total _ _ _ _ "default" PNone Hid) as (dflt & Hdflt).
  assert (Hgi : py_getitem (answer self) "id" = Ok (PStr id))
    by (apply py_get_id; exact Hid).
  unfold get_numeric_range_values.
  rewrite Hmin, Hmax, Hx, Hplaces. cbn [bind]. rewrite Hrmin, Hrmax.
  unfold _get_answer_minimum, _get_answer_maximum.
  rewrite Hlo, Hhi, Hfalse, Hdflt. cbn [bind].
  eexists. split; [reflexivity|]. cbn [min max]. split; [reflexivity|].
  split; [reflexivity|].
  unfold validate_numeric_answer_types.
  erewrite referred_numeric_answer_none;
    [| exact Hid | apply lookup_insert_eq | discriminate | discriminate ].
  cbn [bind].
  unfold _validate_numeric_range. rewrite Hid. cbn [bind].
  rewrite ranges_getitem_insert. cbn [bind min max].
  unfold py_sub, arith, py_lt, py_compare. cbn [as_number bind].
  replace (match (hi - lo ?= 0)%Z with Lt => true | _ => false end)
    with (hi <? lo)%Z.
  2:{ unfold Z.ltb. destruct (Z.compare_spec hi lo), (Z.compare_spec (hi - lo) 0);
        try reflexivity; lia. }
  unfold _validate_referred_numeric_answer_decimals, referred_decimals.
  destruct (hi <? lo)%Z.
  - rewrite Hgi. cbn [bind]. unfold add_error_text. rewrite Hgi.
    cbn [bind]. rewrite ranges_getitem_insert. reflexivity.
  - cbn [bind]. rewrite Hgi. cbn [bind].
    rewrite ranges_getitem_insert. reflexivity.
Qed.

(** A Number answer with the bounds the wrong way round. *)
Definition inverted_range : t :=
  __init__
    (PDict [("id", PStr "n"); ("type", PStr "Number"); ("mandatory", PBool false);
            ("minimum", PDict [("value", PInt 10)]);
            ("maximum", PDict [("value", PInt 5)])])
    PNone PNone PNone.

Lemma literal_range_checked_witness :
  exists e,
    get_numeric_range_values inverted_range ∅ = Ok e
    /\ min e = PInt 10 /\ max e = PInt 5
    /\ validate_numeric_answer_types inverted_range (<["n" := e]> ∅) []
       = Ok (if (5 <? 10)%Z
             then [] ++ [range_error (PInt 10) (PInt 5) "n"]
             else []).
Proof.
  apply (literal_range_checked inverted_range ∅ "n" (PInt 10) (PInt 5) (PBool false));
    reflexivity.
Defined.

(** One block of [_validate_referred_numeric_answer_decimals] on a
    reference to an answer that has an entry. *)
Lemma referred_decimals_present self answer_ranges e x ex id (d dx : Z) errors :
  py_getitem (answer self) "id" = Ok (PStr id) ->
  answer_ranges !! x = Some ex ->
  decimal_places e = PInt d -> decimal_places ex = PInt dx ->
  referred_decimals self answer_ranges e (PStr x) errors
  = Ok (if (d <? dx)%Z
        then errors ++ [referred_error GREATER_DECIMALS_TEMPLATE (PStr x) id]
        else errors).
Proof.
  intros Hid Hx Hd Hdx. unfold referred_decimals, ranges_getitem, ranges_get.
  cbn [is_none negb bind]. rewrite Hx. cbn [bind]. rewrite Hd, Hdx.
  unfold py_lt, py_compare. cbn [as_number bind].
  change (match (d ?= dx)%Z with Lt => true | _ => false end) with (d <? dx)%Z.
  destruct (d <? dx)%Z; [|reflexivity].
  rewrite Hid. cbn [bind]. unfold add_error_text. rewrite Hid. reflexivity.
Qed.

(** X10.  For an answer whose entry names a referred answer that has an
    entry of its own, with int decimal places on both sides,
    [_validate_referred_numeric_answer_decimals] appends the record "has a
    greater number of decimal places" exactly when the answer has fewer
    decimal places than the referred one; when the minimum and the maximum
    both refer to that answer the record is appended twice. *)
Theorem referred_decimals_checked self answer_ranges id e x ex (d dx : Z) errors :
  py_getitem (answer self) "id" = Ok (PStr id) ->
  answer_ranges !! id = Some e ->
  answer_ranges !! x = Some ex ->
  decimal_places e = PInt d -> decimal_places ex = PInt dx ->
  (min_referred e = PStr x -> max_referred e = PNone ->
   _validate_referred_numeric_answer_decimals self answer_ranges errors
   = Ok (if (d <? dx)%Z
         then errors ++ [referred_error GREATER_DECIMALS_TEMPLATE (PStr x) id]
         else errors))
  /\ (min_referred e = PNone -> max_referred e = PStr x ->
      _validate_referred_numeric_answer_decimals self answer_ranges errors
      = Ok (if (d <? dx)%Z
            then errors ++ [referred_error GREATER_DECIMALS_TEMPLATE (PStr x) id]
            else errors))
  /\ (min_referred e = PStr x -> max_referred e = PStr x ->
      _validate_referred_numeric_answer_decimals self answer_ranges errors
      = Ok (if (d <? dx)%Z
            then errors ++ [referred_error GREATER_DECIMALS_TEMPLATE (PStr x) id;
                            referred_error GREATER_DECIMALS_TEMPLATE (PStr x) id]
            else errors)).
Proof.
  intros Hid He Hx Hd Hdx.
  unfold _validate_referred_numeric_answer_decimals.
  assert (Hget : ranges_getitem answer_ranges (PStr id) = Ok e)
    by (unfold ranges_getitem, ranges_get; now rewrite He).
  rewrite Hid. cbn [bind]. rewrite Hget. cbn [bind].
  split; [|split]; intros Hmin Hmax; rewrite Hmin, Hmax.
  - rewrite (referred_decimals_present _ _ _ _ _ _ _ _ _ Hid Hx Hd Hdx). cbn [bind].
    reflexivity.
  - change (referred_decimals self answer_ranges e PNone errors) with (Ok errors).
    cbn [bind]. apply (referred_decimals_present _ _ _ _ _ _ _ _ _ Hid Hx Hd Hdx).
  - rewrite (referred_decimals_present _ _ _ _ _ _ _ _ _ Hid Hx Hd Hdx). cbn [bind].
    rewrite (referred_decimals_present _ _ _ _ _ _ _ _ _ Hid Hx Hd Hdx).
    destruct (d <? dx)%Z; [|reflexivity]. now rewrite <- List.app_assoc.
Qed.

(** Answer [b] has no decimal places and takes both bounds from answer
    [a], which has two. *)
Definition answer_between : t :=
  __init__
    (PDict [("id", PStr "b"); ("type", PStr "Number"); ("mandatory", PBool false);
            ("minimum", PDict [("value", reference_to "a")]);
            ("maximum", PDict [("value", reference_to "a")])])
    PNone PNone PNone.

Definition entry_between : RangeEntry :=
  {| min := PInt 0; max := PInt MAX_NUMBER; decimal_places := PInt 0;
     min_referred := PStr "a"; max_referred := PStr "a"; default := PNone |}.

Definition entry_two_places : RangeEntry :=
  {| min := PInt 0; max := PInt 100; decimal_places := PInt 2;
     min_referred := PNone; max_referred := PNone; default := PNone |}.

Definition table_between : gmap string RangeEntry :=
  <["b" := entry_between]> {[ "a" := entry_two_places ]}.

Lemma referred_decimals_checked_witness :
  (min_referred entry_between = PStr "a" -> max_referred entry_between = PNone ->
   _validate_referred_numeric_answer_decimals answer_between table_between []
   = Ok (if (0 <? 2)%Z
         then [] ++ [referred_error GREATER_DECIMALS_TEMPLATE (PStr "a") "b"]
         else []))
  /\ (min_referred entry_between = PNone -> max_referred entry_between = PStr "a" ->
      _validate_referred_numeric_answer_decimals answer_between table_between []
      = Ok (if (0 <? 2)%Z
            then [] ++ [referred_error GREATER_DECIMALS_TEMPLATE (PStr "a") "b"]
            else []))
  /\ (min_referred entry_between = PStr "a" -> max_referred entry_between = PStr "a" ->
      _validate_referred_numeric_answer_decimals answer_between table_between []
      = Ok (if (0 <? 2)%Z
            then [] ++ [referred_error GREATER_DECIMALS_TEMPLATE (PStr "a") "b";
                        referred_error GREATER_DECIMALS_TEMPLATE (PStr "a") "b"]
            else [])).
Proof.
  apply (referred_decimals_checked answer_between table_between "b" entry_between
           "a" entry_two_places 0 2 []);
    reflexivity.
Defined.

(** The entry [get_numeric_range_values] computes for [answer_between] and
    the two records of the check. *)
Lemma answer_between_reported_twice :
  get_numeric_range_values answer_between {[ "a" := entry_two_places ]}
  = Ok entry_between
  /\ validate_numeric_answer_types answer_between table_between []
     = Ok [referred_error GREATER_DECIMALS_TEMPLATE (PStr "a") "b";
           referred_error GREATER_DECIMALS_TEMPLATE (PStr "a") "b"].
Proof. split; reflexivity. Qed.

(** X11.  Take an answer with a string id and a falsy [exclusive], whose
    minimum has as value a mapping with a string [identifier] and a source
    other than ["answers"] (or no source), and whose maximum resolves to an
    int that is not negative.  The minimum resolves to the system default 0,
    yet the identifier is stored as the entry's [min_referred].  When that
    identifier has no entry in the table and is not the answer's own id,
    [validate_numeric_answer_types], run on the table with the answer's
    entry added, does not report anything: the lookup in
    [_validate_referred_numeric_answer_decimals] raises [KeyError]. *)
Theorem reference_outside_answers_raises
    self answer_ranges id d x max_value exclusive hi errors :
  py_get (answer self) "id" PNone = Ok (PStr id) ->
  bound_value self "minimum" = Ok (PDict d) ->
  match dict_get d "source" with
  | Some source => py_eqb source (PStr "answers")
  | None => false
  end = false ->
  dict_get d "identifier" = Some (PStr x) ->
  answer_ranges !! x = None -> x <> id ->
  bound_value self "maximum" = Ok max_value ->
  _get_numeric_value max_value (PInt MAX_NUMBER) answer_ranges = Ok (PInt hi) ->
  (0 <= hi)%Z ->
  py_get (answer self) "exclusive" (PBool false) = Ok exclusive ->
  py_truthy exclusive = false ->
  exists e,
    get_numeric_range_values self answer_ranges = Ok e
    /\ min e = PInt 0 /\ min_referred e = PStr x
    /\ validate_numeric_answer_types self (<[id := e]> answer_ranges) errors
       = Raise KeyError.
Proof.
  intros Hid Hmin Hsrc Hident Hx Hne Hmax Hhi Hpos Hexcl Hfalse.
  destruct (ErrorRecords.py_get_total _ _ _ _ "decimal_places" (PInt 0) Hid)
    as (places & Hplaces).
  destruct (ErrorRecords.py_get_total _ _ _ _ "default" PNone Hid) as (dflt & Hdflt).
  assert (Hgi : py_getitem (answer self) "id" = Ok (PStr id))
    by (apply py_get_id; exact Hid).
  assert (Hlo : _get_numeric_value (PDict d) (PInt 0) answer_ranges = Ok (PInt 0)).
  { unfold _get_numeric_value, py_in, py_getitem, dict_has. cbn [is_dict negb bind].
    destruct (dict_get d "source") as [source|]; cbn [bind]; [|reflexivity].
    rewrite Hsrc. reflexivity. }
  unfold get_numeric_range_values.
  rewrite Hmin, Hmax, Hexcl, Hplaces. cbn [bind].
  unfold _get_answer_minimum, _get_answer_maximum.
  rewrite Hlo, Hhi, Hfalse, Hdflt. cbn [bind].
  eexists. split; [reflexivity|]. cbn [min min_referred referred]. rewrite Hident.
  split; [reflexivity|]. split; [reflexivity|].
  unfold validate_numeric_answer_types.
  erewrite referred_numeric_answer_none;
    [| exact Hid | apply lookup_insert_eq | discriminate | discriminate ].
  cbn [bind].
  unfold _validate_numeric_range. rewrite Hid. cbn [bind].
  rewrite ranges_getitem_insert. cbn [bind min max].
  unfold py_sub, arith, py_lt, py_compare. cbn [as_number bind].
  replace (hi - 0 ?= 0)%Z with (hi ?= 0)%Z by (f_equal; lia).
  destruct (Z.compare_spec hi 0) as [?|?|?]; try lia;
    unfold _validate_referred_numeric_answer_decimals, referred_decimals;
    rewrite Hgi; cbn [bind]; rewrite ranges_getitem_insert;
    cbn [bind min_referred is_none negb];
    unfold ranges_getitem, ranges_get;
    rewrite (lookup_insert_ne _ _ _ _ (not_eq_sym Hne)), Hx; reflexivity.
Qed.

(** A Number answer whose minimum comes from metadata. *)
Definition from_metadata : t :=
  __init__
    (PDict [("id", PStr "n"); ("type", PStr "Number"); ("mandatory", PBool false);
            ("minimum",
             PDict [("value", PDict [("source", PStr "metadata");
                                     ("identifier", PStr "threshold")])]);
            ("maximum", PDict [("value", PInt 100)])])
    PNone PNone PNone.

Lemma reference_outside_answers_raises_witness :
  exists e,
    get_numeric_range_values from_metadata ∅ = Ok e
    /\ min e = PInt 0 /\ min_referred e = PStr "threshold"
    /\ validate_numeric_answer_types from_metadata (<["n" := e]> ∅) [] = Raise KeyError.
Proof.
  apply (reference_outside_answers_raises from_metadata ∅ "n"
           [("source", PStr "metadata"); ("identifier", PStr "threshold")]
           "threshold" (PInt 100) (PBool false) 100);
    first [reflexivity | discriminate | lia].
Defined.

End RangeChecks.

(** ** The checks on the options *)

Module OptionChecks.
Import Py AnswerValidator ValidateProperties.

(** *** Labels and values *)

(** An option with a plain label is reported when its label differs from
    its value, unless the label contains the text [text_plural]. *)
Definition mismatching (lv : string * string) : bool :=
  negb (str_contains "text_plural" (fst lv)) && negb (String.eqb (fst lv) (snd lv)).

Lemma labels_and_values_step_plain self errors l v :
  labels_and_values_step self errors (option_of l v)
  = if str_contains "text_plural" l then Ok errors
    else if negb (String.eqb l v)
         then let* id := py_getitem (answer self) "id" in
              Ok (errors ++ [Format MISMATCH_TEMPLATE [PStr l; id]])
         else Ok errors.
Proof. reflexivity. Qed.

Lemma labels_and_values_loop self id (options : list (string * string)) :
  py_getitem (answer self) "id" = Ok id ->
  forall errors,
    foldM (labels_and_values_step self)
      (List.map (fun lv => option_of (fst lv) (snd lv)) options) errors
    = Ok (errors
          ++ List.map (fun lv => Format MISMATCH_TEMPLATE [PStr (fst lv); id])
               (List.filter mismatching options)).
Proof.
  intros Hid. induction options as [|[l v] options IH]; intros errors.
  - simpl. now rewrite app_nil_r.
  - cbn [List.map fst snd]. rewrite foldM_cons, labels_and_values_step_plain.
    change (List.filter mismatching ((l, v) :: options))
      with (if mismatching (l, v) then (l, v) :: List.filter mismatching options
            else List.filter mismatching options).
    change (mismatching (l, v))
      with (negb (str_contains "text_plural" l) && negb (String.eqb l v)).
    destruct (str_contains "text_plural" l); cbn [negb andb bind].
    + apply IH.
    + destruct (String.eqb l v); cbn [negb bind].
      * apply IH.
      * rewrite Hid. cbn [bind]. rewrite IH. cbn [List.map fst].
        now rewrite <- List.app_assoc.
Qed.

(** X12.  On options with plain labels and values,
    [validate_labels_and_values_match] returns one mismatch item per option
    whose label differs from its value, in the order of the options, each
    naming the label and the answer's id.  An option whose label contains
    the text [text_plural] is skipped even when its label and value differ. *)
Theorem labels_and_values_mismatches self id (options : list (string * string)) :
  AnswerValidator.options self
  = Ok (PList (List.map (fun lv => option_of (fst lv) (snd lv)) options)) ->
  py_getitem (answer self) "id" = Ok id ->
  validate_labels_and_values_match self
  = Ok (List.map (fun lv => Format MISMATCH_TEMPLATE [PStr (fst lv); id])
          (List.filter
             (fun lv => negb (str_contains "text_plural" (fst lv))
                        && negb (String.eqb (fst lv) (snd lv)))
             options)).
Proof.
  intros Hopts Hid. unfold validate_labels_and_values_match.
  rewrite Hopts. cbn [bind py_iter].
  exact (labels_and_values_loop self id options Hid []).
Qed.

Definition mismatched_options : t :=
  __init__
    (PDict [("id", PStr "radio-3"); ("type", PStr "Radio"); ("mandatory", PBool true);
            ("options", PList [option_of "Yes" "yes"; option_of "No" "No";
                               option_of "one text_plural" "many"])])
    PNone PNone PNone.

Lemma labels_and_values_mismatches_witness :
  validate_labels_and_values_match mismatched_options
  = Ok [Format MISMATCH_TEMPLATE [PStr "Yes"; PStr "radio-3"]].
Proof.
  apply (labels_and_values_mismatches mismatched_options (PStr "radio-3")
           [("Yes", "yes"); ("No", "No"); ("one text_plural", "many")]);
    reflexivity.
Defined.

(** *** Duplicates *)

(** [isinstance(option["label"], dict)], where the option has a label. *)
Definition has_placeholder_label (option : pyval) : bool :=
  match py_getitem option "label" with
  | Ok label => is_dict label
  | _ => false
  end.

Lemma duplicate_options_skip_placeholders options :
  forall acc,
    foldM duplicate_options_step options acc
    = foldM duplicate_options_step
        (List.filter (fun option => negb (has_placeholder_label option)) options) acc.
Proof.
  induction options as [|option options IH]; intros acc; [reflexivity|].
  cbn [List.filter]. unfold has_placeholder_label at 1.
  rewrite foldM_cons.
  destruct (py_getitem option "label") as [label| |] eqn:Hl.
  - destruct (is_dict label) eqn:Hd; cbn [negb].
    + unfold duplicate_options_step at 1. destruct acc as [[errors labels] values].
      rewrite Hl. cbn [bind]. rewrite Hd. cbn [bind]. apply IH.
    + rewrite foldM_cons. destruct (duplicate_options_step acc option); cbn [bind];
        [apply IH | reflexivity | reflexivity].
  - cbn [negb]. rewrite foldM_cons.
    destruct (duplicate_options_step acc option); cbn [bind];
      [apply IH | reflexivity | reflexivity].
  - cbn [negb]. rewrite foldM_cons.
    destruct (duplicate_options_step acc option); cbn [bind];
      [apply IH | reflexivity | reflexivity].
Qed.

(** X13.  [_validate_duplicate_options] does not see an option whose
    label is a mapping: neither its label nor its value is compared or
    remembered, so the outcome is the one for the answer without those
    options, and a value that only such an option repeats is not reported. *)
Theorem placeholder_options_skipped self self' options :
  AnswerValidator.options self = Ok (PList options) ->
  AnswerValidator.options self'
  = Ok (PList (List.filter (fun option => negb (has_placeholder_label option)) options)) ->
  _validate_duplicate_options self = _validate_duplicate_options self'.
Proof.
  intros H H'. unfold _validate_duplicate_options. rewrite H, H'. cbn [bind py_iter].
  now rewrite duplicate_options_skip_placeholders.
Qed.

Definition placeholder_option (value : string) : pyval :=
  PDict [("label", PDict [("text", PStr "{name}")]); ("value", PStr value)].

Definition with_placeholders : t :=
  __init__
    (PDict [("id", PStr "radio-4"); ("type", PStr "Radio"); ("mandatory", PBool true);
            ("options", PList [option_of "Yes" "a"; placeholder_option "a";
                               placeholder_option "a"])])
    PNone PNone PNone.

Definition without_placeholders : t :=
  __init__
    (PDict [("id", PStr "radio-4"); ("type", PStr "Radio"); ("mandatory", PBool true);
            ("options", PList [option_of "Yes" "a"])])
    PNone PNone PNone.

Lemma placeholder_options_skipped_witness :
  _validate_duplicate_options with_placeholders
  = _validate_duplicate_options without_placeholders.
Proof.
  apply (placeholder_options_skipped with_placeholders without_placeholders
           [option_of "Yes" "a"; placeholder_option "a"; placeholder_option "a"]);
    reflexivity.
Defined.

(** The items of [xs] are pairwise distinct and none is in [seen]. *)
Fixpoint fresh_all (seen xs : list string) : Prop :=
  match xs with
  | [] => True
  | x :: r => ~ In x seen /\ fresh_all (seen ++ [x]) r
  end.

Lemma fresh_all_spec xs :
  forall seen,
    fresh_all seen xs <-> List.NoDup xs /\ forall x, In x xs -> ~ In x seen.
Proof.
  induction xs as [|x r IH]; intros seen; cbn [fresh_all].
  - split; [intros _; split; [constructor | intros ? []] | auto].
  - rewrite IH, List.NoDup_cons_iff. split.
    + intros (Hx & Hr & Hd). repeat split; try assumption.
      * intros Hin. apply (Hd x Hin). apply in_or_app. right. now left.
      * intros y [<-|Hy]; [assumption|].
        intros Hs. apply (Hd y Hy). apply in_or_app. now left.
    + intros ((Hx & Hr) & Hd). repeat split; try assumption.
      * apply Hd. now left.
      * intros y Hy Hin. apply in_app_or in Hin as [Hin|[<-|[]]].
        -- apply (Hd y); [now right | assumption].
        -- contradiction.
Qed.

Lemma occurrences_zero v (l : list string) : occurrences v l = 0%nat <-> ~ In v l.
Proof.
  induction l as [|x l IH]; [split; [intros _ [] | reflexivity]|].
  rewrite occurrences_cons. cbn [In].
  destruct (String.eqb_spec v x) as [->|Hne].
  - split; [discriminate | intros H; exfalso; apply H; now left].
  - cbn [Nat.add]. rewrite IH. split.
    + intros H [Heq|Hin]; [congruence | contradiction].
    + intros H Hin. apply H. now right.
Qed.

Lemma duplicate_options_fresh (options : list (string * string)) :
  forall (errors : list text) (labels values : list string),
  exists added labels' values',
    foldM duplicate_options_step
      (List.map (fun lv => option_of (fst lv) (snd lv)) options)
      (errors, List.map PStr labels, List.map PStr values)
    = Ok (errors ++ added, labels', values')
    /\ (added = [] <->
        fresh_all labels (List.map fst options)
        /\ fresh_all values (List.map snd options)).
Proof.
  induction options as [|[l v] options IH]; intros errors labels values.
  - exists [], (List.map PStr labels), (List.map PStr values). cbn [List.map foldM].
    rewrite app_nil_r. split; [reflexivity|]. cbn [fresh_all]. tauto.
  - cbn [List.map fst snd fresh_all].
    rewrite foldM_cons, duplicate_options_step_plain. cbv zeta. cbn [bind].
    set (a1 := if negb (Nat.eqb (occurrences l labels) 0)
               then [Format DUPLICATE_LABEL [PStr l]] else []).
    set (a2 := if negb (Nat.eqb (occurrences v values) 0)
               then [Format DUPLICATE_VALUE [PStr v]] else []).
    assert (Hacc :
              (if negb (Nat.eqb (occurrences v values) 0)
               then (if negb (Nat.eqb (occurrences l labels) 0)
                     then errors ++ [Format DUPLICATE_LABEL [PStr l]] else errors)
                    ++ [Format DUPLICATE_VALUE [PStr v]]
               else if negb (Nat.eqb (occurrences l labels) 0)
                    then errors ++ [Format DUPLICATE_LABEL [PStr l]] else errors)
              = errors ++ a1 ++ a2).
    { unfold a1, a2.
      destruct (negb (Nat.eqb (occurrences l labels) 0)),
        (negb (Nat.eqb (occurrences v values) 0));
        rewrite <- ?List.app_assoc, ?app_nil_r; reflexivity. }
    rewrite Hacc.
    destruct (IH (errors ++ a1 ++ a2) (labels ++ [l]) (values ++ [v]))
      as (added & labels' & values' & Hrun & Hiff).
    exists (a1 ++ a2 ++ added), labels', values'. split.
    + rewrite Hrun. now rewrite <- !List.app_assoc.
    + assert (Ha1 : a1 = [] <-> ~ In l labels).
      { rewrite <- occurrences_zero. unfold a1.
        destruct (Nat.eqb_spec (occurrences l labels) 0) as [->|Hl]; cbn [negb];
          split; intros H; try reflexivity; try discriminate H; contradiction. }
      assert (Ha2 : a2 = [] <-> ~ In v values).
      { rewrite <- occurrences_zero. unfold a2.
        destruct (Nat.eqb_spec (occurrences v values) 0) as [->|Hv]; cbn [negb];
          split; intros H; try reflexivity; try discriminate H; contradiction. }
      split.
      * intros H. apply List.app_eq_nil in H as (H1 & H).
        apply List.app_eq_nil in H as (H2 & H3).
        apply Hiff in H3. tauto.
      * intros ((H1 & F1) & (H2 & F2)).
        apply Ha1 in H1. apply Ha2 in H2. rewrite H1, H2. cbn [app].
        apply Hiff. tauto.
Qed.

(** X14.  On options with plain labels and values,
    [_validate_duplicate_options] returns a list, and the list is empty
    exactly when no label and no value occurs twice. *)
Theorem no_duplicates_iff self (options : list (string * string)) :
  AnswerValidator.options self
  = Ok (PList (List.map (fun lv => option_of (fst lv) (snd lv)) options)) ->
  exists errors,
    _validate_duplicate_options self = Ok errors
    /\ (errors = [] <->
        List.NoDup (List.map fst options) /\ List.NoDup (List.map snd options)).
Proof.
  intros Hopts. unfold _validate_duplicate_options. rewrite Hopts. cbn [bind py_iter].
  destruct (duplicate_options_fresh options [] [] [])
    as (added & labels' & values' & Hrun & Hiff).
  cbn [List.map] in Hrun. rewrite Hrun. cbn [bind app].
  exists added. split; [reflexivity|].
  rewrite Hiff, !fresh_all_spec. cbn [In]. tauto.
Qed.

Definition duplicate_labels : t :=
  __init__
    (PDict [("id", PStr "radio-5"); ("type", PStr "Radio"); ("mandatory", PBool true);
            ("options", PList [option_of "Yes" "a"; option_of "Yes" "b"])])
    PNone PNone PNone.

Lemma no_duplicates_iff_witness :
  exists errors,
    _validate_duplicate_options duplicate_labels = Ok errors
    /\ (errors = [] <->
        List.NoDup (List.map fst [("Yes", "a"); ("Yes", "b")])
        /\ List.NoDup (List.map snd [("Yes", "a"); ("Yes", "b")])).
Proof.
  apply (no_duplicates_iff duplicate_labels [("Yes", "a"); ("Yes", "b")]).
  reflexivity.
Defined.

End OptionChecks.

(** ** Routing over the options *)

Module RoutingChecks.
Import Py AnswerValidator ValidateProperties.

(** Once the list of option values is empty it stays empty. *)
Lemma routing_when_step_nil self when r :
  routing_when_step self [] when = Ok r -> r = [].
Proof.
  unfold routing_when_step. intros H.
  apply bind_ok in H as (has_id & _ & H).
  destruct has_id; cbn [negb] in H; [|now injection H].
  apply bind_ok in H as (has_value & _ & H).
  destruct has_value; cbn [negb] in H; [|now injection H].
  apply bind_ok in H as (id & _ & H).
  apply bind_ok in H as (my_id & _ & H).
  destruct (py_eqb id my_id); cbn [negb] in H; [|now injection H].
  apply bind_ok in H as (value & _ & H).
  cbn [list_contains existsb] in H. now injection H.
Qed.

Lemma routing_when_loop_nil self whens :
  forall r, foldM (routing_when_step self) whens [] = Ok r -> r = [].
Proof.
  induction whens as [|when whens IH]; intros r H.
  - now injection H.
  - rewrite foldM_cons in H. apply bind_ok in H as (r1 & H1 & H).
    apply routing_when_step_nil in H1 as ->. exact (IH _ H).
Qed.

Lemma routing_rule_step_nil self rule r :
  routing_rule_step self [] rule = Ok r -> r = [].
Proof.
  unfold routing_rule_step. intros H.
  apply bind_ok in H as (w & _ & H).
  destruct w; [|now injection H].
  apply bind_ok in H as (goto & _ & H).
  apply bind_ok in H as (when_clause & _ & H).
  apply bind_ok in H as (whens & _ & H).
  exact (routing_when_loop_nil _ _ _ H).
Qed.

Lemma routing_rule_loop_nil self rules :
  forall r, foldM (routing_rule_step self) rules [] = Ok r -> r = [].
Proof.
  induction rules as [|rule rules IH]; intros r H.
  - now injection H.
  - rewrite foldM_cons in H. apply bind_ok in H as (r1 & H1 & H).
    apply routing_rule_step_nil in H1 as ->. exact (IH _ H).
Qed.

(** A rule without a [when] empties the list. *)
Lemma routing_rule_loop_default self rules rule :
  In rule rules -> has_when rule = Ok false ->
  forall option_values r,
    foldM (routing_rule_step self) rules option_values = Ok r -> r = [].
Proof.
  intros Hin Hw. induction rules as [|x rules IH]; [destruct Hin|].
  intros option_values r H.
  rewrite foldM_cons in H. apply bind_ok in H as (r1 & H1 & H).
  destruct Hin as [->|Hin].
  - unfold routing_rule_step in H1. rewrite Hw in H1. cbn [bind] in H1.
    injection H1 as <-. exact (routing_rule_loop_nil _ _ _ H).
  - exact (IH Hin _ _ H).
Qed.

Lemma has_default_route_rules_default rules rule b :
  In rule rules -> has_when rule = Ok false ->
  has_default_route_rules rules = Ok b -> b = true.
Proof.
  intros Hin Hw. induction rules as [|x rules IH]; [destruct Hin|].
  cbn [has_default_route_rules]. intros H.
  apply bind_ok in H as (w & Hx & H).
  destruct w; cbn [negb] in H; [|now injection H].
  destruct Hin as [->|Hin]; [congruence|]. exact (IH Hin H).
Qed.

(** X15.  When one of the block's routing rules has no [goto] or no
    [when] under its [goto], [_validate_routing_on_answer_options] reports
    nothing, whatever the other rules and the options are: such a rule
    counts as the default route and as a route for every option. *)
Theorem default_rule_silences_routing self rules rule :
  py_getitem (block self) "routing_rules" = Ok (PList rules) ->
  In rule rules -> has_when rule = Ok false ->
  is_ok (_validate_routing_on_answer_options self) = true ->
  _validate_routing_on_answer_options self = Ok [].
Proof.
  intros Hrules Hin Hw Hok.
  destruct (_validate_routing_on_answer_options self) as [errors| |] eqn:H;
    try discriminate Hok.
  f_equal. clear Hok. unfold _validate_routing_on_answer_options in H.
  apply bind_ok in H as (applies & _ & H).
  destruct applies; [|now injection H].
  apply bind_ok in H as (options & _ & H).
  apply bind_ok in H as (items & _ & H).
  apply bind_ok in H as (option_values & _ & H).
  rewrite Hrules in H. cbn [bind py_iter] in H.
  apply bind_ok in H as (remaining & Hloop & H).
  apply (routing_rule_loop_default _ _ _ Hin Hw) in Hloop as ->.
  apply bind_ok in H as (mandatory & _ & H).
  apply bind_ok in H as (answer_errors & Herrors & H).
  injection H as <-.
  destruct mandatory as [|[]| | | | |]; try (now injection Herrors).
  apply bind_ok in Herrors as (default & Hdefault & Herrors).
  unfold has_default_route in Hdefault. rewrite Hrules in Hdefault.
  cbn [bind py_iter] in Hdefault.
  apply (has_default_route_rules_default _ _ _ Hin Hw) in Hdefault as ->.
  now injection Herrors.
Qed.

(** The block of the routed answer, with a last rule that has no [when]. *)
Definition block_with_default : pyval :=
  PDict [("id", PStr "block-1"); ("type", PStr "Question");
         ("routing_rules",
          PList [routing_rule "Yes"; PDict [("goto", PDict [("block", PStr "block-3")])]])].

Definition answer_with_default : t :=
  __init__
    (PDict [("id", PStr "radio-2"); ("type", PStr "Radio"); ("mandatory", PBool false);
            ("options", PList [option_of "Yes" "Yes"; option_of "No" "No"])])
    block_with_default PNone PNone.

Lemma default_rule_silences_routing_witness :
  _validate_routing_on_answer_options answer_with_default = Ok [].
Proof.
  apply (default_rule_silences_routing answer_with_default
           [routing_rule "Yes"; PDict [("goto", PDict [("block", PStr "block-3")])]]
           (PDict [("goto", PDict [("block", PStr "block-3")])]));
    [reflexivity | right; left; reflexivity | reflexivity | reflexivity].
Defined.

(** The rules only remove items from the list of option values. *)
Lemma list_remove_sublist x l : sublist (list_remove x l) l.
Proof.
  induction l as [|y l IH]; cbn [list_remove]; [constructor|].
  destruct (py_eqb y x).
  - now apply sublist_cons.
  - now apply sublist_skip.
Qed.

Lemma routing_when_step_sublist self option_values when r :
  routing_when_step self option_values when = Ok r -> sublist r option_values.
Proof.
  unfold routing_when_step. intros H.
  apply bind_ok in H as (has_id & _ & H).
  destruct has_id; cbn [negb] in H; [|injection H as <-; reflexivity].
  apply bind_ok in H as (has_value & _ & H).
  destruct has_value; cbn [negb] in H; [|injection H as <-; reflexivity].
  apply bind_ok in H as (id & _ & H).
  apply bind_ok in H as (my_id & _ & H).
  destruct (py_eqb id my_id); cbn [negb] in H; [|injection H as <-; reflexivity].
  apply bind_ok in H as (value & _ & H).
  destruct (list_contains value option_values); injection H as <-;
    [apply list_remove_sublist | reflexivity].
Qed.

Lemma routing_when_loop_sublist self whens :
  forall option_values r,
    foldM (routing_when_step self) whens option_values = Ok r ->
    sublist r option_values.
Proof.
  induction whens as [|when whens IH]; intros option_values r H.
  - injection H as <-. reflexivity.
  - rewrite foldM_cons in H. apply bind_ok in H as (r1 & H1 & H).
    etrans; [exact (IH _ _ H) | exact (routing_when_step_sublist _ _ _ _ H1)].
Qed.

Lemma routing_rule_step_sublist self option_values rule r :
  routing_rule_step self option_values rule = Ok r -> sublist r option_values.
Proof.
  unfold routing_rule_step. intros H.
  apply bind_ok in H as (w & _ & H).
  destruct w; [|injection H as <-; apply sublist_nil_l].
  apply bind_ok in H as (goto & _ & H).
  apply bind_ok in H as (when_clause & _ & H).
  apply bind_ok in H as (whens & _ & H).
  exact (routing_when_loop_sublist _ _ _ _ H).
Qed.

Lemma routing_rule_loop_sublist self rules :
  forall option_values r,
    foldM (routing_rule_step self) rules option_values = Ok r ->
    sublist r option_values.
Proof.
  induction rules as [|rule rules IH]; intros option_values r H.
  - injection H as <-. reflexivity.
  - rewrite foldM_cons in H. apply bind_ok in H as (r1 & H1 & H).
    etrans; [exact (IH _ _ H) | exact (routing_rule_step_sublist _ _ _ _ H1)].
Qed.

Lemma mapM_length {A B} (f : A -> result B) xs :
  forall ys, mapM f xs = Ok ys -> List.length ys = List.length xs.
Proof.
  induction xs as [|x xs IH]; intros ys H.
  - injection H as <-. reflexivity.
  - cbn [mapM] in H. apply bind_ok in H as (y & _ & H).
    apply bind_ok in H as (ys' & Hys & H). injection H as <-.
    cbn [List.length]. now rewrite (IH _ Hys).
Qed.

(** X16.  The options an unrouted-options item lists are what is left of
    the option values, in their order, after the rules removed the routed
    ones: at least one and fewer than all of them.  In particular, when no
    rule names any option of the answer, nothing is reported although no
    option is routed. *)
Theorem unrouted_options_proper_sublist self options errors id missing :
  AnswerValidator.options self = Ok (PList options) ->
  _validate_routing_on_answer_options self = Ok errors ->
  In (Format UNROUTED_TEMPLATE [id; PList missing]) errors ->
  exists values,
    mapM (fun option => py_getitem option "value") options = Ok values
    /\ sublist missing values
    /\ missing <> []
    /\ (List.length missing < List.length values)%nat.
Proof.
  intros Hopts H Hin. unfold _validate_routing_on_answer_options in H.
  apply bind_ok in H as (applies & _ & H).
  destruct applies; [|injection H as <-; destruct Hin].
  rewrite Hopts in H. cbn [bind py_iter] in H.
  apply bind_ok in H as (values & Hvalues & H).
  apply bind_ok in H as (rules & _ & H).
  apply bind_ok in H as (rule_list & _ & H).
  apply bind_ok in H as (remaining & Hloop & H).
  apply bind_ok in H as (mandatory & _ & H).
  apply bind_ok in H as (answer_errors & Herrors & H).
  assert (Hnot : ~ In (Format UNROUTED_TEMPLATE [id; PList missing]) answer_errors).
  { destruct mandatory as [|[]| | | | |];
      try (injection Herrors as <-; intros []).
    apply bind_ok in Herrors as (default & _ & Herrors).
    destruct (negb default); [|injection Herrors as <-; intros []].
    apply bind_ok in Herrors as (id' & _ & Herrors). injection Herrors as <-.
    intros [Heq|[]]. discriminate Heq. }
  apply routing_rule_loop_sublist in Hloop.
  pose proof (sublist_length _ _ Hloop) as Hlen.
  pose proof (mapM_length _ _ _ Hvalues) as Hvlen.
  exists values. split; [exact Hvalues|].
  destruct remaining as [|x remaining]; [injection H as <-; contradiction|].
  destruct (Nat.eqb_spec (List.length (x :: remaining)) (List.length options))
    as [Heq|Hne]; cbn [negb] in H.
  - injection H as <-. contradiction.
  - apply bind_ok in H as (id' & _ & H). injection H as <-.
    apply in_app_or in Hin as [Hin|[Heq|[]]]; [contradiction|].
    injection Heq as <- <-.
    split; [assumption|]. split; [discriminate|]. lia.
Qed.

(** The routed answer with a third option that no rule names. *)
Definition partly_routed (mandatory : bool) : t :=
  __init__
    (PDict [("id", PStr "radio-2"); ("type", PStr "Radio"); ("mandatory", PBool mandatory);
            ("options", PList [option_of "Yes" "Yes"; option_of "No" "No";
                               option_of "Other" "Other"])])
    routed_block PNone PNone.

Lemma unrouted_options_proper_sublist_witness :
  exists values,
    mapM (fun option => py_getitem option "value")
      [option_of "Yes" "Yes"; option_of "No" "No"; option_of "Other" "Other"]
    = Ok values
    /\ sublist [PStr "Other"] values
    /\ [PStr "Other"] <> []
    /\ (List.length [PStr "Other"] < List.length values)%nat.
Proof.
  apply (unrouted_options_proper_sublist (partly_routed true) _
           [Format UNROUTED_TEMPLATE [PStr "radio-2"; PList [PStr "Other"]]]
           (PStr "radio-2"));
    [reflexivity | reflexivity | left; reflexivity].
Defined.

(** *** Rules made of conditions on answers *)

(** A condition [{"id": id, "condition": "equals", "value": value}]. *)
Definition when_of (c : string * string) : pyval :=
  PDict [("id", PStr (fst c)); ("condition", PStr "equals"); ("value", PStr (snd c))].

(** A rule that goes to a block when its conditions hold. *)
Definition rule_of (conditions : list (string * string)) : pyval :=
  PDict [("goto", PDict [("block", PStr "block-2");
                         ("when", PList (List.map when_of conditions))])].

(** The values the conditions on answer [id] name. *)
Definition named (id : string) (conditions : list (string * string)) : list string :=
  List.map snd (List.filter (fun c => String.eqb (fst c) id) conditions).

(** The items of [values] that are not in [routed]. *)
Definition not_in (routed : list string) (values : list string) : list string :=
  List.filter (fun v => negb (existsb (String.eqb v) routed)) values.

Lemma not_in_cons routed v values :
  not_in routed (v :: values)
  = if negb (existsb (String.eqb v) routed) then v :: not_in routed values
    else not_in routed values.
Proof. reflexivity. Qed.

Lemma not_in_nil values : not_in [] values = values.
Proof.
  induction values as [|v values IH]; [reflexivity|].
  rewrite not_in_cons. cbn [existsb negb]. now rewrite IH.
Qed.

Lemma not_in_app routed1 routed2 values :
  not_in routed2 (not_in routed1 values) = not_in (routed1 ++ routed2) values.
Proof.
  induction values as [|v values IH]; [reflexivity|].
  rewrite !not_in_cons, existsb_app, negb_orb.
  destruct (existsb (String.eqb v) routed1); cbn [negb andb]; [exact IH|].
  rewrite not_in_cons. destruct (negb (existsb (String.eqb v) routed2)); now rewrite IH.
Qed.

Lemma not_in_NoDup routed values : List.NoDup values -> List.NoDup (not_in routed values).
Proof. apply List.NoDup_filter. Qed.

Lemma not_in_absent v values : ~ In v values -> not_in [v] values = values.
Proof.
  induction values as [|x values IH]; intros Hnot; [reflexivity|].
  rewrite not_in_cons. cbn [existsb]. rewrite orb_false_r.
  destruct (String.eqb_spec x v) as [->|Hne].
  - exfalso. apply Hnot. now left.
  - cbn [negb]. rewrite IH; [reflexivity|]. intros Hin. apply Hnot. now right.
Qed.

(** [option_values.remove(value)] on values that do not repeat. *)
Lemma list_remove_strings v values :
  List.NoDup values ->
  list_remove (PStr v) (List.map PStr values) = List.map PStr (not_in [v] values).
Proof.
  induction values as [|x values IH]; intros Hnd; [reflexivity|].
  apply List.NoDup_cons_iff in Hnd as (Hx & Hnd).
  cbn [List.map list_remove py_eqb]. rewrite not_in_cons. cbn [existsb].
  rewrite orb_false_r.
  destruct (String.eqb_spec x v) as [->|Hne]; cbn [negb].
  - now rewrite (not_in_absent _ _ Hx).
  - cbn [List.map]. f_equal. exact (IH Hnd).
Qed.

Lemma routing_when_step_strings self id c values :
  py_getitem (answer self) "id" = Ok (PStr id) ->
  List.NoDup values ->
  routing_when_step self (List.map PStr values) (when_of c)
  = Ok (List.map PStr (not_in (named id [c]) values)).
Proof.
  intros Hid Hnd. destruct c as [i v]. unfold routing_when_step, when_of.
  cbn [py_in dict_has dict_get String.eqb Ascii.eqb Bool.eqb fst snd bind negb
       py_getitem].
  rewrite Hid. cbn [bind py_eqb]. unfold named. cbn [List.filter fst].
  destruct (String.eqb i id); cbn [negb List.map snd].
  - rewrite list_contains_strings.
    destruct (Nat.eqb_spec (occurrences v values) 0) as [Hz|Hnz]; cbn [negb].
    + apply OptionChecks.occurrences_zero in Hz. now rewrite (not_in_absent _ _ Hz).
    + now rewrite (list_remove_strings _ _ Hnd).
  - now rewrite not_in_nil.
Qed.

Lemma named_cons id c conditions :
  named id (c :: conditions) = named id [c] ++ named id conditions.
Proof.
  unfold named. cbn [List.filter]. destruct (String.eqb (fst c) id); reflexivity.
Qed.

Lemma named_app id conditions1 conditions2 :
  named id (conditions1 ++ conditions2) = named id conditions1 ++ named id conditions2.
Proof. unfold named. now rewrite List.filter_app, List.map_app. Qed.

Lemma routing_when_loop_strings self id conditions :
  py_getitem (answer self) "id" = Ok (PStr id) ->
  forall values,
    List.NoDup values ->
    foldM (routing_when_step self) (List.map when_of conditions) (List.map PStr values)
    = Ok (List.map PStr (not_in (named id conditions) values)).
Proof.
  intros Hid. induction conditions as [|c conditions IH]; intros values Hnd.
  - cbn [List.map foldM]. unfold named. cbn [List.filter List.map].
    now rewrite not_in_nil.
  - cbn [List.map]. rewrite foldM_cons, (routing_when_step_strings _ _ _ _ Hid Hnd).
    cbn [bind]. rewrite (IH _ (not_in_NoDup _ _ Hnd)), not_in_app.
    now rewrite <- named_cons.
Qed.

Lemma routing_rule_step_of self option_values conditions :
  routing_rule_step self option_values (rule_of conditions)
  = foldM (routing_when_step self) (List.map when_of conditions) option_values.
Proof. reflexivity. Qed.

Lemma has_when_rule_of conditions : has_when (rule_of conditions) = Ok true.
Proof. reflexivity. Qed.

Lemma routing_rule_loop_strings self id rules :
  py_getitem (answer self) "id" = Ok (PStr id) ->
  forall values,
    List.NoDup values ->
    foldM (routing_rule_step self) (List.map rule_of rules) (List.map PStr values)
    = Ok (List.map PStr (not_in (named id (List.concat rules)) values)).
Proof.
  intros Hid. induction rules as [|conditions rules IH]; intros values Hnd.
  - cbn [List.map foldM List.concat]. unfold named. cbn [List.filter List.map].
    now rewrite not_in_nil.
  - cbn [List.map]. rewrite foldM_cons, routing_rule_step_of.
    rewrite (routing_when_loop_strings _ _ _ Hid _ Hnd). cbn [bind].
    rewrite (IH _ (not_in_NoDup _ _ Hnd)), not_in_app.
    cbn [List.concat]. now rewrite named_app.
Qed.

Lemma has_default_route_rules_none rules :
  has_default_route_rules (List.map rule_of rules) = Ok false.
Proof.
  induction rules as [|conditions rules IH]; [reflexivity|].
  cbn [List.map has_default_route_rules]. rewrite has_when_rule_of.
  cbn [bind negb]. exact IH.
Qed.

Lemma option_values_plain (options : list (string * string)) :
  mapM (fun option => py_getitem option "value")
    (List.map (fun lv => option_of (fst lv) (snd lv)) options)
  = Ok (List.map PStr (List.map snd options)).
Proof.
  induction options as [|[l v] options IH]; [reflexivity|].
  cbn [List.map mapM fst snd]. rewrite IH. reflexivity.
Qed.

(** X17.  Where the routing check applies, for options with plain labels
    and values that do not repeat and rules that each go to a block under
    conditions on answers: the check returns the missing-default item when
    [mandatory] is [False] (no rule is a default), followed by one
    unrouted-options item that lists, in option order, the values no
    condition on this answer names, provided at least one value is named
    and at least one is not. *)
Theorem routing_coverage_exact
    self id (mandatory : bool) (options : list (string * string))
    (rules : list (list (string * string))) :
  routing_applies self = Ok true ->
  py_getitem (answer self) "id" = Ok (PStr id) ->
  py_getitem (answer self) "mandatory" = Ok (PBool mandatory) ->
  AnswerValidator.options self
  = Ok (PList (List.map (fun lv => option_of (fst lv) (snd lv)) options)) ->
  py_getitem (block self) "routing_rules" = Ok (PList (List.map rule_of rules)) ->
  List.NoDup (List.map snd options) ->
  _validate_routing_on_answer_options self
  = Ok ((if mandatory then [] else [Format DEFAULT_ROUTE_TEMPLATE [PStr id]])
        ++ let missing := not_in (named id (List.concat rules)) (List.map snd options) in
           if Nat.eqb (List.length missing) 0
              || Nat.eqb (List.length missing) (List.length options)
           then []
           else [Format UNROUTED_TEMPLATE [PStr id; PList (List.map PStr missing)]]).
Proof.
  intros Happlies Hid Hm Hopts Hrules Hnd.
  unfold _validate_routing_on_answer_options.
  rewrite Happlies, Hopts. cbn [bind py_iter].
  rewrite option_values_plain, Hrules. cbn [bind py_iter].
  rewrite (routing_rule_loop_strings _ _ _ Hid _ Hnd). cbn [bind].
  rewrite Hm. cbn [bind].
  unfold has_default_route. rewrite Hrules. cbn [bind py_iter].
  rewrite has_default_route_rules_none. cbn [bind negb]. rewrite Hid. cbn [bind].
  set (missing := not_in (named id (List.concat rules)) (List.map snd options)).
  cbv zeta. rewrite !List.length_map.
  destruct missing as [|x missing].
  - cbn [List.map List.length Nat.eqb orb]. destruct mandatory; reflexivity.
  - cbn [List.map]. change (List.length (x :: missing) =? 0)%nat with false.
    cbn [orb].
    destruct (Nat.eqb (List.length (x :: missing)) (List.length options));
      cbn [negb]; destruct mandatory; reflexivity.
Qed.

Lemma routing_coverage_exact_witness :
  _validate_routing_on_answer_options (partly_routed false)
  = Ok [Format DEFAULT_ROUTE_TEMPLATE [PStr "radio-2"];
        Format UNROUTED_TEMPLATE [PStr "radio-2"; PList [PStr "Other"]]].
Proof.
  apply (routing_coverage_exact (partly_routed false) "radio-2" false
           [("Yes", "Yes"); ("No", "No"); ("Other", "Other")]
           [[("radio-2", "Yes")]; [("radio-2", "No")]]);
    try reflexivity.
  repeat constructor; cbn [In]; intuition discriminate.
Defined.

(** When no condition names the answer, or every option is named, the
    check has nothing to say about the options. *)
Lemma nothing_routed_nothing_reported :
  _validate_routing_on_answer_options
    (__init__
       (PDict [("id", PStr "radio-9"); ("type", PStr "Radio"); ("mandatory", PBool true);
               ("options", PList [option_of "Yes" "Yes"; option_of "No" "No"])])
       routed_block PNone PNone)
  = Ok [].
Proof. reflexivity. Qed.

End RoutingChecks.

(** ** The schema index: more of [QuestionnaireSchema] *)

Module SchemaIndex.
Import Py JsonPath QuestionnaireSchema SchemaProperties.

(** *** [answer_id_to_option_values_map] *)

(** [s.update(xs)] on a set kept as the list of its members. *)
Definition set_update (s xs : list pyval) : list pyval := fold_left set_add xs s.

(** One turn of the loop of [answer_id_to_option_values_map] over the
    [defaultdict(set)]: the key and every value are hashed. *)
Definition option_values_step (d : list (pyval * list pyval)) (answer : pyval)
    : result (list (pyval * list pyval)) :=
  let* has_options := py_in "options" answer in
  if negb has_options then Ok d else
  let* answer_id := py_getitem answer "id" in
  let* options := py_getitem answer "options" in
  let* options := py_iter options in
  let* option_values := mapM (fun option => py_getitem option "value") options in
  if negb (hashable answer_id) then Raise TypeError else
  let s := match pydict_get d answer_id with Some s => s | None => [] end in
  if forallb hashable option_values
  then Ok (pydict_set d answer_id (set_update s option_values))
  else Raise TypeError.

(** The cached attributes of [QuestionnaireSchema.caches] and the one of
    [answer_id_to_option_values_map]. *)
Record index_caches := {
  generators : caches;
  option_values_cache : option (list (pyval * list pyval));
}.

Definition fresh_index : index_caches :=
  {| generators := fresh; option_values_cache := None |}.

(** [self.answer_id_to_option_values_map]: a dict, computed on the first
    read from [self.answers]. *)
Definition answer_id_to_option_values_map (self : t) (st : index_caches)
    : result (list (pyval * list pyval) * index_caches) :=
  match option_values_cache st with
  | Some d => Ok (d, st)
  | None =>
      let* '(answers, generators) := answers self (generators st) in
      let* d := foldM option_values_step answers [] in
      Ok (d, {| generators := generators; option_values_cache := Some d |})
  end.


(** A document whose only answer has two options. *)
Definition radio_answer : pyval :=
  PDict [("id", PStr "radio-1"); ("type", PStr "Radio"); ("mandatory", PBool false);
         ("options",
          PList [PDict [("label", PStr "Yes"); ("value", PStr "Yes")];
                 PDict [("label", PStr "No"); ("value", PStr "No")]])].

Definition radio_document : pyval :=
  PDict [("sections",
          PList [PDict [("id", PStr "section-1");
                        ("groups",
                         PList [PDict [("id", PStr "group-1");
                                       ("blocks",
                                        PList [PDict [("id", PStr "block-1");
                                                      ("type", PStr "Question");
                                                      ("question",
                                                       PDict [("id", PStr "question-1");
                                                              ("type", PStr "General");
                                                              ("answers", PList [radio_answer])])]])]])]])].

(** Read first, the map holds the two values; [answers_with_context],
    read after it, is empty although the document has an answer. *)
Lemma radio_document_read_in_order :
  (let* self := __init__ radio_document in
   let* '(d, st) := answer_id_to_option_values_map self fresh_index in
   let* '(with_context, _) := answers_with_context self (generators st) in
   Ok (d, with_context))
  = Ok ([(PStr "radio-1", [PStr "Yes"; PStr "No"])], []).
Proof. vm_compute. reflexivity. Qed.

(** Lookups of a string key after [d[k] = v]. *)
Lemma py_eqb_str_l (s : string) (v : pyval) : py_eqb (PStr s) v = true -> v = PStr s.
Proof.
  destruct v; simpl; try discriminate.
  intros H. apply String.eqb_eq in H. now subst.
Qed.

Lemma pydict_get_set_str {V} (d : list (pyval * V)) k v (i : string) :
  pydict_get (pydict_set d k v) (PStr i)
  = if py_eqb k (PStr i) then Some v else pydict_get d (PStr i).
Proof.
  induction d as [|[k' v'] d IH]; cbn [pydict_set pydict_get]; [reflexivity|].
  destruct (py_eqb k' k) eqn:Hk; cbn [pydict_get].
  - destruct (py_eqb k (PStr i)) eqn:Hi.
    + apply py_eqb_str in Hi. subst k. now rewrite Hk.
    + destruct (py_eqb k' (PStr i)) eqn:Hi'; [|reflexivity].
      apply py_eqb_str in Hi'. subst k'. apply py_eqb_str_l in Hk. subst k.
      cbn [py_eqb] in Hi. now rewrite String.eqb_refl in Hi.
  - rewrite IH. destruct (py_eqb k' (PStr i)) eqn:Hi'; [|reflexivity].
    apply py_eqb_str in Hi'. subst k'.
    destruct (py_eqb k (PStr i)) eqn:Hi; [|reflexivity].
    apply py_eqb_str in Hi. subst k. cbn [py_eqb] in Hk.
    now rewrite String.eqb_refl in Hk.
Qed.

Lemma set_add_incl s x y : In x s -> In x (set_add s y).
Proof.
  intros H. unfold set_add. destruct (list_contains y s); [assumption|].
  apply in_or_app. now left.
Qed.

Lemma set_add_in s (v : string) : In (PStr v) (set_add s (PStr v)).
Proof.
  unfold set_add. destruct (list_contains (PStr v) s) eqn:Hc.
  - unfold list_contains in Hc. apply existsb_exists in Hc as (y & Hy & Heq).
    apply py_eqb_str in Heq. now subst y.
  - apply in_or_app. right. now left.
Qed.

Lemma set_update_incl xs : forall s x, In x s -> In x (set_update s xs).
Proof.
  unfold set_update. induction xs as [|y xs IH]; intros s x H; [assumption|].
  cbn [fold_left]. apply IH. now apply set_add_incl.
Qed.

Lemma set_update_in xs (v : string) :
  forall s, In (PStr v) xs -> In (PStr v) (set_update s xs).
Proof.
  unfold set_update. induction xs as [|y xs IH]; intros s H; [destruct H|].
  cbn [fold_left]. destruct H as [->|H].
  - apply (set_update_incl xs). apply set_add_in.
  - now apply IH.
Qed.

Lemma mapM_in {A B} (f : A -> result B) xs x y :
  forall ys, mapM f xs = Ok ys -> In x xs -> f x = Ok y -> In y ys.
Proof.
  induction xs as [|x' xs IH]; intros ys H Hin Hx; [destruct Hin|].
  cbn [mapM] in H. apply bind_ok in H as (y' & Hy' & H).
  apply bind_ok in H as (ys' & Hys & H). injection H as <-.
  destruct Hin as [->|Hin].
  - rewrite Hx in Hy'. injection Hy' as <-. now left.
  - right. exact (IH _ Hys Hin Hx).
Qed.

(** A turn of the loop keeps what the map holds. *)
Lemma option_values_step_keeps d answer d' (i : string) s x :
  option_values_step d answer = Ok d' ->
  pydict_get d (PStr i) = Some s -> In x s ->
  exists s', pydict_get d' (PStr i) = Some s' /\ In x s'.
Proof.
  unfold option_values_step. intros H Hs Hx.
  apply bind_ok in H as (has_options & _ & H).
  destruct has_options; cbn [negb] in H; [|injection H as <-; eauto].
  apply bind_ok in H as (answer_id & _ & H).
  apply bind_ok in H as (options & _ & H).
  apply bind_ok in H as (items & _ & H).
  apply bind_ok in H as (option_values & _ & H).
  destruct (hashable answer_id); cbn [negb] in H; [|discriminate].
  destruct (forallb hashable option_values); [|discriminate].
  injection H as <-. rewrite pydict_get_set_str.
  destruct (py_eqb answer_id (PStr i)) eqn:Hi; [|eauto].
  apply py_eqb_str in Hi. subst answer_id. rewrite Hs.
  eexists. split; [reflexivity|]. now apply set_update_incl.
Qed.

(** A turn of the loop records the option values of its answer. *)
Lemma option_values_step_adds d answer d' (i : string) options option (v : string) :
  option_values_step d answer = Ok d' ->
  py_getitem answer "id" = Ok (PStr i) ->
  py_getitem answer "options" = Ok (PList options) ->
  In option options ->
  py_getitem option "value" = Ok (PStr v) ->
  exists s, pydict_get d' (PStr i) = Some s /\ In (PStr v) s.
Proof.
  unfold option_values_step. intros H Hid Hopts Hin Hv.
  rewrite (ValidateProperties.py_getitem_in _ _ _ Hopts) in H. cbn [bind negb] in H.
  rewrite Hid, Hopts in H. cbn [bind py_iter hashable negb] in H.
  apply bind_ok in H as (option_values & Hvalues & H).
  destruct (forallb hashable option_values); [|discriminate].
  injection H as <-. rewrite pydict_get_set_str. cbn [py_eqb].
  rewrite String.eqb_refl. eexists. split; [reflexivity|].
  apply set_update_in. exact (mapM_in _ _ _ _ _ Hvalues Hin Hv).
Qed.

Lemma option_values_loop_keeps answers :
  forall d d' (i : string) s x,
    foldM option_values_step answers d = Ok d' ->
    pydict_get d (PStr i) = Some s -> In x s ->
    exists s', pydict_get d' (PStr i) = Some s' /\ In x s'.
Proof.
  induction answers as [|answer answers IH]; intros d d' i s x H Hs Hx.
  - injection H as <-. eauto.
  - cbn [foldM] in H. apply bind_ok in H as (d1 & H1 & H).
    destruct (option_values_step_keeps _ _ _ _ _ _ H1 Hs Hx) as (s1 & Hs1 & Hx1).
    exact (IH _ _ _ _ _ H Hs1 Hx1).
Qed.

Lemma option_values_loop_complete answers :
  forall d d' answer (i : string) options option (v : string),
    foldM option_values_step answers d = Ok d' ->
    In answer answers ->
    py_getitem answer "id" = Ok (PStr i) ->
    py_getitem answer "options" = Ok (PList options) ->
    In option options ->
    py_getitem option "value" = Ok (PStr v) ->
    exists s, pydict_get d' (PStr i) = Some s /\ In (PStr v) s.
Proof.
  induction answers as [|a answers IH];
    intros d d' answer i options option v H Hin Hid Hopts Ho Hv; [destruct Hin|].
  cbn [foldM] in H. apply bind_ok in H as (d1 & H1 & H).
  destruct Hin as [->|Hin].
  - destruct (option_values_step_adds _ _ _ _ _ _ _ H1 Hid Hopts Ho Hv)
      as (s1 & Hs1 & Hx1).
    exact (option_values_loop_keeps _ _ _ _ _ _ H Hs1 Hx1).
  - exact (IH _ _ _ _ _ _ _ H Hin Hid Hopts Ho Hv).
Qed.

(** X19.  Read on a new index, [answer_id_to_option_values_map] holds,
    under the id of every answer that [answers] yields, every value of
    every option of that answer: when several answers share an id, as the
    variants of a question do, their values are merged under that id. *)
Theorem option_values_map_complete
    self items st0 d st answer (i : string) options option (v : string) :
  answers self fresh = Ok (items, st0) ->
  answer_id_to_option_values_map self fresh_index = Ok (d, st) ->
  In answer items ->
  py_getitem answer "id" = Ok (PStr i) ->
  py_getitem answer "options" = Ok (PList options) ->
  In option options ->
  py_getitem option "value" = Ok (PStr v) ->
  exists s, pydict_get d (PStr i) = Some s /\ In (PStr v) s.
Proof.
  intros Ha H Hin Hid Hopts Ho Hv. unfold answer_id_to_option_values_map in H.
  cbn [option_values_cache fresh_index generators] in H. rewrite Ha in H.
  cbn [bind] in H. apply bind_ok in H as (d' & Hloop & H). injection H as <- <-.
  exact (option_values_loop_complete _ _ _ _ _ _ _ _ Hloop Hin Hid Hopts Ho Hv).
Qed.

(** The index of the document with the radio answer. *)
Definition radio_index : t :=
  Eval vm_compute in
    match __init__ radio_document with
    | Ok self => self
    | _ => {| schema := PNone; blocks := []; blocks_by_id := []; block_ids := [];
              section_ids := []; group_ids := [] |}
    end.

Lemma option_values_map_complete_witness :
  exists s,
    pydict_get [(PStr "radio-1", [PStr "Yes"; PStr "No"])] (PStr "radio-1") = Some s
    /\ In (PStr "No") s.
Proof.
  apply (option_values_map_complete radio_index [radio_answer]
           {| questions_with_context_gen := Exhausted; id_paths_gen := Fresh;
              answers_gen := Exhausted; ids_cache := None;
              answers_with_context_cache := None |}
           [(PStr "radio-1", [PStr "Yes"; PStr "No"])]
           {| generators :=
                {| questions_with_context_gen := Exhausted; id_paths_gen := Fresh;
                   answers_gen := Exhausted; ids_cache := None;
                   answers_with_context_cache := None |};
              option_values_cache := Some [(PStr "radio-1", [PStr "Yes"; PStr "No"])] |}
           radio_answer "radio-1"
           [PDict [("label", PStr "Yes"); ("value", PStr "Yes")];
            PDict [("label", PStr "No"); ("value", PStr "No")]]
           (PDict [("label", PStr "No"); ("value", PStr "No")]) "No");
    first [ reflexivity | left; reflexivity | right; left; reflexivity ].
Defined.


(** *** [ids] *)

(** The path of the block an id lies in: the items of the dotted path up
    to the index that follows [blocks]. *)
Definition block_path (path : string) : result string :=
  let path_list := split_dot path in
  let* i := list_index "blocks" path_list in
  Ok (String.concat "." (firstn (i + 2) path_list)).

Lemma ids_step_block_path d non_block_ids path value :
  ids_step (d, non_block_ids) (path, value)
  = if str_contains "blocks" path then
      let* string_path := block_path path in
      if hashable value
      then Ok (defaultdict_add d string_path value, non_block_ids)
      else Raise TypeError
    else Ok (d, non_block_ids ++ [value]).
Proof.
  unfold ids_step, block_path. destruct (str_contains "blocks" path); [|reflexivity].
  destruct (list_index "blocks" (split_dot path)); reflexivity.
Qed.

(** How often the id [v] occurs in a list of ids. *)
Definition count_id (v : string) (l : list pyval) : nat :=
  List.length (List.filter (fun x => py_eqb x (PStr v)) l).

(** The block paths of the items under a block that hold the id [v], and
    the items outside any block that hold it. *)
Definition blocks_holding (v : string) (items : list (string * pyval)) : list string :=
  flat_map
    (fun pv : string * pyval =>
       if str_contains "blocks" (fst pv) && py_eqb (snd pv) (PStr v)
       then match block_path (fst pv) with Ok k => [k] | _ => [] end
       else [])
    items.

Definition outside_blocks (v : string) (items : list (string * pyval))
    : list (string * pyval) :=
  List.filter
    (fun pv : string * pyval =>
       negb (str_contains "blocks" (fst pv)) && py_eqb (snd pv) (PStr v))
    items.

#[local] Set Warnings "-clear-no-such-hyp".

Section Ids.

Variable v : string.

(** [unique_ids_per_block[k]], the empty set for a new key. *)
Fixpoint ids_in_block (d : list (string * list pyval)) (k : string) : list pyval :=
  match d with
  | [] => []
  | (k', s) :: r => if String.eqb k' k then s else ids_in_block r k
  end.

Lemma count_id_app l1 l2 : count_id v (l1 ++ l2) = (count_id v l1 + count_id v l2)%nat.
Proof. unfold count_id. now rewrite List.filter_app, List.length_app. Qed.

Lemma count_id_set_add s x :
  count_id v (set_add s x)
  = (count_id v s
     + if py_eqb x (PStr v) && negb (list_contains (PStr v) s) then 1 else 0)%nat.
Proof.
  unfold set_add. destruct (py_eqb x (PStr v)) eqn:Hx; cbn [andb].
  - apply py_eqb_str in Hx. subst x.
    destruct (list_contains (PStr v) s); cbn [negb]; [lia|].
    rewrite count_id_app. unfold count_id at 2. cbn [List.filter py_eqb].
    now rewrite String.eqb_refl.
  - destruct (list_contains x s); [lia|].
    rewrite count_id_app. unfold count_id at 2. cbn [List.filter].
    rewrite Hx. reflexivity.
Qed.

Lemma list_contains_set_add s x :
  list_contains (PStr v) (set_add s x)
  = list_contains (PStr v) s || py_eqb x (PStr v).
Proof.
  unfold set_add. destruct (list_contains x s) eqn:Hc.
  - destruct (py_eqb x (PStr v)) eqn:Hx; [|now rewrite orb_false_r].
    apply py_eqb_str in Hx. subst x. now rewrite Hc.
  - unfold list_contains. rewrite existsb_app. cbn [existsb]. now rewrite orb_false_r.
Qed.

Lemma ids_in_block_add d k x k' :
  ids_in_block (defaultdict_add d k x) k'
  = if String.eqb k k' then set_add (ids_in_block d k) x else ids_in_block d k'.
Proof.
  induction d as [|[k0 s] d IH]; cbn [defaultdict_add ids_in_block].
  - destruct (String.eqb k k'); reflexivity.
  - destruct (String.eqb_spec k0 k) as [->|Hne]; cbn [ids_in_block].
    + destruct (String.eqb_spec k k'); reflexivity.
    + rewrite IH.
      destruct (String.eqb_spec k0 k') as [->|Hne'],
        (String.eqb_spec k k') as [->|Hkk']; congruence.
Qed.

Lemma count_id_defaultdict_add d k x :
  count_id v (List.concat (List.map snd (defaultdict_add d k x)))
  = (count_id v (List.concat (List.map snd d))
     + if py_eqb x (PStr v) && negb (list_contains (PStr v) (ids_in_block d k))
       then 1 else 0)%nat.
Proof.
  induction d as [|[k0 s] d IH]; cbn [defaultdict_add ids_in_block].
  - cbn [List.map snd List.concat]. rewrite app_nil_r. apply count_id_set_add.
  - destruct (String.eqb k0 k); cbn [List.map snd List.concat].
    + rewrite !count_id_app, count_id_set_add. lia.
    + rewrite !count_id_app, IH. lia.
Qed.

(** The blocks that hold [v] are those of [K], and each holds it once. *)
Definition holds (d : list (string * list pyval)) (K : gset string) : Prop :=
  (forall k, list_contains (PStr v) (ids_in_block d k) = true <-> k ∈ K)
  /\ count_id v (List.concat (List.map snd d)) = size K.

Lemma holds_empty : holds [] ∅.
Proof.
  split; [|reflexivity]. intros k. cbn. split; [discriminate | set_solver].
Qed.

Lemma holds_add d K k x :
  holds d K ->
  holds (defaultdict_add d k x) (if py_eqb x (PStr v) then K ∪ {[ k ]} else K).
Proof.
  intros [Hmem Hsize]. split.
  - intros k'. rewrite ids_in_block_add.
    destruct (String.eqb_spec k k') as [<-|Hne].
    + rewrite list_contains_set_add.
      destruct (py_eqb x (PStr v)).
      * rewrite orb_true_r. split; [set_solver | reflexivity].
      * rewrite orb_false_r. apply Hmem.
    + rewrite Hmem. destruct (py_eqb x (PStr v)); [set_solver | reflexivity].
  - rewrite count_id_defaultdict_add, Hsize.
    destruct (py_eqb x (PStr v)); cbn [andb]; [|lia].
    destruct (list_contains (PStr v) (ids_in_block d k)) eqn:Hc; cbn [negb].
    + apply Hmem in Hc. replace (K ∪ {[k]}) with K by set_solver. lia.
    + assert (Hk : k ∉ K) by (intros Hk; apply Hmem in Hk; congruence).
      rewrite size_union by set_solver. rewrite size_singleton. reflexivity.
Qed.

Lemma ids_loop items :
  forall d non_block_ids d' non_block_ids' K,
    holds d K ->
    foldM ids_step items (d, non_block_ids) = Ok (d', non_block_ids') ->
    holds d' (K ∪ list_to_set (blocks_holding v items))
    /\ count_id v non_block_ids'
       = (count_id v non_block_ids + List.length (outside_blocks v items))%nat.
Proof.
  induction items as [|[path x] items IH]; intros d nb d' nb' K HK H.
  - injection H as <- <-. cbn [blocks_holding flat_map outside_blocks List.filter].
    split; [|cbn; lia]. replace (K ∪ list_to_set []) with K by set_solver. exact HK.
  - cbn [foldM] in H. apply bind_ok in H as ([d1 nb1] & Hstep & H).
    rewrite ids_step_block_path in Hstep.
    unfold blocks_holding, outside_blocks.
    cbn [flat_map List.filter fst snd].
    fold (blocks_holding v items). fold (outside_blocks v items).
    destruct (str_contains "blocks" path); cbn [andb negb].
    + apply bind_ok in Hstep as (k & Hk & Hstep). rewrite Hk.
      destruct (hashable x); [|discriminate]. injection Hstep as <- <-.
      destruct (IH _ _ _ _ _ (holds_add d K k x HK) H) as [Hd Hnb].
      split; [|exact Hnb].
      destruct (py_eqb x (PStr v)).
      * replace (K ∪ list_to_set ([k] ++ blocks_holding v items))
          with (K ∪ {[k]} ∪ list_to_set (blocks_holding v items)) by set_solver.
        exact Hd.
      * exact Hd.
    + injection Hstep as <- <-.
      destruct (IH _ _ _ _ _ HK H) as [Hd Hnb].
      split; [exact Hd|]. rewrite Hnb, count_id_app. unfold count_id at 2.
      cbn [List.filter]. destruct (py_eqb x (PStr v)); cbn [List.length]; lia.
Qed.

End Ids.

(** X20.  The number of times an id occurs in [ids], computed on a new
    index, is the number of distinct blocks that hold it plus the number
    of times it occurs outside any block: within one block the id is
    recorded once however often its variants repeat it, and it is recorded
    again for every other block and for every occurrence outside blocks. *)
Theorem ids_counts self all_ids st (v : string) :
  ids self fresh = Ok (all_ids, st) ->
  count_id v all_ids
  = (size (list_to_set (blocks_holding v (id_paths_items self)) : gset string)
     + List.length (outside_blocks v (id_paths_items self)))%nat.
Proof.
  unfold ids, id_paths, ids_of. cbn [ids_cache fresh id_paths_gen]. intros H.
  apply bind_ok in H as (l & Hl & H). injection H as <- _.
  apply bind_ok in Hl as ([d nb] & Hloop & Hl). injection Hl as <-.
  destruct (ids_loop v _ _ _ _ _ _ (holds_empty v) Hloop) as [[_ Hsize] Hnb].
  rewrite count_id_app, Hsize, Hnb.
  replace (∅ ∪ list_to_set (blocks_holding v (id_paths_items self)))
    with (list_to_set (blocks_holding v (id_paths_items self)) : gset string)
    by set_solver.
  unfold count_id. cbn. lia.
Qed.

(** The index of the document with two blocks, where the routing rule of
    the first block names the second. *)
Definition two_blocks_index : t :=
  Eval vm_compute in
    match __init__ two_blocks with
    | Ok self => self
    | _ => {| schema := PNone; blocks := []; blocks_by_id := []; block_ids := [];
              section_ids := []; group_ids := [] |}
    end.

Lemma ids_counts_witness :
  count_id "block-2"
    [PStr "block-1"; PStr "block-1-question"; PStr "answer-1"; PStr "block-2";
     PStr "block-2"; PStr "block-2-question"; PStr "answer-2";
     PStr "section-1"; PStr "group-1"]
  = (size (list_to_set (blocks_holding "block-2" (id_paths_items two_blocks_index))
           : gset string)
     + List.length (outside_blocks "block-2" (id_paths_items two_blocks_index)))%nat.
Proof.
  apply (ids_counts two_blocks_index _
           {| questions_with_context_gen := Fresh; id_paths_gen := Exhausted;
              answers_gen := Fresh;
              ids_cache :=
                Some [PStr "block-1"; PStr "block-1-question"; PStr "answer-1";
                      PStr "block-2"; PStr "block-2"; PStr "block-2-question";
                      PStr "answer-2"; PStr "section-1"; PStr "group-1"];
              answers_with_context_cache := None |} "block-2").
  vm_compute. reflexivity.
Defined.

(** On that document [block-2] is held by the two blocks. *)
Lemma block_2_held_twice :
  blocks_holding "block-2" (id_paths_items two_blocks_index)
  = ["sections.[0].groups.[0].blocks.[0]"; "sections.[0].groups.[0].blocks.[1]"]
  /\ outside_blocks "block-2" (id_paths_items two_blocks_index) = [].
Proof. split; vm_compute; reflexivity. Qed.

End SchemaIndex.

(** ** Offset dates *)

Module OffsetDates.
Import Py AnswerValidator ValidateProperties.

(** [relativedelta] keeps the days it is given. *)
Lemma make_relativedelta_days y m (d : Z) rd :
  Dates.make_relativedelta y m (PInt d) = Ok rd ->
  exists rd0,
    Dates.make_relativedelta y m (PInt 0) = Ok rd0
    /\ rd = {| Dates.years := Dates.years rd0; Dates.months := Dates.months rd0;
               Dates.days := d |}.
Proof.
  unfold Dates.make_relativedelta. intros H.
  destruct (Dates.check_integer y) as [u1| |]; cbn [bind] in *; try discriminate.
  destruct (Dates.check_integer m) as [u2| |]; cbn [bind] in *; try discriminate.
  destruct (Dates.int_argument y) as [zy| |]; cbn [bind] in *; try discriminate.
  destruct (Dates.int_argument m) as [zm| |]; cbn [bind] in *; try discriminate.
  cbn [Dates.days_argument bind] in *.
  destruct (11 <? Z.abs zm)%Z; injection H as <-; eexists; split; reflexivity.
Qed.

(** The days move the date by as many days. *)
Lemma add_relativedelta_days dt (y m d : Z) o :
  Dates.add_relativedelta dt {| Dates.years := y; Dates.months := m; Dates.days := d |}
  = Ok o ->
  exists o0,
    (forall d' o',
       Dates.add_relativedelta dt
         {| Dates.years := y; Dates.months := m; Dates.days := d' |} = Ok o' ->
       o' = (o0 + d')%Z)
    /\ o = (o0 + d)%Z.
Proof.
  unfold Dates.add_relativedelta. cbn [Dates.years Dates.months Dates.days].
  destruct (if (12 <? Dates.month dt + m)%Z
            then ((Dates.year dt + y + 1)%Z, (Dates.month dt + m - 12)%Z)
            else if (Dates.month dt + m <? 1)%Z
                 then ((Dates.year dt + y - 1)%Z, (Dates.month dt + m + 12)%Z)
                 else ((Dates.year dt + y)%Z, (Dates.month dt + m)%Z)) as [y' m'].
  intros H.
  destruct (negb ((Dates.MINYEAR <=? y')%Z && (y' <=? Dates.MAXYEAR)%Z));
    [discriminate H|].
  exists (Dates.toordinal y' m' (Z.min (Dates.days_in_month y' m') (Dates.day dt))).
  split.
  - intros d' o' H'.
    destruct (999999999 <? Z.abs d')%Z; [discriminate H'|].
    match type of H' with
    | (if ?c then _ else _) = _ => destruct c; [|discriminate H']
    end.
    now injection H' as <-.
  - destruct (999999999 <? Z.abs d)%Z; [discriminate H|].
    match type of H with
    | (if ?c then _ else _) = _ => destruct c; [|discriminate H]
    end.
    now injection H as <-.
Qed.

(** Two offsets from one date that differ in their days only. *)
Lemma relative_dates_differ_by_days date omin omax y m (a b : Z) dmin dmax :
  py_get omin "years" (PInt 0) = Ok y -> py_get omax "years" (PInt 0) = Ok y ->
  py_get omin "months" (PInt 0) = Ok m -> py_get omax "months" (PInt 0) = Ok m ->
  py_get omin "days" (PInt 0) = Ok (PInt a) ->
  py_get omax "days" (PInt 0) = Ok (PInt b) ->
  get_relative_date date omin = Ok dmin ->
  get_relative_date date omax = Ok dmax ->
  (dmax - dmin = b - a)%Z.
Proof.
  intros Hy1 Hy2 Hm1 Hm2 Hd1 Hd2. unfold get_relative_date.
  rewrite Hy1, Hy2, Hm1, Hm2, Hd1, Hd2.
  destruct (_convert_to_datetime date) as [[dt|]| |]; cbn [bind]; try discriminate;
    intros H1 H2;
    apply bind_ok in H1 as (rd1 & Hrd1 & H1);
    apply bind_ok in H2 as (rd2 & Hrd2 & H2); try discriminate.
  apply make_relativedelta_days in Hrd1 as (rd0 & Hrd0 & ->).
  apply make_relativedelta_days in Hrd2 as (rd0' & Hrd0' & ->).
  rewrite Hrd0 in Hrd0'. injection Hrd0' as <-.
  apply add_relativedelta_days in H1 as (o0 & Hall & ->).
  apply Hall in H2. lia.
Qed.

(** X21.  For a Date answer whose minimum and maximum start from the
    same date (a literal, or [now] read on the same day) with the same
    [years] and [months] in their offsets, the check holds exactly when the
    minimum's [days] are strictly below the maximum's: equal offsets are
    rejected.  This is so whenever the check returns. *)
Theorem same_date_day_offsets
    now_min now_max self minimum maximum base omin omax y m (a b : Z) :
  py_getitem (answer self) "type" = Ok (PStr "Date") ->
  py_getitem (answer self) "minimum" = Ok minimum ->
  py_getitem (answer self) "maximum" = Ok maximum ->
  py_getitem minimum "value" = Ok (PStr base) ->
  py_getitem maximum "value" = Ok (PStr base) ->
  now_min = now_max \/ base <> "now" ->
  py_get minimum "offset_by" (PDict []) = Ok omin ->
  py_get maximum "offset_by" (PDict []) = Ok omax ->
  py_get omin "years" (PInt 0) = Ok y -> py_get omax "years" (PInt 0) = Ok y ->
  py_get omin "months" (PInt 0) = Ok m -> py_get omax "months" (PInt 0) = Ok m ->
  py_get omin "days" (PInt 0) = Ok (PInt a) ->
  py_get omax "days" (PInt 0) = Ok (PInt b) ->
  is_ok (is_offset_date_valid now_min now_max self) = true ->
  is_offset_date_valid now_min now_max self = Ok (a <? b)%Z.
Proof.
  intros Ht Hmin Hmax Hv1 Hv2 Hnow Ho1 Ho2 Hy1 Hy2 Hm1 Hm2 Hd1 Hd2 Hok.
  rewrite (offset_date_valid_on_literals now_min now_max self minimum maximum
             (PStr base) (PStr base) Ht Hmin Hmax Hv1 eq_refl Hv2 eq_refl) in *.
  unfold _get_offset_date in *. rewrite Hv1, Hv2, Ho1, Ho2 in *. cbn [bind] in *.
  assert (Hsame : (if py_eqb (PStr base) (PStr "now") then PStr now_min else PStr base)
                  = (if py_eqb (PStr base) (PStr "now") then PStr now_max else PStr base)).
  { destruct Hnow as [->|Hne]; [reflexivity|].
    cbn [py_eqb]. destruct (String.eqb_spec base "now"); [contradiction|reflexivity]. }
  rewrite Hsame in *.
  set (date := if py_eqb (PStr base) (PStr "now") then PStr now_max else PStr base) in *.
  destruct (get_relative_date date omin) as [dmin| |] eqn:E1; try discriminate Hok.
  cbn [bind] in *.
  destruct (get_relative_date date omax) as [dmax| |] eqn:E2; try discriminate Hok.
  cbn [bind]. f_equal.
  pose proof (relative_dates_differ_by_days _ _ _ _ _ _ _ _ _
                Hy1 Hy2 Hm1 Hm2 Hd1 Hd2 E1 E2) as Hdiff.
  destruct (Z.ltb_spec dmin dmax), (Z.ltb_spec a b); try reflexivity; lia.
Qed.

(** A date answer whose bounds are both one week after the first of June. *)
Definition week_after : pyval :=
  PDict [("value", PStr "2020-06-01"); ("offset_by", PDict [("days", PInt 7)])].

Definition same_offsets : t :=
  __init__
    (PDict [("id", PStr "date-2"); ("type", PStr "Date"); ("mandatory", PBool false);
            ("minimum", week_after); ("maximum", week_after)])
    PNone PNone PNone.

Lemma same_date_day_offsets_witness :
  is_offset_date_valid "2020-06-01" "2020-06-01" same_offsets = Ok (7 <? 7)%Z.
Proof.
  apply (same_date_day_offsets "2020-06-01" "2020-06-01" same_offsets
           week_after week_after "2020-06-01"
           (PDict [("days", PInt 7)]) (PDict [("days", PInt 7)]) (PInt 0) (PInt 0) 7 7);
    first [ reflexivity | left; reflexivity ].
Defined.

(** A value that is falsy, such as the empty string, is not parsed:
    [_convert_to_datetime] gives [None], and adding the offset to it fails. *)
Lemma get_offset_date_falsy now bound v :
  py_getitem bound "value" = Ok v -> py_truthy v = false ->
  is_ok (_get_offset_date now bound) = false.
Proof.
  intros Hv Hfalse. unfold _get_offset_date. rewrite Hv. cbn [bind].
  destruct (py_eqb v (PStr "now")) eqn:Hnow.
  { apply py_eqb_str in Hnow. subst v. discriminate Hfalse. }
  destruct (py_get bound "offset_by" (PDict [])) as [offset| |]; cbn [bind];
    try reflexivity.
  unfold get_relative_date, _convert_to_datetime. rewrite Hfalse. cbn [bind].
  destruct (py_get offset "years" (PInt 0)); cbn [bind]; try reflexivity.
  destruct (py_get offset "months" (PInt 0)); cbn [bind]; try reflexivity.
  destruct (py_get offset "days" (PInt 0)); cbn [bind]; try reflexivity.
  destruct (Dates.make_relativedelta a a0 a1); reflexivity.
Qed.

(** X22.  For a Date answer whose minimum and maximum both have a value
    that is not a mapping, [validate] does not return when one of the two
    values is falsy (an empty string, for instance): nothing is reported,
    the date arithmetic fails on [None]. *)
Theorem falsy_date_value_fails
    urlparse now_min now_max self minimum maximum min_value max_value errors :
  py_getitem (answer self) "type" = Ok (PStr "Date") ->
  py_getitem (answer self) "minimum" = Ok minimum ->
  py_getitem (answer self) "maximum" = Ok maximum ->
  py_getitem minimum "value" = Ok min_value -> is_dict min_value = false ->
  py_getitem maximum "value" = Ok max_value -> is_dict max_value = false ->
  py_truthy min_value = false \/ py_truthy max_value = false ->
  is_ok (validate urlparse now_min now_max self errors) = false.
Proof.
  intros Ht Hmin Hmax Hv1 Hd1 Hv2 Hd2 Hfalsy.
  destruct (validate urlparse now_min now_max self errors) as [errors'| |] eqn:H;
    try reflexivity.
  exfalso.
  apply validate_shape in H as (valid & _ & _ & _ & Hvalid & _).
  rewrite (offset_date_valid_on_literals now_min now_max self minimum maximum
             min_value max_value Ht Hmin Hmax Hv1 Hd1 Hv2 Hd2) in Hvalid.
  apply bind_ok in Hvalid as (dmin & H1 & Hvalid).
  apply bind_ok in Hvalid as (dmax & H2 & _).
  destruct Hfalsy as [Hf|Hf].
  - pose proof (get_offset_date_falsy now_min _ _ Hv1 Hf) as Hno.
    rewrite H1 in Hno. discriminate Hno.
  - pose proof (get_offset_date_falsy now_max _ _ Hv2 Hf) as Hno.
    rewrite H2 in Hno. discriminate Hno.
Qed.

(** A date answer whose minimum is an empty string. *)
Definition empty_minimum : t :=
  __init__
    (PDict [("id", PStr "date-3"); ("type", PStr "Date"); ("mandatory", PBool false);
            ("minimum", PDict [("value", PStr "")]);
            ("maximum", PDict [("value", PStr "2020-06-01")])])
    PNone PNone PNone.

Lemma falsy_date_value_fails_witness :
  is_ok (validate path_only "2020-06-01" "2020-06-01" empty_minimum []) = false.
Proof.
  apply (falsy_date_value_fails path_only "2020-06-01" "2020-06-01" empty_minimum
           (PDict [("value", PStr "")]) (PDict [("value", PStr "2020-06-01")])
           (PStr "") (PStr "2020-06-01") []);
    first [ reflexivity | left; reflexivity ].
Defined.

(** On that answer the exception is [TypeError]. *)
Lemma empty_minimum_raises :
  validate path_only "2020-06-01" "2020-06-01" empty_minimum [] = Raise TypeError.
Proof. reflexivity. Qed.

End OffsetDates.

(** ** Lookups in the schema index *)

Module SchemaLookups.
Import Py JsonPath QuestionnaireSchema SchemaProperties.

(** *** [blocks_by_id] *)

(** The block has the id [id]. *)
Definition has_id (id : string) (block : pyval) : bool :=
  match py_getitem block "id" with
  | Ok k => py_eqb k (PStr id)
  | _ => false
  end.

Lemma find_snoc {A} (p : A -> bool) l x :
  List.find p (l ++ [x])
  = match List.find p l with
    | Some y => Some y
    | None => if p x then Some x else None
    end.
Proof.
  induction l as [|y l IH]; cbn [app List.find]; [reflexivity|].
  destruct (p y); [reflexivity | exact IH].
Qed.

Lemma blocks_by_id_loop (id : string) blocks :
  forall d d',
    foldM (fun d block =>
             let* k := py_getitem block "id" in
             pydict_store d k block) blocks d = Ok d' ->
    pydict_get d' (PStr id)
    = match List.find (has_id id) (rev blocks) with
      | Some block => Some block
      | None => pydict_get d (PStr id)
      end.
Proof.
  induction blocks as [|block blocks IH]; intros d d' H.
  - injection H as <-. reflexivity.
  - cbn [foldM] in H. apply bind_ok in H as (d1 & H1 & H).
    apply bind_ok in H1 as (k & Hk & H1).
    unfold pydict_store in H1. destruct (hashable k); [|discriminate H1].
    injection H1 as <-.
    rewrite (IH _ _ H). cbn [rev]. rewrite find_snoc.
    destruct (List.find (has_id id) (rev blocks)); [reflexivity|].
    rewrite SchemaIndex.pydict_get_set_str. unfold has_id. rewrite Hk.
    destruct (py_eqb k (PStr id)); reflexivity.
Qed.

(** X23.  [blocks_by_id] maps an id to the last of the blocks that have
    it: when two blocks of the document share an id, the earlier one is
    silently replaced, and a lookup by that id never gives it. *)
Theorem later_block_overrides schema self (id : string) :
  __init__ schema = Ok self ->
  pydict_get (blocks_by_id self) (PStr id)
  = List.find (has_id id) (rev (blocks self)).
Proof.
  unfold __init__. intros H.
  apply bind_ok in H as (found & _ & H).
  apply bind_ok in H as (by_id & Hloop & H).
  apply bind_ok in H as (sections & _ & H).
  apply bind_ok in H as (groups & _ & H).
  injection H as <-. cbn [blocks_by_id blocks].
  rewrite (blocks_by_id_loop id _ _ _ Hloop).
  destruct (List.find (has_id id) (rev (values found))); reflexivity.
Qed.

(** A document in which two blocks have the id [block-1]. *)
Definition twin_blocks : pyval :=
  PDict [("sections",
          PList [PDict [("id", PStr "section-1");
                        ("groups",
                         PList [PDict [("id", PStr "group-1");
                                       ("blocks",
                                        PList [question_block "block-1" "answer-1" [];
                                               question_block "block-1" "answer-2" []])]])]])].

Definition twin_blocks_index : t :=
  Eval vm_compute in
    match __init__ twin_blocks with
    | Ok self => self
    | _ => {| schema := PNone; blocks := []; blocks_by_id := []; block_ids := [];
              section_ids := []; group_ids := [] |}
    end.

Lemma later_block_overrides_witness :
  pydict_get (blocks_by_id twin_blocks_index) (PStr "block-1")
  = List.find (has_id "block-1") (rev (blocks twin_blocks_index)).
Proof.
  apply (later_block_overrides twin_blocks twin_blocks_index "block-1").
  vm_compute. reflexivity.
Defined.

(** On that document the lookup gives the second block, and [block_ids]
    holds the id once. *)
Lemma twin_blocks_lookup :
  pydict_get (blocks_by_id twin_blocks_index) (PStr "block-1")
  = Some (question_block "block-1" "answer-2" [])
  /\ block_ids twin_blocks_index = [PStr "block-1"].
Proof. split; vm_compute; reflexivity. Qed.

(** *** Paths with indices of one digit *)

(** The printed path of a block, and of the group that holds it. *)
Definition group_path_of (i j : nat) : string :=
  path_str [Fields "sections"; Index i; Fields "groups"; Index j].

Definition block_path_of (i j k : nat) : string :=
  path_str [Fields "sections"; Index i; Fields "groups"; Index j;
            Fields "blocks"; Index k].

Ltac one_digit n :=
  destruct n as [|[|[|[|[|[|[|[|[|[|n]]]]]]]]]]; [| | | | | | | | | |exfalso; lia].

Lemma paths_below_ten (i j k : nat) (rest : string) :
  i < 10 -> j < 10 -> k < 10 ->
  get_key_index_from_path "sections" (block_path_of i j k ++ rest) = Ok i
  /\ get_element_path "groups" (block_path_of i j k ++ rest) = group_path_of i j
  /\ get_element_path "blocks" (block_path_of i j k ++ rest) = block_path_of i j k.
Proof.
  intros Hi Hj Hk. destruct rest as [|c rest];
  one_digit i; one_digit j; one_digit k;
    vm_compute; (split; [reflexivity|]; split; reflexivity).
Qed.

(** X24.  When the section, group and block indices of a path are all
    below ten, the helpers cut the path where they should: the section
    index read from the path is the index, and the element paths of
    [groups] and [blocks] are the printed paths of the group and of the
    block, whatever follows the block in the path. *)
Theorem single_digit_paths (i j k : nat) (rest : string) :
  i < 10 -> j < 10 -> k < 10 ->
  get_key_index_from_path "sections" (block_path_of i j k ++ rest) = Ok i
  /\ get_element_path "groups" (block_path_of i j k ++ rest) = group_path_of i j
  /\ get_element_path "blocks" (block_path_of i j k ++ rest) = block_path_of i j k.
Proof. exact (paths_below_ten i j k rest). Qed.

Lemma single_digit_paths_witness :
  get_key_index_from_path "sections" (block_path_of 2 0 7 ++ ".question.answers.[0]")
  = Ok 2
  /\ get_element_path "groups" (block_path_of 2 0 7 ++ ".question.answers.[0]")
     = group_path_of 2 0
  /\ get_element_path "blocks" (block_path_of 2 0 7 ++ ".question.answers.[0]")
     = block_path_of 2 0 7.
Proof. apply (single_digit_paths 2 0 7 ".question.answers.[0]"); lia. Defined.

(** *** The context of a path *)

(** The paths that [get_path_id] evaluates parse to the steps they print. *)
Lemma parse_group_id_path (i j : nat) :
  i < 10 -> j < 10 ->
  parse_path (group_path_of i j ++ ".id")
  = Ok [Fields "sections"; Index i; Fields "groups"; Index j; Fields "id"].
Proof. intros Hi Hj. one_digit i; one_digit j; vm_compute; reflexivity. Qed.

Lemma parse_block_id_path (i j k : nat) :
  i < 10 -> j < 10 -> k < 10 ->
  parse_path (block_path_of i j k ++ ".id")
  = Ok [Fields "sections"; Index i; Fields "groups"; Index j;
        Fields "blocks"; Index k; Fields "id"].
Proof.
  intros Hi Hj Hk. one_digit i; one_digit j; one_digit k; vm_compute; reflexivity.
Qed.

(** A field of a dict, and an index into a list. *)
Lemma steps_find_field d name x p rest :
  dict_get d name = Some x ->
  steps_find (Fields name :: rest) [(p, PDict d)]
  = steps_find rest [(p ++ [Fields name], x)].
Proof.
  intros Hd. cbn [steps_find]. unfold child_find. cbn [mapM step_find bind].
  unfold fields_find. cbn [snd fst]. rewrite Hd. reflexivity.
Qed.

Lemma steps_find_index l i x p rest :
  nth_error l i = Some x ->
  steps_find (Index i :: rest) [(p, PList l)]
  = steps_find rest [(p ++ [Index i], x)].
Proof.
  intros Hi. destruct l as [|y l]; [destruct i; discriminate Hi|].
  cbn [steps_find]. unfold child_find. cbn [mapM step_find bind].
  unfold index_find. cbn [snd fst py_truthy negb]. rewrite Hi. reflexivity.
Qed.

Lemma steps_find_field_index d name l i x p rest :
  dict_get d name = Some (PList l) ->
  nth_error l i = Some x ->
  steps_find (Fields name :: Index i :: rest) [(p, PDict d)]
  = steps_find rest [((p ++ [Fields name]) ++ [Index i], x)].
Proof.
  intros Hd Hi.
  rewrite (steps_find_field _ _ _ _ _ Hd). exact (steps_find_index _ _ _ _ _ Hi).
Qed.

Lemma steps_find_id d x p :
  dict_get d "id" = Some x ->
  steps_find [Fields "id"] [(p, PDict d)] = Ok [(p ++ [Fields "id"], x)].
Proof.
  intros Hd. cbn [steps_find child_find mapM step_find bind].
  unfold fields_find. cbn [snd fst]. rewrite Hd. reflexivity.
Qed.

(** The document has the group [group] at [sections[i].groups[j]] and the
    block [block] at index [k] of its blocks. *)
Definition block_at (schema : pyval) (i j k : nat)
    (group block : list (string * pyval)) : Prop :=
  exists d sections ds groups blocks,
    schema = PDict d
    /\ dict_get d "sections" = Some (PList sections)
    /\ nth_error sections i = Some (PDict ds)
    /\ dict_get ds "groups" = Some (PList groups)
    /\ nth_error groups j = Some (PDict group)
    /\ dict_get group "blocks" = Some (PList blocks)
    /\ nth_error blocks k = Some (PDict block).

(** X26.  For a path under [sections[i].groups[j].blocks[k]] with the
    three indices below ten and no sub-block in it, [get_context_from_path]
    gives the id of that group, the id of that block, and the item at
    index [i] of [section_ids]. *)
Theorem context_of_single_digit_path
    self (i j k : nat) rest group block group_id block_id section_id :
  i < 10 -> j < 10 -> k < 10 ->
  block_at (schema self) i j k group block ->
  dict_get group "id" = Some group_id ->
  dict_get block "id" = Some block_id ->
  nth_error (section_ids self) i = Some section_id ->
  existsb (fun sub_block => str_contains sub_block (block_path_of i j k ++ rest))
    sub_block_keys = false ->
  get_context_from_path self (block_path_of i j k ++ rest)
  = Ok {| section := section_id; block := block_id; group_id := group_id |}.
Proof.
  intros Hi Hj Hk (d & sections & ds & groups & blocks
                   & Hs & Hd & Hsec & Hds & Hgrp & Hdg & Hblk) Hgid Hbid Hsid Hsub.
  destruct (paths_below_ten i j k rest Hi Hj Hk) as (Hindex & Hgroup & Hblock).
  unfold get_context_from_path. rewrite Hindex. cbn [bind].
  rewrite Hgroup, Hblock. unfold get_path_id, match1.
  rewrite (parse_group_id_path i j Hi Hj), (parse_block_id_path i j k Hi Hj Hk).
  cbn [bind]. rewrite Hs.
  rewrite (steps_find_field_index _ _ _ _ _ _ _ Hd Hsec).
  rewrite (steps_find_field_index _ _ _ _ _ _ _ Hds Hgrp).
  rewrite (steps_find_id _ _ _ Hgid). cbn [bind snd].
  rewrite (steps_find_field_index _ _ _ _ _ _ _ Hd Hsec).
  rewrite (steps_find_field_index _ _ _ _ _ _ _ Hds Hgrp).
  rewrite (steps_find_field_index _ _ _ _ _ _ _ Hdg Hblk).
  rewrite (steps_find_id _ _ _ Hbid). cbn [bind snd].
  rewrite Hsub. cbn [bind]. unfold list_getitem. rewrite Hsid. reflexivity.
Qed.

Lemma context_of_single_digit_path_witness :
  get_context_from_path (index_of two_blocks) (block_path_of 0 0 1 ++ ".question")
  = Ok {| section := PStr "section-1"; block := PStr "block-2";
          group_id := PStr "group-1" |}.
Proof.
  apply (context_of_single_digit_path (index_of two_blocks) 0 0 1 ".question"
           [("id", PStr "group-1");
            ("blocks",
             PList [question_block "block-1" "answer-1"
                      [("routing_rules",
                        PList [PDict [("goto", PDict [("id", PStr "block-2")])]])];
                    question_block "block-2" "answer-2" []])]
           [("id", PStr "block-2"); ("type", PStr "Question");
            ("question",
             PDict [("id", PStr "block-2-question"); ("type", PStr "General");
                    ("answers", PList [number_answer "answer-2"])])]);
    try lia; try reflexivity.
  do 5 eexists. repeat (split; [reflexivity|]). reflexivity.
Defined.

End SchemaLookups.

(** ** The actions of the options *)

Module ActionChecks.
Import Py AnswerValidator ValidateProperties.

(** The records of [_validate_answer_actions]. *)
Definition list_name_error (list_name id : pyval) : error :=
  {| message := Format LIST_NAME_MISSING [];
     context := [("list_name", list_name); ("id", id)] |}.

Definition block_id_error (block_id id : pyval) : error :=
  {| message := Format BLOCK_ID_MISSING [];
     context := [("block_id", block_id); ("id", id)] |}.

(** The option has action parameters with a truthy [key] that [known]
    does not hold. *)
Definition names_unknown (key : string) (known option name : pyval) : Prop :=
  exists action params,
    py_get option "action" (PDict []) = Ok action
    /\ py_get action "params" PNone = Ok params
    /\ py_truthy params = true
    /\ py_get params key PNone = Ok name
    /\ py_truthy name = true
    /\ py_contains name known = Ok false.

Lemma guarded_add_error self msg ctx (c : bool) id errors errors' :
  py_getitem (answer self) "id" = Ok id ->
  (if c then add_error self msg ctx errors else Ok errors) = Ok errors' ->
  errors' = errors ++ (if c then [ {| message := Format msg [];
                                      context := ctx ++ [("id", id)] |} ]
                       else []).
Proof.
  intros Hid H. destruct c.
  - unfold add_error in H. rewrite Hid in H. now injection H as <-.
  - injection H as <-. now rewrite app_nil_r.
Qed.

(** What one turn of the loop appends. *)
Lemma answer_actions_step_records self id errors option errors' :
  py_getitem (answer self) "id" = Ok id ->
  answer_actions_step self errors option = Ok errors' ->
  exists added,
    errors' = errors ++ added
    /\ (forall name, In (list_name_error name id) added
                     <-> names_unknown "list_name" (list_names self) option name)
    /\ (forall name, In (block_id_error name id) added
                     <-> names_unknown "block_id" (block_ids self) option name).
Proof.
  intros Hid H. unfold answer_actions_step in H.
  apply bind_ok in H as (action & Ha & H).
  apply bind_ok in H as (params & Hp & H).
  destruct (py_truthy params) eqn:Ht; cbn [negb] in H.
  2:{ injection H as <-. exists []. split; [now rewrite app_nil_r|].
      split; intros name; (split; [intros [] |]);
        intros (a & p & Ha' & Hp' & Ht' & _);
        rewrite Ha in Ha'; injection Ha' as <-;
        rewrite Hp in Hp'; injection Hp' as <-; congruence. }
  apply bind_ok in H as (list_name & Hl & H).
  apply bind_ok in H as (errors1 & H1 & H).
  apply bind_ok in H as (block_id & Hb & H).
  assert (exists c1 : bool,
             errors1 = errors ++ (if c1 then [list_name_error list_name id] else [])
             /\ (c1 = true <-> py_truthy list_name = true
                               /\ py_contains list_name (list_names self) = Ok false))
    as (c1 & -> & Hc1).
  { destruct (py_truthy list_name).
    - apply bind_ok in H1 as (known & Hk & H1).
      apply (guarded_add_error _ _ _ _ _ _ _ Hid) in H1.
      exists (negb known). split; [exact H1|].
      rewrite Hk. destruct known; cbn [negb]; intuition congruence.
    - injection H1 as <-. exists false. rewrite app_nil_r.
      split; [reflexivity | intuition congruence]. }
  assert (exists c2 : bool,
             errors' = (errors ++ (if c1 then [list_name_error list_name id] else []))
                       ++ (if c2 then [block_id_error block_id id] else [])
             /\ (c2 = true <-> py_truthy block_id = true
                               /\ py_contains block_id (block_ids self) = Ok false))
    as (c2 & -> & Hc2).
  { destruct (py_truthy block_id).
    - apply bind_ok in H as (known & Hk & H).
      apply (guarded_add_error _ _ _ _ _ _ _ Hid) in H.
      exists (negb known). split; [exact H|].
      rewrite Hk. destruct known; cbn [negb]; intuition congruence.
    - injection H as <-. exists false. rewrite app_nil_r.
      split; [reflexivity | intuition congruence]. }
  eexists. split; [now rewrite <- List.app_assoc|].
  split; intros name; split.
  - intros Hin. apply in_app_or in Hin as [Hin|Hin].
    + destruct c1; [|destruct Hin]. destruct Hin as [Heq|[]].
      injection Heq as <-. exists action, params.
      destruct Hc1 as [Hc1 _]. destruct (Hc1 eq_refl). auto 10.
    + destruct c2; [|destruct Hin]. destruct Hin as [Heq|[]]. discriminate Heq.
  - intros (a & p & Ha' & Hp' & _ & Hl' & Htl & Hk).
    rewrite Ha in Ha'. injection Ha' as <-. rewrite Hp in Hp'. injection Hp' as <-.
    rewrite Hl in Hl'. injection Hl' as <-.
    destruct Hc1 as [_ Hc1]. rewrite (Hc1 (conj Htl Hk)).
    apply in_or_app. left. now left.
  - intros Hin. apply in_app_or in Hin as [Hin|Hin].
    + destruct c1; [|destruct Hin]. destruct Hin as [Heq|[]]. discriminate Heq.
    + destruct c2; [|destruct Hin]. destruct Hin as [Heq|[]].
      injection Heq as <-. exists action, params.
      destruct Hc2 as [Hc2 _]. destruct (Hc2 eq_refl). auto 10.
  - intros (a & p & Ha' & Hp' & _ & Hb' & Htb & Hk).
    rewrite Ha in Ha'. injection Ha' as <-. rewrite Hp in Hp'. injection Hp' as <-.
    rewrite Hb in Hb'. injection Hb' as <-.
    destruct Hc2 as [_ Hc2]. rewrite (Hc2 (conj Htb Hk)).
    apply in_or_app. right. now left.
Qed.

Lemma answer_actions_loop self id options :
  py_getitem (answer self) "id" = Ok id ->
  forall errors errors',
    foldM (answer_actions_step self) options errors = Ok errors' ->
    exists added,
      errors' = errors ++ added
      /\ (forall name,
            In (list_name_error name id) added
            <-> exists option,
                  In option options
                  /\ names_unknown "list_name" (list_names self) option name)
      /\ (forall name,
            In (block_id_error name id) added
            <-> exists option,
                  In option options
                  /\ names_unknown "block_id" (block_ids self) option name).
Proof.
  intros Hid. induction options as [|option options IH]; intros errors errors' H.
  - injection H as <-. exists []. split; [now rewrite app_nil_r|].
    split; intros name; (split; [intros [] | intros (? & [] & _)]).
  - cbn [foldM] in H. apply bind_ok in H as (errors1 & H1 & H).
    apply (answer_actions_step_records _ _ _ _ _ Hid) in H1
      as (added1 & -> & Hl1 & Hb1).
    apply IH in H as (added2 & -> & Hl2 & Hb2).
    exists (added1 ++ added2). split; [now rewrite List.app_assoc|].
    split; intros name; rewrite in_app_iff; [rewrite Hl1, Hl2 | rewrite Hb1, Hb2];
      (split;
       [ intros [Hn | (o & Ho & Hn)]; [exists option; split; [now left | exact Hn]
                                       | exists o; split; [now right | exact Hn]]
       | intros (o & [<- | Ho] & Hn); [now left | right; exists o; auto] ]).
Qed.

(** X25.  The records [_validate_answer_actions] appends are exactly those
    the options call for: it appends a [LIST_NAME_MISSING] record that
    carries a list name exactly when some option has action parameters with
    that list name, truthy, and the name is not among [list_names]; and a
    [BLOCK_ID_MISSING] record that carries a block id exactly when some
    option has action parameters with that block id, truthy, and the id is
    not among [block_ids]. *)
Theorem answer_actions_records self id options added :
  AnswerValidator.options self = Ok (PList options) ->
  py_getitem (answer self) "id" = Ok id ->
  _validate_answer_actions self [] = Ok added ->
  (forall name,
     In (list_name_error name id) added
     <-> exists option,
           In option options /\ names_unknown "list_name" (list_names self) option name)
  /\ (forall name,
        In (block_id_error name id) added
        <-> exists option,
              In option options
              /\ names_unknown "block_id" (block_ids self) option name).
Proof.
  intros Hopts Hid H. unfold _validate_answer_actions in H.
  rewrite Hopts in H. cbn [bind py_iter] in H.
  apply (answer_actions_loop _ _ _ Hid) in H as (added' & Heq & Hl & Hb).
  cbn [app] in Heq. subst added'. split; assumption.
Qed.

(** An option that adds to the list [people], which the questionnaire does
    not collect. *)
Definition add_person_option : pyval :=
  PDict [("label", PStr "Yes"); ("value", PStr "Yes");
         ("action", PDict [("type", PStr "RedirectToListAddBlock");
                           ("params", PDict [("list_name", PStr "people")])])].

Definition add_person_answer : t :=
  __init__
    (PDict [("id", PStr "radio-6"); ("type", PStr "Radio"); ("mandatory", PBool true);
            ("options", PList [add_person_option])])
    PNone (PList [PStr "household"]) (PList []).

Lemma answer_actions_records_witness :
  (forall name,
     In (list_name_error name (PStr "radio-6"))
        [list_name_error (PStr "people") (PStr "radio-6")]
     <-> exists option,
           In option [add_person_option]
           /\ names_unknown "list_name" (PList [PStr "household"]) option name)
  /\ (forall name,
        In (block_id_error name (PStr "radio-6"))
           [list_name_error (PStr "people") (PStr "radio-6")]
        <-> exists option,
              In option [add_person_option]
              /\ names_unknown "block_id" (PList []) option name).
Proof.
  apply (answer_actions_records add_person_answer (PStr "radio-6")
           [add_person_option] [list_name_error (PStr "people") (PStr "radio-6")]);
    reflexivity.
Defined.

End ActionChecks.

(** ** The walk over [id] fields *)

Module IdWalk.
Import Py JsonPath QuestionnaireSchema SchemaProperties.

Lemma substring_prefix (w b : string) :
  String.substring 0 (String.length w) (w ++ b) = w.
Proof.
  induction w as [|c w IH]; [destruct b; reflexivity|].
  change (String c (String.substring 0 (String.length w) (w ++ b)) = String c w).
  now rewrite IH.
Qed.

(** A string contains what it is built around. *)
Lemma str_contains_middle (a w b : string) :
  w <> "" -> str_contains w (a ++ w ++ b) = true.
Proof.
  intros Hw. unfold str_contains.
  destruct (String.index 0 w (a ++ w ++ b)) eqn:E; [reflexivity|].
  exfalso.
  apply (String.index_correct3 0 (String.length a) _ _ E Hw (Nat.le_0_l _)).
  rewrite substring_skip. apply substring_prefix.
Qed.

Lemma str_app_nil_r (s : string) : (s ++ "")%string = s.
Proof.
  induction s as [|c s IH]; [reflexivity|].
  change (String c (s ++ "") = String c s). now rewrite IH.
Qed.

Lemma concat_cons sep x y (l : list string) :
  String.concat sep (x :: y :: l) = (x ++ sep ++ String.concat sep (y :: l))%string.
Proof. reflexivity. Qed.

Lemma concat_app sep (l1 l2 : list string) :
  l1 <> [] -> l2 <> [] ->
  String.concat sep (l1 ++ l2)
  = (String.concat sep l1 ++ sep ++ String.concat sep l2)%string.
Proof.
  intros H1 H2. induction l1 as [|x l1 IH]; [contradiction|].
  destruct l1 as [|y l1].
  - destruct l2 as [|z l2]; [contradiction|]. reflexivity.
  - change ((x :: y :: l1) ++ l2) with (x :: y :: (l1 ++ l2)).
    rewrite !concat_cons.
    change (y :: l1 ++ l2) with ((y :: l1) ++ l2).
    rewrite IH by discriminate. now rewrite !str_app_assoc.
Qed.

(** The printed path of a run of steps is inside the printed path. *)
Lemma concat_segment sep (l1 segment l2 : list string) :
  segment <> [] ->
  exists a b,
    String.concat sep (l1 ++ segment ++ l2)
    = (a ++ String.concat sep segment ++ b)%string.
Proof.
  intros Hs.
  assert (Hright : exists b, String.concat sep (segment ++ l2)
                             = (String.concat sep segment ++ b)%string).
  { destruct l2 as [|z l2].
    - exists "". now rewrite app_nil_r, str_app_nil_r.
    - exists (sep ++ String.concat sep (z :: l2))%string.
      apply concat_app; [assumption | discriminate]. }
  destruct Hright as (b & Hb).
  destruct l1 as [|x l1].
  - exists "", b. exact Hb.
  - exists (String.concat sep (x :: l1) ++ sep)%string, b.
    rewrite concat_app; [| discriminate | destruct segment; [contradiction|discriminate]].
    now rewrite Hb, !str_app_assoc.
Qed.

Lemma ignored_paths_nonempty w : In w ignored_paths -> w <> "".
Proof.
  intros Hin ->. vm_compute in Hin. intuition discriminate.
Qed.

(** A match whose path runs through a segment that prints as one of the
    ignored strings is dropped. *)
Lemma ignored_segment before segment after :
  segment <> [] ->
  In (path_str segment) ignored_paths ->
  is_ignored (path_str (before ++ segment ++ after)) = true.
Proof.
  intros Hs Hin. unfold is_ignored. apply existsb_exists.
  exists (path_str segment). split; [assumption|].
  unfold path_str. rewrite !List.map_app.
  destruct (concat_segment "." (List.map step_str before) (List.map step_str segment)
              (List.map step_str after)) as (a & b & ->).
  { destruct segment; [contradiction|discriminate]. }
  apply str_contains_middle. apply ignored_paths_nonempty. exact Hin.
Qed.

(** X27.  Every item [id_paths] yields comes from an [id] whose path has
    no run of steps that prints as one of the ignored strings: no id that
    lies under a field called [when] is yielded, and none that lies under
    [question.answers] of an [add_block], [edit_block] or [remove_block]. *)
Theorem id_paths_skip_ignored_segments self path value :
  In (path, value) (id_paths_items self) ->
  exists m,
    In m (find_descendants "id" (schema self))
    /\ path = str_take (-3) (path_str (fst m))
    /\ value = snd m
    /\ forall before segment after,
         fst m = before ++ segment ++ after ->
         segment <> [] ->
         ~ In (path_str segment) ignored_paths.
Proof.
  intros H. apply id_paths_items_spec in H as (m & Hm & Hig & -> & ->).
  exists m. repeat (split; [assumption || reflexivity|]).
  intros before segment after Heq Hs Hin.
  rewrite Heq, (ignored_segment _ _ _ Hs Hin) in Hig. discriminate Hig.
Qed.

Lemma id_paths_skip_ignored_segments_witness :
  exists m,
    In m (find_descendants "id" (schema (index_of two_blocks)))
    /\ "sections.[0].groups.[0].blocks.[1]" = str_take (-3) (path_str (fst m))
    /\ PStr "block-2" = snd m
    /\ forall before segment after,
         fst m = before ++ segment ++ after ->
         segment <> [] ->
         ~ In (path_str segment) ignored_paths.
Proof.
  apply (id_paths_skip_ignored_segments (index_of two_blocks)
           "sections.[0].groups.[0].blocks.[1]" (PStr "block-2")).
  vm_compute. tauto.
Defined.

(** The ids under [when] and under the answers of a sub-block question are
    among those. *)
Lemma ignored_segments :
  In (path_str [Fields "when"]) ignored_paths
  /\ In (path_str [Fields "add_block"; Fields "question"; Fields "answers"]) ignored_paths
  /\ In (path_str [Fields "edit_block"; Fields "question"; Fields "answers"]) ignored_paths
  /\ In (path_str [Fields "remove_block"; Fields "question"; Fields "answers"])
       ignored_paths.
Proof. vm_compute. tauto. Qed.

End IdWalk.

(** ** The context of a sub-block *)

Module SubBlocks.
Import Py JsonPath QuestionnaireSchema SchemaProperties SchemaLookups.

Lemma substring_all (s : string) : String.substring 0 (String.length s) s = s.
Proof.
  rewrite <- (IdWalk.str_app_nil_r s) at 2. apply IdWalk.substring_prefix.
Qed.

(** [(pre + s)[len(pre):]]. *)
Lemma str_drop_app (pre s : string) :
  str_drop (Z.of_nat (String.length pre)) (pre ++ s) = s.
Proof.
  unfold str_drop.
  destruct (Z.ltb_spec (Z.of_nat (String.length pre)) 0) as [Hneg|_]; [lia|].
  rewrite Nat2Z.id, str_length_app.
  replace (String.length pre + String.length s - String.length pre)%nat
    with (String.length s) by lia.
  rewrite substring_skip. apply substring_all.
Qed.

(** The key of a sub-block is what precedes [.question] in the rest of
    the path. *)
Lemma sub_block_key key (tail : string) :
  In key sub_block_keys ->
  str_take (str_find ".question" (key ++ ".question" ++ tail))
    (key ++ ".question" ++ tail) = key.
Proof.
  intros Hin. unfold sub_block_keys in Hin. cbn [In] in Hin.
  destruct tail as [|c tail];
    destruct Hin as [<-|[<-|[<-|[<-|[]]]]]; vm_compute; reflexivity.
Qed.

Lemma sub_block_in_path (pre key rest : string) :
  In key sub_block_keys ->
  existsb (fun sub_block => str_contains sub_block (pre ++ key ++ rest)) sub_block_keys
  = true.
Proof.
  intros Hin. apply existsb_exists. exists key. split; [assumption|].
  apply IdWalk.str_contains_middle. intros ->. vm_compute in Hin. intuition discriminate.
Qed.

(** X28.  For a path into the question of a sub-block ([add_block],
    [edit_block], [add_or_edit_block] or [remove_block]) of the block at
    [sections[i].groups[j].blocks[k]], with the three indices below ten,
    the block of the context is the id of the sub-block, read from the
    block that [blocks_by_id] holds under the block's id; the group and the
    section are those of the block. *)
Theorem context_of_sub_block_path
    self (i j k : nat) key tail group block group_id block_id held sub sub_id
    section_id :
  i < 10 -> j < 10 -> k < 10 ->
  In key sub_block_keys ->
  block_at (schema self) i j k group block ->
  dict_get group "id" = Some group_id ->
  dict_get block "id" = Some block_id ->
  pydict_getitem (blocks_by_id self) block_id = Ok (PDict held) ->
  dict_get held key = Some (PDict sub) ->
  dict_get sub "id" = Some sub_id ->
  nth_error (section_ids self) i = Some section_id ->
  get_context_from_path self
    (block_path_of i j k ++ "." ++ key ++ ".question" ++ tail)
  = Ok {| section := section_id; block := sub_id; group_id := group_id |}.
Proof.
  intros Hi Hj Hk Hkey (d & sections & ds & groups & blocks
                        & Hs & Hd & Hsec & Hds & Hgrp & Hdg & Hblk)
    Hgid Hbid Hheld Hsub Hsid Hsection.
  destruct (paths_below_ten i j k ("." ++ key ++ ".question" ++ tail) Hi Hj Hk)
    as (Hindex & Hgroup & Hblock).
  unfold get_context_from_path. rewrite Hindex. cbn [bind].
  rewrite Hgroup, Hblock. unfold get_path_id, match1.
  rewrite (parse_group_id_path i j Hi Hj), (parse_block_id_path i j k Hi Hj Hk).
  cbn [bind]. rewrite Hs.
  rewrite (steps_find_field_index _ _ _ _ _ _ _ Hd Hsec).
  rewrite (steps_find_field_index _ _ _ _ _ _ _ Hds Hgrp).
  rewrite (steps_find_id _ _ _ Hgid). cbn [bind snd].
  rewrite (steps_find_field_index _ _ _ _ _ _ _ Hd Hsec).
  rewrite (steps_find_field_index _ _ _ _ _ _ _ Hds Hgrp).
  rewrite (steps_find_field_index _ _ _ _ _ _ _ Hdg Hblk).
  rewrite (steps_find_id _ _ _ Hbid). cbn [bind snd].
  replace (block_path_of i j k ++ "." ++ key ++ ".question" ++ tail)%string
    with ((block_path_of i j k ++ ".") ++ key ++ ".question" ++ tail)%string
    by apply str_app_assoc.
  rewrite (sub_block_in_path _ _ _ Hkey).
  replace (Z.of_nat (String.length (block_path_of i j k)) + 1)%Z
    with (Z.of_nat (String.length (block_path_of i j k ++ "."))).
  2:{ rewrite str_length_app. cbn [String.length]. lia. }
  rewrite str_drop_app, (sub_block_key _ _ Hkey), Hheld. cbn [bind].
  unfold py_getitem. rewrite Hsub. cbn [bind]. rewrite Hsid. cbn [bind].
  unfold list_getitem. rewrite Hsection. reflexivity.
Qed.

(** A list collector with an add block. *)
Definition list_collector : list (string * pyval) :=
  [("id", PStr "list-1"); ("type", PStr "ListCollector"); ("for_list", PStr "people");
   ("add_block",
    PDict [("id", PStr "add-person"); ("type", PStr "ListAddQuestion");
           ("question",
            PDict [("id", PStr "add-question"); ("type", PStr "General");
                   ("answers", PList [number_answer "age"])])])].

Definition list_collector_group : list (string * pyval) :=
  [("id", PStr "group-1"); ("blocks", PList [PDict list_collector])].

Definition list_collector_document : pyval :=
  PDict [("sections",
          PList [PDict [("id", PStr "section-1");
                        ("groups", PList [PDict list_collector_group])]])].

Lemma context_of_sub_block_path_witness :
  get_context_from_path (index_of list_collector_document)
    (block_path_of 0 0 0 ++ "." ++ "add_block" ++ ".question" ++ "")
  = Ok {| section := PStr "section-1"; block := PStr "add-person";
          group_id := PStr "group-1" |}.
Proof.
  apply (context_of_sub_block_path (index_of list_collector_document) 0 0 0
           "add_block" "" list_collector_group list_collector
           (PStr "group-1") (PStr "list-1") list_collector
           [("id", PStr "add-person"); ("type", PStr "ListAddQuestion");
            ("question",
             PDict [("id", PStr "add-question"); ("type", PStr "General");
                    ("answers", PList [number_answer "age"])])]
           (PStr "add-person") (PStr "section-1"));
    try lia; try reflexivity.
  - left. reflexivity.
  - do 5 eexists. repeat (split; [reflexivity|]). reflexivity.
Defined.

End SubBlocks.
